(** * wimlib: generic compression wrappers, endianness helpers, WIMStruct
      predicates and the UNIX apply back-end, as a shallow embedding.

    Files embedded here:
    - compress.c          (Module Compress)
    - wimlib/endianness.h (Module Endian)
    - wimlib/wim.h, wimlib/integrity.h (Module Wim)
    - unix_apply.c        (Module UnixApply)

    C integers are [Z] with the wrap-around of their type written out;
    pointers that may be [NULL] are [option]s; heap objects live in finite
    maps; the kernel and the other modules of the library answer the calls
    of unix_apply.c from a list of answers, consumed call by call, and every
    call is recorded in a trace. *)

From Stdlib Require Import ZArith Lia List Bool String.
From stdpp Require Import base gmap list strings.

Local Open Scope Z_scope.

(* ===================================================================== *)
(** ** Fixed-width unsigned integers (wimlib/types.h: u8, u16, u32, u64)  *)
(* ===================================================================== *)

Module Types.

(** Conversion of a mathematical value to an unsigned type of [w] bits. *)
Definition wrap (w : Z) (x : Z) : Z := x mod 2 ^ w.

Definition u16 (x : Z) : Z := wrap 16 x.
Definition u32 (x : Z) : Z := wrap 32 x.
Definition u64 (x : Z) : Z := wrap 64 x.

(** [unsigned] is 32 bits wide on the supported hosts, [unsigned long] and
    [size_t] are 64 bits wide (LP64). *)
Definition uint (x : Z) : Z := wrap 32 x.
Definition ulong (x : Z) : Z := wrap 64 x.
Definition size_t (x : Z) : Z := wrap 64 x.

Definition in_range (w : Z) (x : Z) : Prop := 0 <= x < 2 ^ w.

End Types.

(* ===================================================================== *)
(** ** wimlib/endianness.h                                                *)
(* ===================================================================== *)

Module Endian.
Import Types.

(** The reference notion of byte order: the [k] bytes of [n], least
    significant first, and the number a list of bytes denotes. *)
Fixpoint le_bytes (k : nat) (n : Z) : list Z :=
  match k with
  | O => []
  | S k' => Z.land n 0xff :: le_bytes k' (Z.shiftr n 8)
  end.

Fixpoint of_le_bytes (l : list Z) : Z :=
  match l with
  | [] => 0
  | b :: t => Z.lor b (Z.shiftl (of_le_bytes t) 8)
  end.

(** Modelled from the compiler's documentation: [__builtin_bswap32] and
    [__builtin_bswap64] return their argument with the order of its bytes
    reversed. *)
Definition builtin_bswap32 (n : Z) : Z := of_le_bytes (rev (le_bytes 4 n)).
Definition builtin_bswap64 (n : Z) : Z := of_le_bytes (rev (le_bytes 8 n)).

(** [bswap16]: [(n << 8) | (n >> 8)], computed in [int] after integer
    promotion and converted back to [u16] by the return. *)
Definition bswap16 (n : Z) : Z :=
  u16 (Z.lor (Z.shiftl n 8) (Z.shiftr n 8)).

(** The [#else] branch of [bswap32]; every operation is on [u32]. *)
Definition bswap32_fallback (n : Z) : Z :=
  Z.lor (Z.lor (Z.lor
    (u32 (Z.shiftl n 24))
    (u32 (Z.shiftl (Z.land n 0xff00) 8)))
    (Z.shiftr (Z.land n 0xff0000) 8))
    (Z.shiftr n 24).

(** The [#else] branch of [bswap64]; every operation is on [u64]. *)
Definition bswap64_fallback (n : Z) : Z :=
  Z.lor (Z.lor (Z.lor (Z.lor (Z.lor (Z.lor (Z.lor
    (u64 (Z.shiftl n 56))
    (u64 (Z.shiftl (Z.land n 0xff00) 40)))
    (u64 (Z.shiftl (Z.land n 0xff0000) 24)))
    (u64 (Z.shiftl (Z.land n 0xff000000) 8)))
    (Z.shiftr (Z.land n 0xff00000000) 8))
    (Z.shiftr (Z.land n 0xff0000000000) 24))
    (Z.shiftr (Z.land n 0xff000000000000) 40))
    (Z.shiftr n 56).

(** [gnuc_4_3] is the preprocessor test
    [__GNUC__ > 4 || (__GNUC__ == 4 && __GNUC_MINOR__ >= 3)]. *)
Definition bswap32 (gnuc_4_3 : bool) (n : Z) : Z :=
  if gnuc_4_3 then builtin_bswap32 n else bswap32_fallback n.

Definition bswap64 (gnuc_4_3 : bool) (n : Z) : Z :=
  if gnuc_4_3 then builtin_bswap64 n else bswap64_fallback n.

(** The conversion macros; [WORDS_BIGENDIAN] is the configuration macro. *)
Section Macros.
Variable WORDS_BIGENDIAN : bool.
Variable gnuc_4_3 : bool.

Definition le16_to_cpu (n : Z) : Z := if WORDS_BIGENDIAN then bswap16 n else n.
Definition le32_to_cpu (n : Z) : Z := if WORDS_BIGENDIAN then bswap32 gnuc_4_3 n else n.
Definition le64_to_cpu (n : Z) : Z := if WORDS_BIGENDIAN then bswap64 gnuc_4_3 n else n.
Definition cpu_to_le16 (n : Z) : Z := if WORDS_BIGENDIAN then bswap16 n else n.
Definition cpu_to_le32 (n : Z) : Z := if WORDS_BIGENDIAN then bswap32 gnuc_4_3 n else n.
Definition cpu_to_le64 (n : Z) : Z := if WORDS_BIGENDIAN then bswap64 gnuc_4_3 n else n.

Definition cpu_to_be16 (n : Z) : Z := if WORDS_BIGENDIAN then n else bswap16 n.
Definition cpu_to_be32 (n : Z) : Z := if WORDS_BIGENDIAN then n else bswap32 gnuc_4_3 n.
Definition cpu_to_be64 (n : Z) : Z := if WORDS_BIGENDIAN then n else bswap64 gnuc_4_3 n.
Definition be16_to_cpu (n : Z) : Z := if WORDS_BIGENDIAN then n else bswap16 n.
Definition be32_to_cpu (n : Z) : Z := if WORDS_BIGENDIAN then n else bswap32 gnuc_4_3 n.
Definition be64_to_cpu (n : Z) : Z := if WORDS_BIGENDIAN then n else bswap64 gnuc_4_3 n.

End Macros.

End Endian.

(* ===================================================================== *)
(** ** wimlib.h: error codes and compression types                        *)
(* ===================================================================== *)

Module Wimlib.

(** Modelled from the spec: [enum wimlib_error_code] of wimlib.h.  The
    constructors are the codes the spec lists as stable together with the
    ones compress.c and unix_apply.c name; [WIMLIB_ERR_SUCCESS] is the value
    0, every other code is nonzero and the codes are pairwise distinct. *)
Inductive wimlib_error_code : Set :=
| WIMLIB_ERR_SUCCESS
| WIMLIB_ERR_DECOMPRESSION
| WIMLIB_ERR_INTEGRITY
| WIMLIB_ERR_INVALID_COMPRESSION_TYPE
| WIMLIB_ERR_INVALID_PARAM
| WIMLIB_ERR_INVALID_REPARSE_DATA
| WIMLIB_ERR_LINK
| WIMLIB_ERR_MKDIR
| WIMLIB_ERR_MKNOD
| WIMLIB_ERR_NOMEM
| WIMLIB_ERR_NOT_A_WIM_FILE
| WIMLIB_ERR_OPEN
| WIMLIB_ERR_READ
| WIMLIB_ERR_READLINK
| WIMLIB_ERR_REPARSE_POINT_FIXUP_FAILED
| WIMLIB_ERR_SET_SECURITY
| WIMLIB_ERR_SET_TIMESTAMPS
| WIMLIB_ERR_UNKNOWN_VERSION
| WIMLIB_ERR_WRITE.

#[global] Instance wimlib_error_code_eq_dec : EqDecision wimlib_error_code.
Proof. solve_decision. Defined.

(** The C test [if (ret)] on an [int] holding an error code. *)
Definition is_error (ret : wimlib_error_code) : bool :=
  match ret with
  | WIMLIB_ERR_SUCCESS => false
  | _ => true
  end.

(** [enum wimlib_compression_type]; the spec fixes the codec ids. *)
Definition WIMLIB_COMPRESSION_TYPE_NONE : Z := 0.
Definition WIMLIB_COMPRESSION_TYPE_XPRESS : Z := 1.
Definition WIMLIB_COMPRESSION_TYPE_LZX : Z := 2.
Definition WIMLIB_COMPRESSION_TYPE_LZMS : Z := 3.

(** A C function either returns to its caller or ends the process through
    [abort()]. *)
Inductive outcome (A : Type) : Type :=
| Returns (a : A)
| Aborts.
Arguments Returns {A} a.
Arguments Aborts {A}.

End Wimlib.

(* ===================================================================== *)
(** ** wimlib/wim.h and wimlib/integrity.h                                *)
(* ===================================================================== *)

Module Wim.
Import Wimlib.

(** Modelled from the spec: [struct wim_reshdr] (wimlib/resource.h) and
    [struct wim_header] (wimlib/header.h), with the fields of the spec's
    data model. *)
Record wim_reshdr : Set := {
  size_in_wim : Z;
  flags : Z;
  offset_in_wim : Z;
  uncompressed_size : Z
}.

Record wim_header : Set := {
  magic : Z;
  hdr_flags : Z;
  hdr_chunk_size : Z;
  part_number : Z;
  total_parts : Z;
  image_count : Z;
  lookup_table_reshdr : wim_reshdr;
  xml_data_reshdr : wim_reshdr;
  boot_metadata_reshdr : wim_reshdr;
  boot_idx : Z;
  integrity_table_reshdr : wim_reshdr
}.

(** The fields of [struct WIMStruct] the inline predicates read.
    [image_metadata] is a pointer to an array: [None] is [NULL]; an entry is
    the handle of one image's metadata. *)
Record WIMStruct : Set := {
  filename : option string;
  image_metadata : option (list Z);
  hdr : wim_header;
  current_image : Z;
  compression_type : Z;
  chunk_size : Z
}.

Section Predicates.
(** [PWM_MAGIC] is defined in wimlib/header.h. *)
Variable PWM_MAGIC : Z.

Definition wim_is_pipable (wim : WIMStruct) : bool :=
  magic (hdr wim) =? PWM_MAGIC.

End Predicates.

Definition wim_has_integrity_table (wim : WIMStruct) : bool :=
  negb (offset_in_wim (integrity_table_reshdr (hdr wim)) =? 0).

Definition wim_has_metadata (wim : WIMStruct) : bool :=
  bool_decide (image_metadata wim <> None) || (image_count (hdr wim) =? 0).

Definition WIM_INTEGRITY_OK : Z := 0.
Definition WIM_INTEGRITY_NOT_OK : Z := -1.
Definition WIM_INTEGRITY_NONEXISTENT : Z := -2.

(** The integrity table resource of the spec's data model:
    [(entry_size = 20, entry_count, chunk_size)] followed by [entry_count]
    SHA-1 digests. *)
Record integrity_table : Set := {
  it_size : Z;
  it_num_entries : Z;
  it_chunk_size : Z;
  it_sha1sums : list (list Z)
}.

(** Cut a byte sequence into consecutive pieces of [n] bytes (the last one
    may be shorter); [fuel] bounds the number of pieces. *)
Fixpoint chunks_of (fuel : nat) (n : nat) (l : list Z) : list (list Z) :=
  match fuel with
  | O => []
  | S fuel' =>
      match l with
      | [] => []
      | _ => take n l :: chunks_of fuel' n (drop n l)
      end
  end.

Section Integrity.
Variable sha1 : list Z -> list Z.

(** Modelled from the spec: the body of [check_wim_integrity], which is in
    integrity.c; integrity.h has its declaration and the three result codes.
    The spec says: the table covers the bytes between the end of the header
    and the end of the lookup table, cut at the table's chunk size; check
    reads the table and compares; check returns OK, NOT_OK or NONEXISTENT.
    [resource_area] is that byte range of the file and [table] the integrity
    table found at [integrity_table_reshdr]. *)
Definition check_wim_integrity
    (wim : WIMStruct) (resource_area : list Z) (table : integrity_table) : Z :=
  if negb (wim_has_integrity_table wim) then WIM_INTEGRITY_NONEXISTENT
  else
    let computed :=
      map sha1 (chunks_of (S (length resource_area))
                          (Z.to_nat (it_chunk_size table)) resource_area) in
    if bool_decide (computed = it_sha1sums table)
    then WIM_INTEGRITY_OK
    else WIM_INTEGRITY_NOT_OK.

End Integrity.

End Wim.

(* ===================================================================== *)
(** ** compress.c                                                         *)
(* ===================================================================== *)

Module Compress.
Import Types Wimlib.

(** [struct compressor_ops] (wimlib/compressor_ops.h).  A member that may be
    [NULL] is an [option].  [create_compressor] returns its status and the
    value it stores through its last argument; [compress] returns the
    compressed size and the bytes it wrote to the output buffer. *)
Record compressor_ops : Type := {
  get_needed_memory : option (Z -> Z -> Z);
  create_compressor : option (Z -> Z -> wimlib_error_code * Z);
  compress : list Z -> Z -> Z -> Z -> Z * list Z;
  free_compressor : option (Z -> unit)
}.

Record wimlib_compressor : Type := {
  ops : compressor_ops;
  private : Z;
  ctype : Z;
  max_block_size : Z
}.

Definition DEFAULT_COMPRESSION_LEVEL : Z := 50.

(** The state the functions of this file read and write: the static array
    [default_compression_levels], the heap of [struct wimlib_compressor]
    objects, and the callers' pointer variables ([None] is [NULL]). *)
Record state : Type := {
  default_compression_levels : list Z;
  heap : gmap nat wimlib_compressor;
  vars : gmap nat (option nat)
}.

Definition set_levels (l : list Z) (s : state) : state :=
  {| default_compression_levels := l; heap := heap s; vars := vars s |}.
Definition set_heap (h : gmap nat wimlib_compressor) (s : state) : state :=
  {| default_compression_levels := default_compression_levels s;
     heap := h; vars := vars s |}.
Definition set_vars (v : gmap nat (option nat)) (s : state) : state :=
  {| default_compression_levels := default_compression_levels s;
     heap := heap s; vars := v |}.

Section Codecs.
(** The three codecs are defined in other files. *)
Variables xpress_compressor_ops lzx_compressor_ops lzms_compressor_ops
  : compressor_ops.
(** [sizeof(struct wimlib_compressor)]. *)
Variable sizeof_wimlib_compressor : Z.

(** The designated initialisers leave index 0 a null pointer. *)
Definition compressor_ops_table : list (option compressor_ops) :=
  [ None;
    Some xpress_compressor_ops;
    Some lzx_compressor_ops;
    Some lzms_compressor_ops ].

Definition ARRAY_LEN {A} (a : list A) : Z := Z.of_nat (length a).

(** A static array starts zeroed. *)
Definition initial_levels : list Z :=
  replicate (length compressor_ops_table) 0.

Definition initial_state : state :=
  {| default_compression_levels := initial_levels; heap := ∅; vars := ∅ |}.

Definition compressor_ctype_valid (ctype : Z) : bool :=
  (0 <=? ctype) && (ctype <? ARRAY_LEN compressor_ops_table) &&
  bool_decide (is_Some (mjoin (compressor_ops_table !! Z.to_nat ctype))).

(** [compressor_ops[ctype]], read after the validity test. *)
Definition ops_of (ctype : Z) : option compressor_ops :=
  mjoin (compressor_ops_table !! Z.to_nat ctype).

Definition wimlib_set_default_compression_level
    (ctype : Z) (compression_level : Z) (s : state)
  : wimlib_error_code * state :=
  if ctype =? -1 then
    (WIMLIB_ERR_SUCCESS,
     set_levels
       (foldl (fun a i => <[i := compression_level]> a)
              (default_compression_levels s)
              (seq 0 (length (default_compression_levels s))))
       s)
  else if negb (compressor_ctype_valid ctype) then
    (WIMLIB_ERR_INVALID_COMPRESSION_TYPE, s)
  else
    (WIMLIB_ERR_SUCCESS,
     set_levels (<[Z.to_nat ctype := compression_level]>
                   (default_compression_levels s)) s).

(** The two assignments both functions below make to [compression_level]
    before handing it to the codec. *)
Definition level_or_default (ctype : Z) (compression_level : Z) (s : state) : Z :=
  let l1 :=
    if compression_level =? 0
    then default (0) (default_compression_levels s !! Z.to_nat ctype)
    else compression_level in
  if l1 =? 0 then DEFAULT_COMPRESSION_LEVEL else l1.

Definition wimlib_get_compressor_needed_memory
    (ctype : Z) (max_block_size : Z) (compression_level : Z) (s : state) : Z :=
  if negb (compressor_ctype_valid ctype) then 0
  else
    match ops_of ctype with
    | None => 0
    | Some ops =>
        let compression_level := level_or_default ctype compression_level s in
        let size := sizeof_wimlib_compressor in
        match get_needed_memory ops with
        | Some f => u64 (size + f max_block_size compression_level)
        | None => size
        end
    end.

(** The allocation of the compressor: [malloc_ok] tells whether the allocator has memory;
    the new object lives at an address not in use. *)
Definition MALLOC (malloc_ok : bool) (s : state) : option nat :=
  if malloc_ok then Some (fresh (dom (heap s))) else None.

Definition wimlib_create_compressor
    (malloc_ok : bool)
    (ctype : Z) (max_block_size : Z) (compression_level : Z)
    (c_ret : option nat) (s : state)
  : wimlib_error_code * state :=
  match c_ret with
  | None => (WIMLIB_ERR_INVALID_PARAM, s)
  | Some c_ret =>
    if max_block_size =? 0 then (WIMLIB_ERR_INVALID_PARAM, s)
    else if negb (compressor_ctype_valid ctype) then
      (WIMLIB_ERR_INVALID_COMPRESSION_TYPE, s)
    else
      match MALLOC malloc_ok s with
      | None => (WIMLIB_ERR_NOMEM, s)
      | Some c =>
        match ops_of ctype with
        | None =>
            (* a null table entry: excluded by the validity test above *)
            (WIMLIB_ERR_INVALID_COMPRESSION_TYPE, s)
        | Some o =>
        let obj := {| ops := o; private := 0;
                      ctype := ctype; max_block_size := max_block_size |} in
        let s1 := set_heap (<[c := obj]> (heap s)) s in
        match create_compressor o with
        | Some create =>
            let compression_level :=
              level_or_default ctype compression_level s1 in
            let '(ret, priv) := create max_block_size compression_level in
            if is_error ret then
              (ret, set_heap (delete c (heap s1)) s1)
            else
              let obj' := {| ops := o; private := priv;
                             ctype := ctype;
                             max_block_size := max_block_size |} in
              (WIMLIB_ERR_SUCCESS,
               set_vars (<[c_ret := Some c]> (vars s1))
                        (set_heap (<[c := obj']> (heap s1)) s1))
        | None =>
            (WIMLIB_ERR_SUCCESS, set_vars (<[c_ret := Some c]> (vars s1)) s1)
        end
        end
      end
  end.

(** [wimlib_free_compressor].  The memory behind [c->private] belongs to
    the codec and lies outside this state, so the call of the codec's
    [free_compressor] is reported beside the new state: the list holds the
    [c->private] handed to it, and is empty when no call is made.  For a
    pointer to no live object the source reads freed memory; there is no
    result then. *)
Definition wimlib_free_compressor (c : option nat) (s : state)
  : option (state * list Z) :=
  match c with
  | None => Some (s, [])
  | Some a =>
      match heap s !! a with
      | Some obj =>
          let freed :=
            match free_compressor (ops obj) with
            | Some _ => [private obj]
            | None => []
            end in
          Some (set_heap (delete a (heap s)) s, freed)
      | None => None
      end
  end.

End Codecs.

(** What [WARNING] and [ERROR] print. *)
Inductive message : Set :=
| WARNING (text : string)
| ERROR (text : string).

(** [memcmp] over the first [n] bytes; the buffers of the callers hold at
    least [n] bytes, a missing byte compares as different. *)
Fixpoint memcmp (a b : list Z) (n : nat) {struct n} : Z :=
  match n with
  | O => 0
  | S n' =>
      match a, b with
      | x :: a', y :: b' => if x =? y then memcmp a' b' n' else x - y
      | [], _ => -1
      | _ :: _, [] => 1
      end
  end.

Record compress_result : Type := {
  returned : outcome Z;
  compressed_data : list Z;
  messages : list message
}.

Section Compression.
(** [wimlib_assert(e)] is [assert(e)] when the build enables assertions and
    nothing otherwise (wimlib/assert.h). *)
Variable ENABLE_ASSERTIONS : bool.
Variable ENABLE_VERIFY_COMPRESSION : bool.
(** decompress.c: [wimlib_create_decompressor] gives its status and the
    decompressor; [wimlib_decompress] gives its status (0 on success) and
    the bytes it wrote to the output buffer. *)
Variable wimlib_create_decompressor : Z -> Z -> wimlib_error_code * Z.
Variable wimlib_decompress : list Z -> Z -> Z -> Z -> Z * list Z.

Definition wimlib_compress
    (malloc_ok : bool)
    (uncompressed_data : list Z) (uncompressed_size : Z)
    (compressed_size_avail : Z) (c : wimlib_compressor) : compress_result :=
  if ENABLE_ASSERTIONS && negb (uncompressed_size <=? max_block_size c) then
    {| returned := Aborts; compressed_data := []; messages := [] |}
  else
    let '(compressed_size, cdata) :=
      compress (ops c) uncompressed_data uncompressed_size
               compressed_size_avail (private c) in
    if ENABLE_VERIFY_COMPRESSION && negb (compressed_size =? 0) then
      if negb malloc_ok then
        {| returned := Returns 0; compressed_data := cdata;
           messages := [WARNING "Unable to verify results of compression (can't allocate buffer)"] |}
      else
        let '(res, d) :=
          wimlib_create_decompressor (ctype c) (max_block_size c) in
        if is_error res then
          {| returned := Returns 0; compressed_data := cdata;
             messages := [WARNING "Unable to verify results of compression (can't create decompressor)"] |}
        else
          let '(res, buf) :=
            wimlib_decompress cdata compressed_size uncompressed_size d in
          if negb (res =? 0) then
            {| returned := Aborts; compressed_data := cdata;
               messages := [ERROR "Failed to decompress our compressed data"] |}
          else if negb (memcmp uncompressed_data buf
                               (Z.to_nat uncompressed_size) =? 0) then
            {| returned := Aborts; compressed_data := cdata;
               messages := [ERROR "Our compressed data did not decompress to original"] |}
          else
            {| returned := Returns compressed_size; compressed_data := cdata;
               messages := [] |}
    else
      {| returned := Returns compressed_size; compressed_data := cdata;
         messages := [] |}.

End Compression.

End Compress.

(* ===================================================================== *)
(** ** unix_apply.c                                                       *)
(* ===================================================================== *)

Module UnixApply.
Import Types Wimlib.

(** *** Constants of the system headers (Linux values) *)

Definition EPERM : Z := 1.
Definition EEXIST : Z := 17.
Definition ENAMETOOLONG : Z := 36.
Definition ENOSYS : Z := 38.

Definition S_IFMT : Z := 0xf000.
Definition S_IFDIR : Z := 0x4000.
Definition S_IFREG : Z := 0x8000.
Definition S_ISREG (m : Z) : bool := Z.land m S_IFMT =? S_IFREG.
Definition S_ISDIR (m : Z) : bool := Z.land m S_IFMT =? S_IFDIR.

Definition NUM_PATHBUFS : Z := 2.

(** The octal mode 0755 of [mkdir]. *)
Definition MODE_0755 : Z := 0x1ed.

(** *** Data of the other modules, as far as this file reads it *)

Record wimlib_unix_data : Set := {
  uid : Z;
  gid : Z;
  mode : Z;
  rdev : Z
}.

(** A dentry.  [d_addr] stands for its address (dentries are compared as
    pointers); the root is its own parent, which is [d_parent = None] here;
    [d_will_extract] is what [will_extract_dentry] answers. *)
#[warnings="-register-all"]
Inductive wim_dentry : Set := Dentry {
  d_addr : nat;
  d_extraction_name : string;
  d_parent : option wim_dentry;
  d_will_extract : bool
}.

Definition dentry_is_root (d : wim_dentry) : bool :=
  bool_decide (d_parent d = None).
Definition will_extract_dentry (d : wim_dentry) : bool := d_will_extract d.
Definition d_extraction_name_nchars (d : wim_dentry) : Z :=
  Z.of_nat (String.length (d_extraction_name d)).

(** An inode.  The boolean and optional fields are what [inode_is_directory],
    [inode_is_symlink], [inode_unnamed_lte_resolved] and
    [inode_get_unix_data] answer.  The list of extraction aliases is not
    empty: its first element is [inode_first_extraction_dentry]. *)
Record wim_inode : Set := {
  i_addr : nat;
  i_is_directory : bool;
  i_is_symlink : bool;
  i_unnamed_lte_resolved : bool;
  i_unix_data : option wimlib_unix_data;
  i_not_rpfixed : bool;
  i_last_access_time : Z;
  i_last_write_time : Z;
  i_first_extraction_dentry : wim_dentry;
  i_more_extraction_aliases : list wim_dentry
}.

Definition inode_is_directory := i_is_directory.
Definition inode_is_symlink := i_is_symlink.
Definition inode_unnamed_lte_resolved := i_unnamed_lte_resolved.
Definition inode_get_unix_data := i_unix_data.
Definition inode_first_extraction_dentry := i_first_extraction_dentry.
Definition i_extraction_aliases (inode : wim_inode) : list wim_dentry :=
  i_first_extraction_dentry inode :: i_more_extraction_aliases inode.

(** A stream with the inodes that own an instance of it
    ([stream_owners], [out_refcnt] entries). *)
Record wim_lookup_table_entry : Set := {
  size : Z;
  stream_owners : list wim_inode
}.

(** [extract_flags], one field for each test [extract_flags & FLAG] the file
    makes. *)
Record extract_flags_t : Set := {
  WIMLIB_EXTRACT_FLAG_UNIX_DATA : bool;
  WIMLIB_EXTRACT_FLAG_STRICT_ACLS : bool;
  WIMLIB_EXTRACT_FLAG_STRICT_TIMESTAMPS : bool;
  WIMLIB_EXTRACT_FLAG_RPFIX : bool
}.

Record apply_ctx : Set := {
  extract_flags : extract_flags_t;
  target : string;
  target_nchars : Z;
  required_symlink_reparse_points : bool
}.

(** [struct unix_apply_ctx].  A path buffer holds a string; an open file is
    its descriptor; [reparse_ptr] is an offset into [reparse_data] or
    [None] for [NULL]. *)
Record unix_apply_ctx : Set := {
  common : apply_ctx;
  pathbufs : list string;
  which_pathbuf : Z;
  open_fds : list Z;
  num_open_fds : Z;
  reparse_data : list Z;
  reparse_ptr : option Z;
  target_abspath : option string;
  target_abspath_nchars : Z;
  num_special_files_ignored : Z
}.

Definition set_pathbufs (v : list string) (c : unix_apply_ctx) :=
  {| common := common c; pathbufs := v; which_pathbuf := which_pathbuf c;
     open_fds := open_fds c; num_open_fds := num_open_fds c;
     reparse_data := reparse_data c; reparse_ptr := reparse_ptr c;
     target_abspath := target_abspath c;
     target_abspath_nchars := target_abspath_nchars c;
     num_special_files_ignored := num_special_files_ignored c |}.
Definition set_which_pathbuf (v : Z) (c : unix_apply_ctx) :=
  {| common := common c; pathbufs := pathbufs c; which_pathbuf := v;
     open_fds := open_fds c; num_open_fds := num_open_fds c;
     reparse_data := reparse_data c; reparse_ptr := reparse_ptr c;
     target_abspath := target_abspath c;
     target_abspath_nchars := target_abspath_nchars c;
     num_special_files_ignored := num_special_files_ignored c |}.
Definition set_open_fds (v : list Z) (c : unix_apply_ctx) :=
  {| common := common c; pathbufs := pathbufs c;
     which_pathbuf := which_pathbuf c;
     open_fds := v; num_open_fds := num_open_fds c;
     reparse_data := reparse_data c; reparse_ptr := reparse_ptr c;
     target_abspath := target_abspath c;
     target_abspath_nchars := target_abspath_nchars c;
     num_special_files_ignored := num_special_files_ignored c |}.
Definition set_num_open_fds (v : Z) (c : unix_apply_ctx) :=
  {| common := common c; pathbufs := pathbufs c;
     which_pathbuf := which_pathbuf c;
     open_fds := open_fds c; num_open_fds := v;
     reparse_data := reparse_data c; reparse_ptr := reparse_ptr c;
     target_abspath := target_abspath c;
     target_abspath_nchars := target_abspath_nchars c;
     num_special_files_ignored := num_special_files_ignored c |}.
Definition set_reparse_data (v : list Z) (c : unix_apply_ctx) :=
  {| common := common c; pathbufs := pathbufs c;
     which_pathbuf := which_pathbuf c;
     open_fds := open_fds c; num_open_fds := num_open_fds c;
     reparse_data := v; reparse_ptr := reparse_ptr c;
     target_abspath := target_abspath c;
     target_abspath_nchars := target_abspath_nchars c;
     num_special_files_ignored := num_special_files_ignored c |}.
Definition set_reparse_ptr (v : option Z) (c : unix_apply_ctx) :=
  {| common := common c; pathbufs := pathbufs c;
     which_pathbuf := which_pathbuf c;
     open_fds := open_fds c; num_open_fds := num_open_fds c;
     reparse_data := reparse_data c; reparse_ptr := v;
     target_abspath := target_abspath c;
     target_abspath_nchars := target_abspath_nchars c;
     num_special_files_ignored := num_special_files_ignored c |}.
Definition set_target_abspath (v : option string) (c : unix_apply_ctx) :=
  {| common := common c; pathbufs := pathbufs c;
     which_pathbuf := which_pathbuf c;
     open_fds := open_fds c; num_open_fds := num_open_fds c;
     reparse_data := reparse_data c; reparse_ptr := reparse_ptr c;
     target_abspath := v;
     target_abspath_nchars := target_abspath_nchars c;
     num_special_files_ignored := num_special_files_ignored c |}.
Definition set_target_abspath_nchars (n : Z) (c : unix_apply_ctx) :=
  {| common := common c; pathbufs := pathbufs c;
     which_pathbuf := which_pathbuf c;
     open_fds := open_fds c; num_open_fds := num_open_fds c;
     reparse_data := reparse_data c; reparse_ptr := reparse_ptr c;
     target_abspath := target_abspath c;
     target_abspath_nchars := n;
     num_special_files_ignored := num_special_files_ignored c |}.
Definition set_num_special_files_ignored (v : Z) (c : unix_apply_ctx) :=
  {| common := common c; pathbufs := pathbufs c;
     which_pathbuf := which_pathbuf c;
     open_fds := open_fds c; num_open_fds := num_open_fds c;
     reparse_data := reparse_data c; reparse_ptr := reparse_ptr c;
     target_abspath := target_abspath c;
     target_abspath_nchars := target_abspath_nchars c;
     num_special_files_ignored := v |}.

(** How [unix_begin_extract_stream] ends: it returns a status, a failed
    assertion ends the process, or it stores past the end of [open_fds]. *)
Inductive begin_outcome : Set :=
| Begin_returns (r : wimlib_error_code)
| Begin_aborts
| Begin_out_of_bounds.

(** *** The world outside this file

    Every call that leaves the file (a system call, a helper of another
    module, a message) is an [event].  The environment answers a call with
    an [answer]; the answers to come are a list, and once the list is used up
    every further call succeeds with return value 0. *)

Inductive event : Set :=
| Mknod (path : string) (mode rdev : Z)
| Open (path : string)
| Close (fd : Z)
| Link (oldpath newpath : string)
| Unlink (path : string)
| Symlink (link_target path : string)
| Mkdir (path : string) (mode : Z)
| Lstat (path : string)
| Fchown (fd uid gid : Z)
| Lchown (path : string) (uid gid : Z)
| Fchmod (fd mode : Z)
| Chmod (path : string) (mode : Z)
| Futimens (fd atime mtime : Z)
| Utimensat (path : string) (atime mtime : Z)
| Futimes (fd atime mtime : Z)
| Lutimes (path : string) (atime mtime : Z)
| Realpath (path : string)
| Malloc (size : Z)
| Free
| Filedes_close (fd : Z)
| Full_write (fd : Z) (chunk : list Z)
| Wim_inode_readlink (inode : nat) (rpdata : list Z) (rpdatalen : Z)
| Report_file_created
| Report_file_metadata_applied
| Reset_file_progress
| Extract_stream_list
| Warning (text path : string)
| Error (text path : string).

#[global] Instance event_eq_dec : EqDecision event.
Proof. solve_decision. Defined.

(** [a_ret] is the value returned, [a_errno] what a failing system call
    leaves in [errno], [a_status] the status of a helper that returns an
    error code, [a_aux] a second number ([st_mode] of [lstat]) and [a_text] a
    string written through a pointer. *)
Record answer : Set := {
  a_ret : Z;
  a_errno : Z;
  a_status : wimlib_error_code;
  a_aux : Z;
  a_text : string
}.

Definition answer_ok : answer :=
  {| a_ret := 0; a_errno := 0; a_status := WIMLIB_ERR_SUCCESS;
     a_aux := 0; a_text := EmptyString |}.

Record state : Set := {
  ctx : unix_apply_ctx;
  errno : Z;
  oracle : list answer;
  trace : list event
}.

Definition M (A : Type) : Type := state -> A * state.

Definition ret {A} (a : A) : M A := fun s => (a, s).
Definition bind {A B} (m : M A) (k : A -> M B) : M B :=
  fun s => let '(a, s') := m s in k a s'.

Notation "'let*' x := m 'in' k" := (bind m (fun x => k))
  (at level 10, x name, m at level 100, k at level 200, only parsing).
Notation "'let*' ' p := m 'in' k" := (bind m (fun p => k))
  (at level 10, p strict pattern, m at level 100, k at level 200, only parsing).
Notation "m ;; k" := (bind m (fun _ => k))
  (at level 100, k at level 200, right associativity, only parsing).

Definition get_ctx : M unix_apply_ctx := fun s => (ctx s, s).
Definition modify_ctx (f : unix_apply_ctx -> unix_apply_ctx) : M unit :=
  fun s => (tt, {| ctx := f (ctx s); errno := errno s;
                   oracle := oracle s; trace := trace s |}).
Definition get_errno : M Z := fun s => (errno s, s).
Definition set_errno (e : Z) : M unit :=
  fun s => (tt, {| ctx := ctx s; errno := e;
                   oracle := oracle s; trace := trace s |}).
Definition emit (e : event) : M unit :=
  fun s => (tt, {| ctx := ctx s; errno := errno s;
                   oracle := oracle s; trace := trace s ++ [e] |}).
Definition next_answer : M answer :=
  fun s => match oracle s with
           | [] => (answer_ok, s)
           | a :: o => (a, {| ctx := ctx s; errno := errno s;
                              oracle := o; trace := trace s |})
           end.

(** A call of a helper of another module. *)
Definition extern (e : event) : M answer :=
  emit e ;; next_answer.

(** A system call: a negative return value comes with a new [errno]. *)
Definition syscall (e : event) : M answer :=
  let* a := extern e in
  (if a_ret a <? 0 then set_errno (a_errno a) else ret tt) ;;
  ret a.

(** A [goto retry] loop.  One pass through the code between the label and
    the [goto] either leaves the loop with a result or asks for another pass.
    A pass asks for another one only after a call has failed, so each retry
    uses up an answer; [retry] therefore runs the loop for one pass more
    than there are answers left. *)
Inductive pass (A : Type) : Type :=
| Done (a : A)
| Again.
Arguments Done {A} a.
Arguments Again {A}.

Fixpoint retry_n {A} (fuel : nat) (body : M (pass A)) (dflt : A) : M A :=
  let* r := body in
  match r with
  | Done a => ret a
  | Again =>
      match fuel with
      | S fuel' => retry_n fuel' body dflt
      | O => ret dflt
      end
  end.

Definition retry {A} (body : M (pass A)) (dflt : A) : M A :=
  fun s => retry_n (length (oracle s)) body dflt s.

(** The string a path pointer points to at the time of the call; a pointer
    is the index of a path buffer, [None] is [NULL]. *)
Definition path_at (p : option nat) : M string :=
  let* c := get_ctx in
  ret (default EmptyString (p ≫= fun i => pathbufs c !! i)).


Definition warning (text : string) (path : option nat) : M unit :=
  let* p := path_at path in emit (Warning text p).
Definition error (text : string) (path : option nat) : M unit :=
  let* p := path_at path in emit (Error text p).

Section Apply.
(** Configuration macros and constants of other headers. *)
Variable HAVE_FUTIMENS : bool.
Variable HAVE_UTIMENSAT : bool.
Variable REPARSE_DATA_MAX_SIZE : Z.
Variable ENABLE_ASSERTIONS : bool.
Variable MAX_OPEN_STREAMS : Z.
(** [dentry->d_inode]. *)
Variable d_inode : wim_dentry -> wim_inode.
(** [extract_stream_list] (extract.c) reads the streams and drives the three
    callbacks of this file; here it is any computation on the state. *)
Variable extract_stream_list : M wimlib_error_code.

Definition dentry_is_directory (d : wim_dentry) : bool :=
  inode_is_directory (d_inode d).

(** The [do ... while] loop over the ancestors that both path functions
    share: it goes on while the parent is not the root and will be
    extracted.  The lengths are added up in a [size_t]. *)
Fixpoint unix_dentry_path_length (dentry : wim_dentry) : Z :=
  size_t
    (d_extraction_name_nchars dentry + 1 +
     match d_parent dentry with
     | Some d =>
         if negb (dentry_is_root d) && will_extract_dentry d
         then unix_dentry_path_length d
         else 0
     | None => 0
     end).

(** The characters [unix_build_extraction_path] writes behind the target:
    for each dentry of the loop a slash and its name, the outermost first. *)
Fixpoint extraction_path_tail (dentry : wim_dentry) : string :=
  String.append
    match d_parent dentry with
    | Some d =>
        if negb (dentry_is_root d) && will_extract_dentry d
        then extraction_path_tail d
        else EmptyString
    | None => EmptyString
    end
    (String (Ascii.ascii_of_nat 47) (d_extraction_name dentry)).

Definition unix_compute_path_max
    (dentry_list : list wim_dentry) (c : unix_apply_ctx) : Z :=
  let max :=
    foldl (fun max dentry =>
             let len := unix_dentry_path_length dentry in
             if max <? len then len else max)
          0 dentry_list in
  size_t (target_nchars (common c) + max + 1).

(** Returns the path buffer it filled. *)
Definition unix_build_extraction_path (dentry : wim_dentry) : M nat :=
  let* c := get_ctx in
  let i := Z.to_nat (which_pathbuf c) in
  let pathbuf := default EmptyString (pathbufs c !! i) in
  modify_ctx (set_which_pathbuf
                (uint (which_pathbuf c + 1) mod NUM_PATHBUFS)) ;;
  modify_ctx (set_pathbufs
                (<[i := String.append
                          (substring 0 (Z.to_nat (target_nchars (common c)))
                                     pathbuf)
                          (extraction_path_tail dentry)]> (pathbufs c))) ;;
  ret i.

Definition unix_reuse_pathbuf : M unit :=
  let* c := get_ctx in
  modify_ctx (set_which_pathbuf
                (uint (which_pathbuf c - 1) mod NUM_PATHBUFS)).

Definition unix_build_inode_extraction_path (inode : wim_inode) : M nat :=
  unix_build_extraction_path (inode_first_extraction_dentry inode).

Definition unix_set_timestamps
    (fd : Z) (path : option nat) (atime mtime : Z) : M wimlib_error_code :=
  set_errno ENOSYS ;;
  let* done1 :=
    (if HAVE_FUTIMENS && (0 <=? fd) then
       let* a := syscall (Futimens fd atime mtime) in ret (a_ret a =? 0)
     else ret false) in
  if done1 then ret WIMLIB_ERR_SUCCESS else
  let* done2 :=
    (if HAVE_UTIMENSAT && (fd <? 0) then
       let* p := path_at path in
       let* a := syscall (Utimensat p atime mtime) in ret (a_ret a =? 0)
     else ret false) in
  if done2 then ret WIMLIB_ERR_SUCCESS else
  let* e := get_errno in
  if negb (e =? ENOSYS) then ret WIMLIB_ERR_SET_TIMESTAMPS else
  let* done3 :=
    (if 0 <=? fd then
       let* a := syscall (Futimes fd atime mtime) in ret (a_ret a =? 0)
     else ret false) in
  if done3 then ret WIMLIB_ERR_SUCCESS else
  let* done4 :=
    (if fd <? 0 then
       let* p := path_at path in
       let* a := syscall (Lutimes p atime mtime) in ret (a_ret a =? 0)
     else ret false) in
  if done4 then ret WIMLIB_ERR_SUCCESS else
  ret WIMLIB_ERR_SET_TIMESTAMPS.

Definition unix_set_owner_and_group
    (fd : Z) (path : option nat) (uid gid : Z) : M wimlib_error_code :=
  let* done1 :=
    (if 0 <=? fd then
       let* a := syscall (Fchown fd uid gid) in ret (a_ret a =? 0)
     else ret false) in
  if done1 then ret WIMLIB_ERR_SUCCESS else
  let* done2 :=
    (if fd <? 0 then
       let* p := path_at path in
       let* a := syscall (Lchown p uid gid) in ret (a_ret a =? 0)
     else ret false) in
  if done2 then ret WIMLIB_ERR_SUCCESS else
  ret WIMLIB_ERR_SET_SECURITY.

Definition unix_set_mode
    (fd : Z) (path : option nat) (mode : Z) : M wimlib_error_code :=
  let* done1 :=
    (if 0 <=? fd then
       let* a := syscall (Fchmod fd mode) in ret (a_ret a =? 0)
     else ret false) in
  if done1 then ret WIMLIB_ERR_SUCCESS else
  let* done2 :=
    (if fd <? 0 then
       let* p := path_at path in
       let* a := syscall (Chmod p mode) in ret (a_ret a =? 0)
     else ret false) in
  if done2 then ret WIMLIB_ERR_SUCCESS else
  ret WIMLIB_ERR_SET_SECURITY.

(** [if (!path) path = unix_build_inode_extraction_path(inode, ctx);] *)
Definition path_or_build (inode : wim_inode) (path : option nat)
  : M (option nat) :=
  match path with
  | Some _ => ret path
  | None => let* p := unix_build_inode_extraction_path inode in ret (Some p)
  end.

(** A failure of one step of [unix_set_metadata]: an error that ends the
    function when the strict flag is set, a warning otherwise.  The result
    is the status to return at once, if any, and the path. *)
Definition metadata_failure
    (strict : bool) (text : string) (ret_ : wimlib_error_code)
    (inode : wim_inode) (path : option nat)
  : M (option wimlib_error_code * option nat) :=
  if is_error ret_ then
    let* path := path_or_build inode path in
    if strict then error text path ;; ret (Some ret_, path)
    else warning text path ;; ret (None, path)
  else ret (None, path).

Definition unix_set_metadata
    (fd : Z) (inode : wim_inode) (path : option nat) : M wimlib_error_code :=
  let* path :=
    (if (fd <? 0) && bool_decide (path = None)
     then let* p := unix_build_inode_extraction_path inode in ret (Some p)
     else ret path) in
  let* c := get_ctx in
  let flags := extract_flags (common c) in
  let* '(stop, path) :=
    (match (if WIMLIB_EXTRACT_FLAG_UNIX_DATA flags
            then inode_get_unix_data inode else None) with
     | Some unix_data =>
         let uid := u32 (uid unix_data) in
         let gid := u32 (gid unix_data) in
         let mode := u32 (mode unix_data) in
         let* r := unix_set_owner_and_group fd path uid gid in
         let* '(stop, path) :=
           metadata_failure (WIMLIB_EXTRACT_FLAG_STRICT_ACLS flags)
                            "Can't set uid and gid" r inode path in
         match stop with
         | Some _ => ret (stop, path)
         | None =>
             let* r :=
               (if negb (inode_is_symlink inode)
                then unix_set_mode fd path mode
                else ret WIMLIB_ERR_SUCCESS) in
             metadata_failure (WIMLIB_EXTRACT_FLAG_STRICT_ACLS flags)
                              "Can't set mode" r inode path
         end
     | None => ret (None, path)
     end) in
  match stop with
  | Some r => ret r
  | None =>
      let* r := unix_set_timestamps fd path
                  (i_last_access_time inode) (i_last_write_time inode) in
      let* '(stop, _) :=
        metadata_failure (WIMLIB_EXTRACT_FLAG_STRICT_TIMESTAMPS flags)
                         "Can't set timestamps" r inode path in
      match stop with
      | Some r => ret r
      | None => ret WIMLIB_ERR_SUCCESS
      end
  end.

(** One pass through the code at [retry_link]. *)
Definition link_pass (first_path newpath : option nat)
  : M (pass wimlib_error_code) :=
  let* fp := path_at first_path in
  let* np := path_at newpath in
  let* a := syscall (Link fp np) in
  if negb (a_ret a =? 0) then
    let* e := get_errno in
    let* again :=
      (if e =? EEXIST then
         let* u := syscall (Unlink np) in ret (a_ret u =? 0)
       else ret false) in
    if (again : bool) then ret Again
    else
      error "Can't create hard link" newpath ;;
      ret (Done WIMLIB_ERR_LINK)
  else ret (Done WIMLIB_ERR_SUCCESS).

Fixpoint create_hardlinks_loop
    (aliases : list wim_dentry) (first_dentry : wim_dentry)
    (first_path : option nat) : M wimlib_error_code :=
  match aliases with
  | [] => ret WIMLIB_ERR_SUCCESS
  | dentry :: rest =>
      if Nat.eqb (d_addr dentry) (d_addr first_dentry)
      then create_hardlinks_loop rest first_dentry first_path
      else
        let* newpath := unix_build_extraction_path dentry in
        let* r := retry (link_pass first_path (Some newpath))
                        WIMLIB_ERR_LINK in
        if is_error r then ret r
        else
          unix_reuse_pathbuf ;;
          create_hardlinks_loop rest first_dentry first_path
  end.

Definition unix_create_hardlinks
    (inode : wim_inode) (first_dentry : wim_dentry) (first_path : option nat)
  : M wimlib_error_code :=
  create_hardlinks_loop (i_extraction_aliases inode) first_dentry first_path.

Definition report_file_created : M wimlib_error_code :=
  let* a := extern Report_file_created in ret (a_status a).
Definition report_file_metadata_applied : M wimlib_error_code :=
  let* a := extern Report_file_metadata_applied in ret (a_status a).
Definition reset_file_progress : M unit :=
  emit Reset_file_progress.

Definition unix_create_if_directory (dentry : wim_dentry)
  : M wimlib_error_code :=
  if negb (dentry_is_directory dentry) then ret WIMLIB_ERR_SUCCESS else
  let* path := unix_build_extraction_path dentry in
  let* p := path_at (Some path) in
  let* a := syscall (Mkdir p MODE_0755) in
  let* failed :=
    (if negb (a_ret a =? 0) then
       let* e := get_errno in
       let* exists_as_dir :=
         (if e =? EEXIST then
            let* st := syscall (Lstat p) in
            ret ((a_ret st =? 0) && S_ISDIR (a_aux st))
          else ret false) in
       ret (negb exists_as_dir)
     else ret false) in
  if (failed : bool) then
    error "Can't create directory" (Some path) ;;
    ret WIMLIB_ERR_MKDIR
  else report_file_created.

(** One pass through the code at [retry_mknod]: [Some r] when the function
    returns [r] from inside it, [None] when [mknod] succeeded. *)
Definition mknod_pass (path : nat) (unix_data : wimlib_unix_data)
  : M (pass (option wimlib_error_code)) :=
  let* p := path_at (Some path) in
  let* a := syscall (Mknod p (mode unix_data) (rdev unix_data)) in
  if negb (a_ret a =? 0) then
    let* e := get_errno in
    if e =? EPERM then
      warning "Can't create special file" (Some path) ;;
      modify_ctx (fun c =>
        set_num_special_files_ignored
          (ulong (num_special_files_ignored c + 1)) c) ;;
      ret (Done (Some WIMLIB_ERR_SUCCESS))
    else
      let* again :=
        (if e =? EEXIST then
           let* u := syscall (Unlink p) in ret (a_ret u =? 0)
         else ret false) in
      if (again : bool) then ret Again
      else
        error "Can't create special file" (Some path) ;;
        ret (Done (Some WIMLIB_ERR_MKNOD))
  else ret (Done None).

(** One pass through the code at [retry_create]: the descriptor, or [None]
    when the function returns [WIMLIB_ERR_OPEN]. *)
Definition create_pass (path : nat) : M (pass (option Z)) :=
  let* p := path_at (Some path) in
  let* a := syscall (Open p) in
  let fd := a_ret a in
  if fd <? 0 then
    let* e := get_errno in
    let* again :=
      (if e =? EEXIST then
         let* u := syscall (Unlink p) in ret (a_ret u =? 0)
       else ret false) in
    if (again : bool) then ret Again
    else
      error "Can't create regular file" (Some path) ;;
      ret (Done None)
  else ret (Done (Some fd)).

Definition unix_extract_if_empty_file (dentry : wim_dentry)
  : M wimlib_error_code :=
  let inode := d_inode dentry in
  if negb (Nat.eqb (d_addr dentry)
                   (d_addr (inode_first_extraction_dentry inode)))
  then ret WIMLIB_ERR_SUCCESS
  else if inode_is_directory inode || inode_is_symlink inode ||
          inode_unnamed_lte_resolved inode
  then ret WIMLIB_ERR_SUCCESS
  else
    let* c := get_ctx in
    let special :=
      if WIMLIB_EXTRACT_FLAG_UNIX_DATA (extract_flags (common c))
      then match inode_get_unix_data inode with
           | Some unix_data =>
               if negb (S_ISREG (mode unix_data)) then Some unix_data
               else None
           | None => None
           end
      else None in
    let* '(early, r, path) :=
      (match special with
       | Some unix_data =>
           let* path := unix_build_extraction_path dentry in
           let* early := retry (mknod_pass path unix_data)
                               (Some WIMLIB_ERR_MKNOD) in
           match early with
           | Some r => ret (true, r, path)
           | None =>
               let* r := unix_set_metadata (-1) inode (Some path) in
               ret (false, r, path)
           end
       | None =>
           let* path := unix_build_extraction_path dentry in
           let* fd := retry (create_pass path) None in
           match fd with
           | None => ret (true, WIMLIB_ERR_OPEN, path)
           | Some fd =>
               let* r := unix_set_metadata fd inode (Some path) in
               let* a := syscall (Close fd) in
               if negb (a_ret a =? 0) && negb (is_error r) then
                 error "Error closing" (Some path) ;;
                 ret (false, WIMLIB_ERR_WRITE, path)
               else ret (false, r, path)
           end
       end) in
    if (early : bool) then ret r
    else if is_error r then ret r
    else
      let* r := unix_create_hardlinks inode dentry (Some path) in
      if is_error r then ret r
      else report_file_created.

(** A [list_for_each_entry] loop that stops at the first error. *)
Fixpoint for_each_entry
    (f : wim_dentry -> M wimlib_error_code) (l : list wim_dentry)
  : M wimlib_error_code :=
  match l with
  | [] => ret WIMLIB_ERR_SUCCESS
  | dentry :: rest =>
      let* r := f dentry in
      if is_error r then ret r else for_each_entry f rest
  end.

Definition unix_create_dirs_and_empty_files (dentry_list : list wim_dentry)
  : M wimlib_error_code :=
  let* r := for_each_entry unix_create_if_directory dentry_list in
  if is_error r then ret r
  else for_each_entry unix_extract_if_empty_file dentry_list.

(** One pass through the code at [retry_symlink]. *)
Definition symlink_pass (link_target : string) (path : nat)
  : M (pass wimlib_error_code) :=
  let* p := path_at (Some path) in
  let* a := syscall (Symlink link_target p) in
  if negb (a_ret a =? 0) then
    let* e := get_errno in
    let* again :=
      (if e =? EEXIST then
         let* u := syscall (Unlink p) in ret (a_ret u =? 0)
       else ret false) in
    if (again : bool) then ret Again
    else ret (Done WIMLIB_ERR_LINK)
  else ret (Done WIMLIB_ERR_SUCCESS).

Definition starts_with_slash (s : string) : bool :=
  match s with
  | String c _ => bool_decide (c = Ascii.ascii_of_nat 47)
  | EmptyString => false
  end.

(** [wim_inode_readlink] (reparse.c) answers the length of the link target,
    or a negated [errno], and the target. *)
Definition unix_create_symlink
    (inode : wim_inode) (path : nat) (rpdata : list Z) (rpdatalen : Z)
    (rpfix : bool) (apply_dir : option string) (apply_dir_nchars : Z)
  : M wimlib_error_code :=
  let* a := extern (Wim_inode_readlink (i_addr inode) rpdata rpdatalen) in
  let r := a_ret a in
  if r <? 0 then
    set_errno (- r) ;; ret WIMLIB_ERR_READLINK
  else
    let link_target := substring 0 (Z.to_nat r) (a_text a) in
    let* fixed :=
      (if rpfix && starts_with_slash link_target then
         if REPARSE_DATA_MAX_SIZE - (r + 1) <? apply_dir_nchars then
           set_errno ENAMETOOLONG ;; ret None
         else
           ret (Some (String.append
                        (substring 0 (Z.to_nat apply_dir_nchars)
                                   (default EmptyString apply_dir))
                        link_target))
       else ret (Some link_target)) in
    match fixed with
    | None => ret WIMLIB_ERR_REPARSE_POINT_FIXUP_FAILED
    | Some link_target =>
        retry (symlink_pass link_target path) WIMLIB_ERR_LINK
    end.

(** [filedes_close] (file_io.h) closes the descriptor of the [struct
    filedes] and returns what [close] returned. *)
Definition filedes_close (i : nat) : M Z :=
  let* c := get_ctx in
  let* a := syscall (Filedes_close (default (-1) (open_fds c !! i))) in
  ret (a_ret a).

Fixpoint close_each (indices : list nat) : M unit :=
  match indices with
  | [] => ret tt
  | i :: rest => filedes_close i ;; close_each rest
  end.

Definition unix_cleanup_open_fds (offset : Z) : M unit :=
  let* c := get_ctx in
  close_each (seq (Z.to_nat offset) (Z.to_nat (num_open_fds c - offset))) ;;
  modify_ctx (set_num_open_fds 0).

(** [wimlib_assert(e)] is [assert(e)] when the build enables assertions and
    nothing otherwise; a failed assertion ends the process.  [open_fds] is
    an array of [MAX_OPEN_STREAMS] elements: when assertions are off and
    [num_open_fds] has reached that number, [filedes_init] is handed an
    address past the end of the array, and C says nothing about what the
    program does from there on. *)
Definition unix_begin_extract_stream_instance
    (stream : wim_lookup_table_entry) (inode : wim_inode)
  : M begin_outcome :=
  if inode_is_symlink inode then
    if REPARSE_DATA_MAX_SIZE <? size stream then
      error "Reparse data exceeds the maximum size" None ;;
      ret (Begin_returns WIMLIB_ERR_INVALID_REPARSE_DATA)
    else
      modify_ctx (set_reparse_ptr (Some 0)) ;;
      ret (Begin_returns WIMLIB_ERR_SUCCESS)
  else
    let* c := get_ctx in
    if ENABLE_ASSERTIONS && negb (num_open_fds c <? MAX_OPEN_STREAMS)
    then ret Begin_aborts
    else
      let first_dentry := inode_first_extraction_dentry inode in
      let* first_path := unix_build_extraction_path first_dentry in
      let* fd := retry (create_pass first_path) None in
      match fd with
      | None => ret (Begin_returns WIMLIB_ERR_OPEN)
      | Some fd =>
          (* filedes_init(&ctx->open_fds[ctx->num_open_fds++], fd) *)
          let* c := get_ctx in
          if negb (num_open_fds c <? MAX_OPEN_STREAMS)
          then ret Begin_out_of_bounds
          else
            modify_ctx (fun c =>
              set_num_open_fds (uint (num_open_fds c + 1))
                (set_open_fds
                   (<[Z.to_nat (num_open_fds c) := fd]> (open_fds c)) c)) ;;
            let* r := unix_create_hardlinks inode first_dentry
                        (Some first_path) in
            ret (Begin_returns r)
      end.

Fixpoint begin_extract_loop
    (stream : wim_lookup_table_entry) (owners : list wim_inode)
  : M begin_outcome :=
  match owners with
  | [] => ret (Begin_returns WIMLIB_ERR_SUCCESS)
  | inode :: rest =>
      let* r := unix_begin_extract_stream_instance stream inode in
      match r with
      | Begin_aborts => ret Begin_aborts
      | Begin_out_of_bounds => ret Begin_out_of_bounds
      | Begin_returns r =>
          if is_error r then
            modify_ctx (set_reparse_ptr None) ;;
            unix_cleanup_open_fds 0 ;;
            ret (Begin_returns r)
          else begin_extract_loop stream rest
      end
  end.

Definition unix_begin_extract_stream (stream : wim_lookup_table_entry)
  : M begin_outcome :=
  begin_extract_loop stream (stream_owners stream).

(** [full_write] (file_io.c) writes the whole chunk or reports a status. *)
Fixpoint write_to_each (indices : list nat) (chunk : list Z)
  : M wimlib_error_code :=
  match indices with
  | [] => ret WIMLIB_ERR_SUCCESS
  | i :: rest =>
      let* c := get_ctx in
      let* a := extern (Full_write (default (-1) (open_fds c !! i)) chunk) in
      if is_error (a_status a) then
        error "Error writing data to filesystem" None ;;
        ret (a_status a)
      else write_to_each rest chunk
  end.

Definition unix_extract_chunk (chunk : list Z) (size : Z)
  : M wimlib_error_code :=
  let* c := get_ctx in
  let* r := write_to_each (seq 0 (Z.to_nat (num_open_fds c)))
                          (take (Z.to_nat size) chunk) in
  if is_error r then ret r
  else
    (match reparse_ptr c with
     | Some off =>
         (* ctx->reparse_ptr = mempcpy(ctx->reparse_ptr, chunk, size) *)
         modify_ctx (set_reparse_data
           (take (Z.to_nat off) (reparse_data c) ++
            take (Z.to_nat size) chunk ++
            drop (Z.to_nat (off + size)) (reparse_data c))) ;;
         modify_ctx (set_reparse_ptr (Some (off + size)))
     | None => ret tt
     end) ;;
    ret WIMLIB_ERR_SUCCESS.

(** The [for] loop of [unix_end_extract_stream] over the owners of the
    stream; the result is the final [j] and [ret].  [j] counts regular
    files among at most [out_refcnt] owners, a 32-bit number, and so does
    not wrap. *)
Fixpoint end_extract_loop
    (stream : wim_lookup_table_entry) (owners : list wim_inode) (j : Z)
  : M (Z * wimlib_error_code) :=
  match owners with
  | [] => ret (j, WIMLIB_ERR_SUCCESS)
  | inode :: rest =>
      if inode_is_symlink inode then
        let* c := get_ctx in
        let rpfix :=
          WIMLIB_EXTRACT_FLAG_RPFIX (extract_flags (common c)) &&
          negb (i_not_rpfixed inode) in
        let* path := unix_build_inode_extraction_path inode in
        let* r := unix_create_symlink inode path (reparse_data c)
                    (u16 (size stream)) rpfix
                    (target_abspath c) (target_abspath_nchars c) in
        if is_error r then
          error "Can't create symbolic link" (Some path) ;;
          ret (j, r)
        else
          let* r := unix_set_metadata (-1) inode (Some path) in
          if is_error r then ret (j, r)
          else end_extract_loop stream rest j
      else
        let* c := get_ctx in
        let fd := default (-1) (open_fds c !! Z.to_nat j) in
        let* r := unix_set_metadata fd inode None in
        if is_error r then ret (j, r)
        else
          let* closed := filedes_close (Z.to_nat j) in
          if negb (closed =? 0) then
            let* p := unix_build_inode_extraction_path inode in
            error "Error closing" (Some p) ;;
            ret (j, WIMLIB_ERR_WRITE)
          else end_extract_loop stream rest (j + 1)
  end.

Definition unix_end_extract_stream
    (stream : wim_lookup_table_entry) (status : wimlib_error_code)
  : M wimlib_error_code :=
  modify_ctx (set_reparse_ptr None) ;;
  if is_error status then
    unix_cleanup_open_fds 0 ;;
    ret status
  else
    let* '(j, r) := end_extract_loop stream (stream_owners stream) 0 in
    unix_cleanup_open_fds j ;;
    ret r.

Fixpoint set_dir_metadata_loop (l : list wim_dentry) : M wimlib_error_code :=
  match l with
  | [] => ret WIMLIB_ERR_SUCCESS
  | dentry :: rest =>
      if dentry_is_directory dentry then
        let* r := unix_set_metadata (-1) (d_inode dentry) None in
        if is_error r then ret r
        else
          let* r := report_file_metadata_applied in
          if is_error r then ret r
          else set_dir_metadata_loop rest
      else set_dir_metadata_loop rest
  end.

Definition unix_set_dir_metadata (dentry_list : list wim_dentry)
  : M wimlib_error_code :=
  set_dir_metadata_loop (rev dentry_list).

(** The allocation of the path buffers at the start of [unix_extract]; an
    answer whose status is not [WIMLIB_ERR_SUCCESS] is a null pointer. *)
Fixpoint alloc_pathbufs (path_max : Z) (indices : list nat)
  : M wimlib_error_code :=
  match indices with
  | [] => ret WIMLIB_ERR_SUCCESS
  | i :: rest =>
      let* a := extern (Malloc path_max) in
      if is_error (a_status a) then ret WIMLIB_ERR_NOMEM
      else
        let* c := get_ctx in
        modify_ctx (set_pathbufs
          (<[i := substring 0 (Z.to_nat (target_nchars (common c)))
                            (target (common c))]> (pathbufs c))) ;;
        alloc_pathbufs path_max rest
  end.

(** The part of [unix_extract] before the label [out]. *)
Definition unix_extract_body (dentry_list : list wim_dentry)
  : M wimlib_error_code :=
  let* c := get_ctx in
  let path_max := unix_compute_path_max dentry_list c in
  let* r := alloc_pathbufs path_max (seq 0 (Z.to_nat NUM_PATHBUFS)) in
  if is_error r then ret r else
  reset_file_progress ;;
  let* r := unix_create_dirs_and_empty_files dentry_list in
  if is_error r then ret r else
  let* r :=
    (if WIMLIB_EXTRACT_FLAG_RPFIX (extract_flags (common c)) &&
        required_symlink_reparse_points (common c)
     then
       let* a := extern (Realpath (target (common c))) in
       if is_error (a_status a) then
         modify_ctx (set_target_abspath None) ;;
         ret WIMLIB_ERR_NOMEM
       else
         modify_ctx (set_target_abspath (Some (a_text a))) ;;
         modify_ctx (set_target_abspath_nchars
                       (Z.of_nat (String.length (a_text a)))) ;;
         ret WIMLIB_ERR_SUCCESS
     else ret WIMLIB_ERR_SUCCESS) in
  if is_error r then ret r else
  let* r := extract_stream_list in
  if is_error r then ret r else
  reset_file_progress ;;
  let* r := unix_set_dir_metadata dentry_list in
  if is_error r then ret r else
  let* c := get_ctx in
  (if negb (num_special_files_ignored c =? 0) then
     emit (Warning "special files were not extracted due to EPERM!"
                   EmptyString)
   else ret tt) ;;
  ret WIMLIB_ERR_SUCCESS.

Definition unix_extract (dentry_list : list wim_dentry)
  : M wimlib_error_code :=
  let* r := unix_extract_body dentry_list in
  emit Free ;; emit Free ;; emit Free ;;
  ret r.

End Apply.

End UnixApply.

(* ===================================================================== *)
(** ** Notions used to state the properties of compress.c                 *)
(* ===================================================================== *)

Module CompressSpec.
Import Types Wimlib Compress.

(** The default stored for a codec type, and the level a codec is to be
    given when the caller passes 0: the stored default, or 50 when none is
    stored (the array holds 0). *)
Definition stored_default (s : state) (ctype : Z) : Z :=
  default 0 (default_compression_levels s !! Z.to_nat ctype).

Definition effective_level (s : state) (ctype : Z) : Z :=
  if stored_default s ctype =? 0 then 50 else stored_default s ctype.

(** What the verification of one block finds when it runs: the
    decompressor fails, or the bytes it produced differ from the input. *)
Definition round_trip_fails
    (create_decompressor : Z -> Z -> wimlib_error_code * Z)
    (decompress : list Z -> Z -> Z -> Z -> Z * list Z)
    (data : list Z) (size avail : Z) (c : wimlib_compressor) : Prop :=
  let '(csize, cdata) := compress (ops c) data size avail (private c) in
  let d := (create_decompressor (ctype c) (max_block_size c)).2 in
  let '(res, buf) := decompress cdata csize size d in
  res <> 0 \/ memcmp data buf (Z.to_nat size) <> 0.

End CompressSpec.

(* ===================================================================== *)
(** ** Notions used to state the properties of unix_apply.c               *)
(* ===================================================================== *)

Module UnixApplySpec.
Import Types Wimlib UnixApply.

(** The two values an index into [pathbufs] may take. *)
Definition valid_pathbuf_index (w : Z) : Prop := w = 0 \/ w = 1.

(** The two functions that assign [which_pathbuf]. *)
Inductive pathbuf_op : Set :=
| Build_extraction_path (dentry : wim_dentry)
| Reuse_pathbuf.

Definition run_pathbuf_op (op : pathbuf_op) : M unit :=
  match op with
  | Build_extraction_path dentry =>
      bind (unix_build_extraction_path dentry) (fun _ => ret tt)
  | Reuse_pathbuf => unix_reuse_pathbuf
  end.

Fixpoint run_pathbuf_ops (ops : list pathbuf_op) : M unit :=
  match ops with
  | [] => ret tt
  | op :: rest => bind (run_pathbuf_op op) (fun _ => run_pathbuf_ops rest)
  end.

(** [extends s s']: from [s] to [s'] the open files are untouched, a valid
    path buffer index stays valid, and the trace has only grown. *)
Definition extends (s s' : state) : Prop :=
  open_fds (ctx s') = open_fds (ctx s) /\
  num_open_fds (ctx s') = num_open_fds (ctx s) /\
  (valid_pathbuf_index (which_pathbuf (ctx s)) ->
   valid_pathbuf_index (which_pathbuf (ctx s'))) /\
  exists t, trace s' = trace s ++ t.

(** A computation that only ever extends the state. *)
Definition extending {A} (m : M A) : Prop :=
  forall s, extends s (m s).2.

(** The answers that send the loop at [retry_mknod] round once more:
    [mknod] fails with [EEXIST] and the [unlink] that follows succeeds. *)
Definition mknod_retry (r : answer * answer) : Prop :=
  a_ret r.1 < 0 /\ a_errno r.1 = EEXIST /\ a_ret r.2 = 0.

(** The answers of a number of such rounds, in the order of the calls. *)
Definition retry_answers (retries : list (answer * answer)) : list answer :=
  flat_map (fun r => [r.1; r.2]) retries.

(** The state [unix_extract_if_empty_file] leaves behind when it gives up a
    special file: the path has been built, the loop at [retry_mknod] has
    gone round [retries] times, each time with a [mknod] and an [unlink],
    [mknod] has then been called once more and has set [errno] to [EPERM],
    the warning has been printed and the counter has gone up by one;
    [rest] are the answers not yet used. *)
Definition after_ignored_mknod
    (dentry : wim_dentry) (unix_data : wimlib_unix_data)
    (s : state) (retries : nat) (rest : list answer) : state :=
  let '(path, s0) := unix_build_extraction_path dentry s in
  let p := default EmptyString (pathbufs (ctx s0) !! path) in
  let mknod := Mknod p (mode unix_data) (rdev unix_data) in
  {| ctx := set_num_special_files_ignored
              (ulong (num_special_files_ignored (ctx s) + 1)) (ctx s0);
     errno := EPERM;
     oracle := rest;
     trace := trace s ++ concat (replicate retries [mknod; Unlink p]) ++
              [ mknod; Warning "Can't create special file" p ] |}.

(** The descriptor in slot [i] of [open_fds]. *)
Definition open_fd (c : unix_apply_ctx) (i : nat) : Z :=
  default (-1) (open_fds c !! i).

(** What a [goto retry] loop computes when it is run without a bound on the
    number of passes. *)
Inductive loop_result {A} (body : M (pass A)) : state -> A -> state -> Prop :=
| loop_done s a s' :
    body s = (Done a, s') -> loop_result body s a s'
| loop_again s s1 a s' :
    body s = (Again, s1) -> loop_result body s1 a s' ->
    loop_result body s a s'.

(** A pass that asks for another one has used up an answer. *)
Definition consumes {A} (body : M (pass A)) : Prop :=
  forall s s', body s = (Again, s') ->
    (length (oracle s') < length (oracle s))%nat.

(** [closes s s' lo hi]: from [s] to [s'] the array of open files is
    untouched and [filedes_close] has been called on every slot from [lo] up
    to, not including, [hi]. *)
Definition closes (s s' : state) (lo hi : Z) : Prop :=
  open_fds (ctx s') = open_fds (ctx s) /\
  exists t, trace s' = trace s ++ t /\
    forall i : nat, lo <= Z.of_nat i < hi ->
      In (Filedes_close (open_fd (ctx s) i)) t.

End UnixApplySpec.

(* ===================================================================== *)
(** ** Concrete inputs used by the examples                               *)
(* ===================================================================== *)

Module Examples.
Import Types Wimlib Compress UnixApply.

(** A codec table entry used in the examples: no optional member, and a
    compressor that always produces the single byte 0. *)
Definition example_ops : compressor_ops :=
  {| get_needed_memory := None;
     create_compressor := None;
     compress := fun _ _ _ _ => (1, [0]);
     free_compressor := None |}.

(** A codec whose [create_compressor] fails with [WIMLIB_ERR_NOMEM] below
    level 10 and otherwise stores the level as its private data. *)
Definition example_create (mbs level : Z) : wimlib_error_code * Z :=
  if level <? 10 then (WIMLIB_ERR_NOMEM, 0) else (WIMLIB_ERR_SUCCESS, level).

Definition example_ops_create : compressor_ops :=
  {| get_needed_memory := Some (fun mbs level => mbs * level);
     create_compressor := Some example_create;
     compress := fun _ _ _ _ => (1, [0]);
     free_compressor := None |}.

Definition example_state : Compress.state :=
  {| default_compression_levels := [0; 0; 5; 0];
     heap := ∅; vars := {[ 7%nat := None ]} |}.

Definition example_compressor : wimlib_compressor :=
  {| ops := example_ops; private := 0; ctype := 2; max_block_size := 32768 |}.

(** A decompressor that can be created and always fails. *)
Definition example_create_decompressor (ctype max_block_size : Z)
  : wimlib_error_code * Z := (WIMLIB_ERR_SUCCESS, 1).
Definition example_failing_decompress
    (cdata : list Z) (csize usize d : Z) : Z * list Z := (-1, []).

(** A character device [/dev/null]-like node directly under the root of the
    image, extracted in UNIX-data mode with both strict flags set, and a
    kernel that refuses [mknod] with [EPERM]. *)
Definition example_root : wim_dentry :=
  {| d_addr := 1; d_extraction_name := ""; d_parent := None;
     d_will_extract := true |}.

Definition example_dentry : wim_dentry :=
  {| d_addr := 2; d_extraction_name := "null";
     d_parent := Some example_root; d_will_extract := true |}.

Definition example_inode : wim_inode :=
  {| i_addr := 10;
     i_is_directory := false; i_is_symlink := false;
     i_unnamed_lte_resolved := false;
     i_unix_data := Some {| uid := 0; gid := 0; mode := 0x21b6; rdev := 259 |};
     i_not_rpfixed := false;
     i_last_access_time := 0; i_last_write_time := 0;
     i_first_extraction_dentry := example_dentry;
     i_more_extraction_aliases := [] |}.

Definition example_d_inode (d : wim_dentry) : wim_inode := example_inode.

Definition example_strict_ctx : unix_apply_ctx :=
  {| common :=
       {| extract_flags :=
            {| WIMLIB_EXTRACT_FLAG_UNIX_DATA := true;
               WIMLIB_EXTRACT_FLAG_STRICT_ACLS := true;
               WIMLIB_EXTRACT_FLAG_STRICT_TIMESTAMPS := true;
               WIMLIB_EXTRACT_FLAG_RPFIX := false |};
          target := "/mnt"; target_nchars := 4;
          required_symlink_reparse_points := false |};
     pathbufs := ["/mnt"; "/mnt"];
     which_pathbuf := 0;
     open_fds := [3; 4; 5; -1];
     num_open_fds := 3;
     reparse_data := [];
     reparse_ptr := None;
     target_abspath := None;
     target_abspath_nchars := 0;
     num_special_files_ignored := 0 |}.

Definition example_eperm : answer :=
  {| a_ret := -1; a_errno := EPERM; a_status := WIMLIB_ERR_SUCCESS;
     a_aux := 0; a_text := "" |}.

Definition example_eexist : answer :=
  {| a_ret := -1; a_errno := EEXIST; a_status := WIMLIB_ERR_SUCCESS;
     a_aux := 0; a_text := "" |}.

(** A kernel that finds the path taken, lets it be unlinked, and then
    refuses [mknod]. *)
Definition example_retry_state : state :=
  {| ctx := example_strict_ctx; errno := 0;
     oracle := [example_eexist; answer_ok; example_eperm]; trace := [] |}.

Definition example_strict_state : state :=
  {| ctx := example_strict_ctx; errno := 0;
     oracle := [example_eperm]; trace := [] |}.

(** The same context with a kernel that lets every call succeed. *)
Definition example_quiet_state : state :=
  {| ctx := example_strict_ctx; errno := 0; oracle := []; trace := [] |}.

(** A context with no open file, and a kernel whose [open] returns the
    descriptor 7. *)
Definition example_fresh_state : state :=
  {| ctx := set_num_open_fds 0 example_strict_ctx; errno := 0;
     oracle := [ {| a_ret := 7; a_errno := 0;
                    a_status := WIMLIB_ERR_SUCCESS; a_aux := 0;
                    a_text := "" |} ];
     trace := [] |}.

(** A stream owned by one regular file. *)
Definition example_stream : wim_lookup_table_entry :=
  {| size := 100;
     stream_owners :=
       [ {| i_addr := 11;
            i_is_directory := false; i_is_symlink := false;
            i_unnamed_lte_resolved := true;
            i_unix_data := None;
            i_not_rpfixed := false;
            i_last_access_time := 0; i_last_write_time := 0;
            i_first_extraction_dentry := example_dentry;
            i_more_extraction_aliases := [] |} ] |}.

End Examples.

(* ===================================================================== *)
(** ** Notions used to state further properties of endianness.h          *)
(* ===================================================================== *)

Module EndianSpec.
Import Types Endian.

(** How a host keeps an integer of [k] bytes in memory, lowest address
    first, and the integer it loads from [k] bytes of memory: a big-endian
    host puts the most significant byte first. *)
Definition host_bytes (WORDS_BIGENDIAN : bool) (k : nat) (v : Z) : list Z :=
  if WORDS_BIGENDIAN then rev (le_bytes k v) else le_bytes k v.

Definition host_value (WORDS_BIGENDIAN : bool) (l : list Z) : Z :=
  if WORDS_BIGENDIAN then of_le_bytes (rev l) else of_le_bytes l.

End EndianSpec.

(* ===================================================================== *)
(** ** Notions used to state further properties of compress.c            *)
(* ===================================================================== *)

Module CompressMore.
Import Types Wimlib Compress.

Section Calls.
Variables xpress lzx lzms : compressor_ops.

(** A sequence of calls [wimlib_set_default_compression_level(ctype, level)],
    whatever they return. *)
Fixpoint run_set_default_calls (calls : list (Z * Z)) (s : state) : state :=
  match calls with
  | [] => s
  | (ctype, level) :: rest =>
      run_set_default_calls rest
        (wimlib_set_default_compression_level xpress lzx lzms ctype level s).2
  end.

End Calls.

(** The level of the last call of the sequence that names [ctype] or -1,
    [before] when there is none. *)
Definition last_level_set (ctype : Z) (calls : list (Z * Z)) (before : Z) : Z :=
  fold_left (fun acc call =>
               if (call.1 =? -1) || (call.1 =? ctype) then call.2 else acc)
            calls before.

End CompressMore.

(* ===================================================================== *)
(** ** Notions used to state further properties of unix_apply.c          *)
(* ===================================================================== *)

Module UnixApplyMore.
Import Types Wimlib UnixApply.

(** The state of the path buffers [unix_extract] sets up before anything is
    extracted: [target_nchars] is the length of the target and every buffer
    starts with the target. *)
Definition prefilled (c : unix_apply_ctx) : Prop :=
  Z.of_nat (String.length (target (common c))) = target_nchars (common c) /\
  forall j buf, pathbufs c !! j = Some buf ->
    substring 0 (String.length (target (common c))) buf = target (common c).

(** [hoare P E m Q]: run from a state whose context satisfies [P], the
    computation [m] gives a result and a context that satisfy [Q], and all
    the calls and messages it adds to the trace are of the kind [E]. *)
Definition hoare (P : unix_apply_ctx -> Prop) (E : event -> Prop)
    {A} (m : M A) (Q : A -> unix_apply_ctx -> Prop) : Prop :=
  forall s, P (ctx s) ->
    Q (m s).1 (ctx (m s).2) /\
    exists t, trace (m s).2 = trace s ++ t /\ Forall E t.

(** [keeps P E m phi]: [m] keeps the property [P] of the context, gives a
    result that satisfies [phi], and adds only calls and messages of the
    kind [E] to the trace. *)
Definition keeps (P : unix_apply_ctx -> Prop) (E : event -> Prop)
    {A} (m : M A) (phi : A -> Prop) : Prop :=
  hoare P E m (fun r c => P c /\ phi r).

(** The calls that change the owner, the group or the mode of a file. *)
Definition changes_owner (e : event) : Prop :=
  match e with
  | Fchown _ _ _ | Lchown _ _ _ => True
  | _ => False
  end.

Definition changes_mode (e : event) : Prop :=
  match e with
  | Fchmod _ _ | Chmod _ _ => True
  | _ => False
  end.

Definition sets_timestamps (e : event) : Prop :=
  match e with
  | Futimens _ _ _ | Utimensat _ _ _ | Futimes _ _ _ | Lutimes _ _ _ => True
  | _ => False
  end.

Definition is_message (e : event) : Prop :=
  match e with
  | Warning _ _ | Error _ _ => True
  | _ => False
  end.

(** What [unix_set_metadata] may do for an inode under given flags:
    timestamps and messages always; owner and group only in UNIX-data mode
    for an inode that has UNIX data; the mode only if, in addition, the
    inode is not a symbolic link. *)
Definition metadata_event
    (flags : extract_flags_t) (inode : wim_inode) (e : event) : Prop :=
  sets_timestamps e \/ is_message e \/
  (WIMLIB_EXTRACT_FLAG_UNIX_DATA flags = true /\
   inode_get_unix_data inode <> None /\
   (changes_owner e \/
    (inode_is_symlink inode = false /\ changes_mode e))).

(** The calls that neither make a directory or a special file nor set
    metadata: opening, linking, unlinking, writing, closing, reporting. *)
Definition plain_event (e : event) : Prop :=
  match e with
  | Mkdir _ _ | Lstat _ | Mknod _ _ _
  | Fchown _ _ _ | Lchown _ _ _ | Fchmod _ _ | Chmod _ _
  | Futimens _ _ _ | Utimensat _ _ _ | Futimes _ _ _ | Lutimes _ _ _ => False
  | _ => True
  end.

(** Every call but the three that apply UNIX data: [mknod], the [chown]
    family and the [chmod] family. *)
Definition without_unix_data (e : event) : Prop :=
  match e with
  | Mknod _ _ _ | Fchown _ _ _ | Lchown _ _ _ | Fchmod _ _ | Chmod _ _ =>
      False
  | _ => True
  end.

(** The calls and messages of the pass that creates directories. *)
Definition directory_event (e : event) : Prop :=
  match e with
  | Mkdir _ _ | Lstat _ | Error _ _ | Report_file_created => True
  | _ => False
  end.

Definition not_mkdir (e : event) : Prop :=
  match e with
  | Mkdir _ _ => False
  | _ => True
  end.

(** With a descriptor at hand, [unix_set_metadata] names no path: all its
    calls are on the descriptor. *)
Definition on_descriptor (fd : Z) (e : event) : Prop :=
  match e with
  | Fchown fd' _ _ | Fchmod fd' _ | Futimens fd' _ _ | Futimes fd' _ _ =>
      fd' = fd
  | Warning _ _ | Error _ _ => True
  | _ => False
  end.

(** [adds E s s']: the trace of [s'] is that of [s] followed by calls and
    messages of the kind [E]. *)
Definition adds (E : event -> Prop) (s s' : state) : Prop :=
  exists t, trace s' = trace s ++ t /\ Forall E t.

(** From [s] to [s'] the extraction flags are untouched and no UNIX data
    has been applied. *)
Definition applies_no_unix_data (s s' : state) : Prop :=
  extract_flags (common (ctx s')) = extract_flags (common (ctx s)) /\
  adds without_unix_data s s'.




(** The answer the next external call will get. *)
Definition first_answer (s : state) : answer := (next_answer s).1.

(** The calls of the loop at [retry_symlink]: [symlink] with the link
    target and the path, and [unlink] of the path. *)
Definition symlink_event (link_target path : string) (e : event) : Prop :=
  match e with
  | Symlink t p => t = link_target /\ p = path
  | Unlink p => p = path
  | _ => False
  end.

(** The context carries the extraction flags [flags]. *)
Definition has_flags (flags : extract_flags_t) (c : unix_apply_ctx) : Prop :=
  extract_flags (common c) = flags.

(** The calls that name a file by its path rather than by a descriptor. *)
Definition names_a_path (e : event) : Prop :=
  match e with
  | Mknod _ _ _ | Open _ | Link _ _ | Unlink _ | Symlink _ _ | Mkdir _ _
  | Lstat _ | Lchown _ _ _ | Chmod _ _ | Utimensat _ _ _ | Lutimes _ _ _
  | Realpath _ => True
  | _ => False
  end.

(** The state of the path buffers around the hard link loop: the buffer
    [i] holds the first path, and [which_pathbuf] is [w]. *)
Definition first_path_kept (i : nat) (first : string) (w : Z)
    (c : unix_apply_ctx) : Prop :=
  which_pathbuf c = w /\ pathbufs c !! i = Some first /\
  length (pathbufs c) = 2%nat.

(** The calls and messages of the hard link loop. *)
Definition link_event (first_path : string) (e : event) : Prop :=
  match e with
  | Link oldpath _ => oldpath = first_path
  | Unlink _ | Error _ _ => True
  | _ => False
  end.

End UnixApplyMore.

(* ===================================================================== *)
(** ** Further concrete inputs                                            *)
(* ===================================================================== *)

Module MoreExamples.
Import Types Wimlib Compress UnixApply Examples.

(** The codec that stores the level as its private data, with a
    [free_compressor]. *)
Definition example_ops_free : compressor_ops :=
  {| get_needed_memory := None;
     create_compressor := Some example_create;
     compress := fun _ _ _ _ => (1, [0]);
     free_compressor := Some (fun _ => tt) |}.

(** A decompressor that gives back the three bytes 1, 2, 3. *)
Definition example_good_decompress
    (cdata : list Z) (csize usize d : Z) : Z * list Z := (0, [1; 2; 3]).

(** A second name of the file of the examples. *)
Definition example_alias : wim_dentry :=
  {| d_addr := 3; d_extraction_name := "zero";
     d_parent := Some example_root; d_will_extract := true |}.

Definition example_linked_inode : wim_inode :=
  {| i_addr := 12;
     i_is_directory := false; i_is_symlink := false;
     i_unnamed_lte_resolved := true;
     i_unix_data := None;
     i_not_rpfixed := false;
     i_last_access_time := 0; i_last_write_time := 0;
     i_first_extraction_dentry := example_dentry;
     i_more_extraction_aliases := [example_alias] |}.

(** The state right after the path of [example_dentry] has been built in
    the first path buffer. *)
Definition example_link_state : state :=
  {| ctx := set_which_pathbuf 1
              (set_pathbufs ["/mnt/null"; "/mnt"] example_strict_ctx);
     errno := 0; oracle := []; trace := [] |}.

(** An extraction without UNIX data, with no file open, and with a reparse
    buffer of eight bytes that the reparse pointer points to the start
    of. *)
Definition example_plain_ctx : unix_apply_ctx :=
  {| common :=
       {| extract_flags :=
            {| WIMLIB_EXTRACT_FLAG_UNIX_DATA := false;
               WIMLIB_EXTRACT_FLAG_STRICT_ACLS := false;
               WIMLIB_EXTRACT_FLAG_STRICT_TIMESTAMPS := false;
               WIMLIB_EXTRACT_FLAG_RPFIX := false |};
          target := "/mnt"; target_nchars := 4;
          required_symlink_reparse_points := false |};
     pathbufs := ["/mnt"; "/mnt"];
     which_pathbuf := 0;
     open_fds := [-1; -1];
     num_open_fds := 0;
     reparse_data := [0; 0; 0; 0; 0; 0; 0; 0];
     reparse_ptr := Some 0;
     target_abspath := None;
     target_abspath_nchars := 0;
     num_special_files_ignored := 0 |}.

Definition example_plain_state : state :=
  {| ctx := example_plain_ctx; errno := 0; oracle := []; trace := [] |}.

(** A stream pass that extracts the one stream of the examples in a single
    chunk. *)
Definition example_extract_stream_list : M wimlib_error_code :=
  let* o := unix_begin_extract_stream 16384 false 2 example_stream in
  match o with
  | Begin_returns r =>
      if is_error r then ret r
      else
        let* r := unix_extract_chunk [1; 2; 3] 3 in
        unix_end_extract_stream true true 16384 example_stream r
  | Begin_aborts | Begin_out_of_bounds => ret WIMLIB_ERR_SUCCESS
  end.

End MoreExamples.

(* ===================================================================== *)
(** * Proofs                                                              *)
(* ===================================================================== *)

Section EndianFacts.
Import Types Endian.

Lemma testbit_above (w n i : Z) :
  0 <= w -> in_range w n -> w <= i -> Z.testbit n i = false.
Proof.
  intros Hw Hn Hi.
  apply (proj1 (Z.bounded_iff_bits_nonneg' w n Hw (proj1 Hn)) Hn i Hi).
Qed.

Lemma testbit_byte_mask (s i : Z) :
  0 <= s -> 0 <= i ->
  Z.testbit (Z.shiftl (Z.ones 8) s) i = (s <=? i) && (i <? s + 8).
Proof.
  intros Hs Hi. rewrite Z.shiftl_spec by lia.
  destruct (Z.leb_spec s i).
  - rewrite Z.testbit_ones_nonneg by lia. simpl.
    destruct (Z.ltb_spec (i - s) 8), (Z.ltb_spec i (s + 8)); auto; lia.
  - rewrite Z.testbit_neg_r by lia. reflexivity.
Qed.


Ltac decide_cmp :=
  repeat match goal with
  | |- context [?a <? ?b] =>
      first [ rewrite (proj2 (Z.ltb_lt a b)) by lia
            | rewrite (proj2 (Z.ltb_ge a b)) by lia ]
  | |- context [?a <=? ?b] =>
      first [ rewrite (proj2 (Z.leb_le a b)) by lia
            | rewrite (proj2 (Z.leb_gt a b)) by lia ]
  end.

Ltac name_masks :=
  change 0xff with (Z.ones 8);
  change 0xff00 with (Z.shiftl (Z.ones 8) 8);
  change 0xff0000 with (Z.shiftl (Z.ones 8) 16);
  change 0xff000000 with (Z.shiftl (Z.ones 8) 24);
  change 0xff00000000 with (Z.shiftl (Z.ones 8) 32);
  change 0xff0000000000 with (Z.shiftl (Z.ones 8) 40);
  change 0xff000000000000 with (Z.shiftl (Z.ones 8) 48).

Ltac push_testbit :=
  repeat match goal with
  | |- context [Z.testbit (Z.lor ?a ?b) ?i] => rewrite (Z.lor_spec a b i)
  | |- context [Z.testbit (Z.land ?a ?b) ?i] => rewrite (Z.land_spec a b i)
  | |- context [Z.testbit (?a mod 2 ^ ?w) ?i] =>
      rewrite (Z.testbit_mod_pow2 a w i) by lia
  | |- context [Z.testbit (Z.shiftr ?a ?s) ?i] =>
      rewrite (Z.shiftr_spec a s i) by lia
  | |- context [Z.testbit (Z.shiftl (Z.ones 8) ?s) ?i] =>
      rewrite (testbit_byte_mask s i) by lia
  | |- context [Z.testbit (Z.shiftl ?a ?s) ?i] =>
      rewrite (Z.shiftl_spec a s i) by lia
  | |- context [Z.testbit (Z.ones ?k) ?i] =>
      rewrite (Z.testbit_ones_nonneg k i) by lia
  | |- context [Z.testbit ?a ?i] => rewrite (Z.testbit_neg_r a i) by lia
  end.

Ltac kill_high w Hn :=
  repeat match goal with
  | |- context [Z.testbit ?n ?k] =>
      rewrite (testbit_above w n k ltac:(lia) Hn ltac:(lia))
  end.

Ltac simpl_bool :=
  rewrite ?andb_false_r, ?andb_true_r, ?orb_false_r, ?orb_false_l,
          ?andb_true_l, ?andb_false_l.

Ltac byte_eq w Hn :=
  apply Z.bits_inj'; intros i Hi;
  assert (i < 8 \/ 8 <= i) as [Hlt | Hge] by lia;
  push_testbit; decide_cmp; kill_high w Hn;
  simpl_bool; try reflexivity; f_equal; lia.

Ltac bytes_eq w Hn :=
  repeat (apply (f_equal2 cons); [ byte_eq w Hn | ]); try reflexivity.

Lemma bswap16_bytes n : in_range 16 n -> le_bytes 2 (bswap16 n) = rev (le_bytes 2 n).
Proof.
  intros Hn. cbn [le_bytes rev app]. unfold bswap16, u16, wrap.
  name_masks. bytes_eq 16 Hn.
Qed.

Lemma bswap32_fallback_bytes n : in_range 32 n -> le_bytes 4 (bswap32_fallback n) = rev (le_bytes 4 n).
Proof.
  intros Hn. cbn [le_bytes rev app]. unfold bswap32_fallback, u32, wrap.
  rewrite !Z.shiftr_shiftr by lia. cbn [Z.add Pos.add Pos.succ].
  name_masks. bytes_eq 32 Hn.
Qed.

Lemma bswap64_fallback_bytes n : in_range 64 n -> le_bytes 8 (bswap64_fallback n) = rev (le_bytes 8 n).
Proof.
  intros Hn. cbn [le_bytes rev app]. unfold bswap64_fallback, u64, wrap.
  rewrite !Z.shiftr_shiftr by lia. cbn [Z.add Pos.add Pos.succ].
  name_masks. bytes_eq 64 Hn.
Qed.

Lemma le_bytes_length k n : length (le_bytes k n) = k.
Proof. revert n. induction k as [|k IH]; intros n; cbn [le_bytes length]; [reflexivity|]. now rewrite IH. Qed.

Lemma le_bytes_range k n : Forall (in_range 8) (le_bytes k n).
Proof.
  revert n. induction k as [|k IH]; intros n; cbn [le_bytes]; constructor; [|apply IH].
  unfold in_range. change 0xff with (Z.ones 8). rewrite Z.land_ones by lia.
  apply Z.mod_pos_bound. lia.
Qed.

Lemma of_le_bytes_le_bytes k n :
  of_le_bytes (le_bytes k n) = n mod 2 ^ (8 * Z.of_nat k).
Proof.
  revert n. induction k as [|k IH]; intros n.
  - cbn [le_bytes of_le_bytes]. change (8 * Z.of_nat 0) with 0.
    now rewrite Z.pow_0_r, Z.mod_1_r.
  - cbn [le_bytes of_le_bytes]. rewrite IH.
    apply Z.bits_inj'; intros i Hi. name_masks.
    assert (i < 8 \/ 8 <= i) as [Hlt | Hge] by lia.
    + push_testbit. decide_cmp. simpl_bool. reflexivity.
    + push_testbit. decide_cmp. simpl_bool.
      replace (i - 8 + 8) with i by lia.
      destruct (Z.ltb_spec (i - 8) (8 * Z.of_nat k)),
               (Z.ltb_spec i (8 * Z.of_nat (S k))); try reflexivity; lia.
Qed.

Lemma le_bytes_of_le_bytes l :
  Forall (in_range 8) l -> le_bytes (length l) (of_le_bytes l) = l.
Proof.
  induction 1 as [|b l Hb Hl IH]; [reflexivity|].
  cbn [length le_bytes of_le_bytes]. apply (f_equal2 cons).
  - apply Z.bits_inj'; intros i Hi. name_masks.
    assert (i < 8 \/ 8 <= i) as [Hlt | Hge] by lia;
      push_testbit; decide_cmp; kill_high 8 Hb; simpl_bool; reflexivity.
  - replace (Z.shiftr (Z.lor b (Z.shiftl (of_le_bytes l) 8)) 8)
      with (of_le_bytes l); [exact IH|].
    apply Z.bits_inj'; intros i Hi.
    push_testbit. kill_high 8 Hb. simpl_bool. f_equal. lia.
Qed.

Lemma of_le_bytes_range l :
  Forall (in_range 8) l -> in_range (8 * Z.of_nat (length l)) (of_le_bytes l).
Proof.
  intros Hl. rewrite <- (le_bytes_of_le_bytes l Hl) at 2.
  rewrite of_le_bytes_le_bytes. apply Z.mod_pos_bound.
  apply Z.pow_pos_nonneg; lia.
Qed.

Lemma le_bytes_inj k a b :
  in_range (8 * Z.of_nat k) a -> in_range (8 * Z.of_nat k) b ->
  le_bytes k a = le_bytes k b -> a = b.
Proof.
  intros Ha Hb E. apply (f_equal of_le_bytes) in E.
  rewrite !of_le_bytes_le_bytes in E.
  rewrite !Z.mod_small in E by assumption. exact E.
Qed.

(** Any function that reverses the [k] bytes of the numbers of [8k] bits is
    an involution on them. *)
Lemma byte_reversal_involutive k (f : Z -> Z) :
  (forall n, in_range (8 * Z.of_nat k) n ->
     in_range (8 * Z.of_nat k) (f n) /\ le_bytes k (f n) = rev (le_bytes k n)) ->
  forall n, in_range (8 * Z.of_nat k) n -> f (f n) = n.
Proof.
  intros Hf n Hn. destruct (Hf n Hn) as [Hr Hb].
  destruct (Hf (f n) Hr) as [Hr' Hb'].
  apply (le_bytes_inj k); auto.
  now rewrite Hb', Hb, rev_involutive.
Qed.

Lemma builtin_bswap_bytes k n :
  le_bytes k (of_le_bytes (rev (le_bytes k n))) = rev (le_bytes k n).
Proof.
  rewrite <- (le_bytes_length k n) at 1. rewrite <- length_rev.
  apply le_bytes_of_le_bytes. apply Forall_rev, le_bytes_range.
Qed.

Lemma builtin_bswap_range k n :
  in_range (8 * Z.of_nat k) (of_le_bytes (rev (le_bytes k n))).
Proof.
  rewrite <- (le_bytes_length k n) at 1. rewrite <- length_rev.
  apply of_le_bytes_range. apply Forall_rev, le_bytes_range.
Qed.

Ltac nonneg :=
  repeat first
    [ apply Z.lor_nonneg; split
    | apply Z.mod_pos_bound; lia
    | apply Z.shiftr_nonneg
    | apply Z.land_nonneg; right; lia
    | lia ].

Ltac high_zero w Hn :=
  intros i Hi; name_masks; push_testbit; decide_cmp; kill_high w Hn;
  simpl_bool; reflexivity.

Lemma bswap32_fallback_range n : in_range 32 n -> in_range 32 (bswap32_fallback n).
Proof.
  intros Hn. assert (0 <= bswap32_fallback n) as H0.
  { unfold bswap32_fallback, u32, wrap. destruct Hn. nonneg. }
  apply Z.bounded_iff_bits_nonneg'; [lia | exact H0 |].
  unfold bswap32_fallback, u32, wrap. high_zero 32 Hn.
Qed.

Lemma bswap64_fallback_range n : in_range 64 n -> in_range 64 (bswap64_fallback n).
Proof.
  intros Hn. assert (0 <= bswap64_fallback n) as H0.
  { unfold bswap64_fallback, u64, wrap. destruct Hn. nonneg. }
  apply Z.bounded_iff_bits_nonneg'; [lia | exact H0 |].
  unfold bswap64_fallback, u64, wrap. high_zero 64 Hn.
Qed.

Lemma bswap16_range n : in_range 16 (bswap16 n).
Proof. unfold bswap16, u16, wrap, in_range. apply Z.mod_pos_bound. lia. Qed.


Lemma bswap16_spec n :
  in_range 16 n ->
  in_range 16 (bswap16 n) /\ le_bytes 2 (bswap16 n) = rev (le_bytes 2 n).
Proof. intros Hn. split; [apply bswap16_range | now apply bswap16_bytes]. Qed.

Lemma bswap32_spec gnuc n :
  in_range 32 n ->
  in_range 32 (bswap32 gnuc n) /\
  le_bytes 4 (bswap32 gnuc n) = rev (le_bytes 4 n).
Proof.
  intros Hn. destruct gnuc; cbn [bswap32]; unfold builtin_bswap32.
  - split; [apply (builtin_bswap_range 4) | apply builtin_bswap_bytes].
  - split; [now apply bswap32_fallback_range | now apply bswap32_fallback_bytes].
Qed.

Lemma bswap64_spec gnuc n :
  in_range 64 n ->
  in_range 64 (bswap64 gnuc n) /\
  le_bytes 8 (bswap64 gnuc n) = rev (le_bytes 8 n).
Proof.
  intros Hn. destruct gnuc; cbn [bswap64]; unfold builtin_bswap64.
  - split; [apply (builtin_bswap_range 8) | apply builtin_bswap_bytes].
  - split; [now apply bswap64_fallback_range | now apply bswap64_fallback_bytes].
Qed.

(** C7. On the 16-, 32- and 64-bit unsigned integers, [bswap16], [bswap32]
    and [bswap64] (the builtin as well as the shift-and-mask formulas) return
    a value of the same width whose bytes are those of the argument in
    reverse order; each is therefore an involution; and [cpu_to_leN] and
    [leN_to_cpu] are inverses of each other whether or not
    [WORDS_BIGENDIAN] is defined. *)
Theorem bswap_reverses_bytes (WORDS_BIGENDIAN gnuc_4_3 : bool) (n : Z) :
  (in_range 16 n ->
     in_range 16 (bswap16 n) /\
     le_bytes 2 (bswap16 n) = rev (le_bytes 2 n) /\
     bswap16 (bswap16 n) = n /\
     le16_to_cpu WORDS_BIGENDIAN (cpu_to_le16 WORDS_BIGENDIAN n) = n /\
     cpu_to_le16 WORDS_BIGENDIAN (le16_to_cpu WORDS_BIGENDIAN n) = n) /\
  (in_range 32 n ->
     in_range 32 (bswap32 gnuc_4_3 n) /\
     le_bytes 4 (bswap32 gnuc_4_3 n) = rev (le_bytes 4 n) /\
     bswap32 gnuc_4_3 (bswap32 gnuc_4_3 n) = n /\
     le32_to_cpu WORDS_BIGENDIAN gnuc_4_3
       (cpu_to_le32 WORDS_BIGENDIAN gnuc_4_3 n) = n /\
     cpu_to_le32 WORDS_BIGENDIAN gnuc_4_3
       (le32_to_cpu WORDS_BIGENDIAN gnuc_4_3 n) = n) /\
  (in_range 64 n ->
     in_range 64 (bswap64 gnuc_4_3 n) /\
     le_bytes 8 (bswap64 gnuc_4_3 n) = rev (le_bytes 8 n) /\
     bswap64 gnuc_4_3 (bswap64 gnuc_4_3 n) = n /\
     le64_to_cpu WORDS_BIGENDIAN gnuc_4_3
       (cpu_to_le64 WORDS_BIGENDIAN gnuc_4_3 n) = n /\
     cpu_to_le64 WORDS_BIGENDIAN gnuc_4_3
       (le64_to_cpu WORDS_BIGENDIAN gnuc_4_3 n) = n).
Proof.
  assert (I16 : forall m, in_range 16 m -> bswap16 (bswap16 m) = m)
    by (apply (byte_reversal_involutive 2 bswap16); intros; now apply bswap16_spec).
  assert (I32 : forall m, in_range 32 m ->
                  bswap32 gnuc_4_3 (bswap32 gnuc_4_3 m) = m)
    by (apply (byte_reversal_involutive 4 (bswap32 gnuc_4_3)); intros;
        now apply bswap32_spec).
  assert (I64 : forall m, in_range 64 m ->
                  bswap64 gnuc_4_3 (bswap64 gnuc_4_3 m) = m)
    by (apply (byte_reversal_involutive 8 (bswap64 gnuc_4_3)); intros;
        now apply bswap64_spec).
  split; [|split]; intros Hn.
  - destruct (bswap16_spec n Hn) as [Hr Hb].
    unfold le16_to_cpu, cpu_to_le16.
    destruct WORDS_BIGENDIAN;
      (split; [exact Hr | split; [exact Hb | split; [auto | split; auto]]]).
  - destruct (bswap32_spec gnuc_4_3 n Hn) as [Hr Hb].
    unfold le32_to_cpu, cpu_to_le32.
    destruct WORDS_BIGENDIAN;
      (split; [exact Hr | split; [exact Hb | split; [auto | split; auto]]]).
  - destruct (bswap64_spec gnuc_4_3 n Hn) as [Hr Hb].
    unfold le64_to_cpu, cpu_to_le64.
    destruct WORDS_BIGENDIAN;
      (split; [exact Hr | split; [exact Hb | split; [auto | split; auto]]]).
Qed.

Lemma bswap_reverses_bytes_witness :
  bswap16 (bswap16 0x1234) = 0x1234 /\
  le_bytes 4 (bswap32 false 0x12345678) = [0x12; 0x34; 0x56; 0x78] /\
  cpu_to_le64 true false (le64_to_cpu true false 0x0102030405060708)
    = 0x0102030405060708.
Proof.
  split; [|split].
  - apply (proj1 (bswap_reverses_bytes true false 0x1234)).
    unfold in_range; lia.
  - apply (proj1 (proj2 (bswap_reverses_bytes true false 0x12345678))).
    unfold in_range; lia.
  - apply (proj2 (proj2 (bswap_reverses_bytes true false 0x0102030405060708))).
    unfold in_range; lia.
Defined.

End EndianFacts.

(* --------------------------------------------------------------------- *)
(** ** wim.h and integrity.h                                              *)
(* --------------------------------------------------------------------- *)

Section WimFacts.
Import Wimlib Wim.

(** C10. [wim_has_metadata] holds for every WIMStruct whose header says
    [image_count = 0], whether or not [image_metadata] is [NULL]; when
    [image_count] is not 0 it holds exactly when [image_metadata] is not
    [NULL]. *)
Theorem wim_has_metadata_spec (wim : WIMStruct) :
  (image_count (hdr wim) = 0 -> wim_has_metadata wim = true) /\
  (image_count (hdr wim) <> 0 ->
     (wim_has_metadata wim = true <-> image_metadata wim <> None)).
Proof.
  unfold wim_has_metadata. split.
  - intros ->. apply orb_true_r.
  - intros Hn. apply Z.eqb_neq in Hn. rewrite Hn, orb_false_r.
    apply bool_decide_eq_true.
Qed.

Lemma wim_has_metadata_spec_witness :
  wim_has_metadata
    {| filename := None; image_metadata := None;
       hdr := {| magic := 0; hdr_flags := 0; hdr_chunk_size := 32768;
                 part_number := 1; total_parts := 1; image_count := 0;
                 lookup_table_reshdr := Build_wim_reshdr 0 0 208 0;
                 xml_data_reshdr := Build_wim_reshdr 0 0 208 0;
                 boot_metadata_reshdr := Build_wim_reshdr 0 0 0 0;
                 boot_idx := 0;
                 integrity_table_reshdr := Build_wim_reshdr 0 0 0 0 |};
       current_image := 0; compression_type := 1; chunk_size := 32768 |}
  = true.
Proof. apply (proj1 (wim_has_metadata_spec _)). reflexivity. Defined.

(** C6. [check_wim_integrity] returns one of [WIM_INTEGRITY_OK] (0),
    [WIM_INTEGRITY_NOT_OK] (-1) and [WIM_INTEGRITY_NONEXISTENT] (-2), and it
    returns [WIM_INTEGRITY_NONEXISTENT] exactly when [offset_in_wim] of the
    header's integrity table resource header is 0. *)
Theorem check_wim_integrity_codes
    (sha1 : list Z -> list Z) (wim : WIMStruct)
    (resource_area : list Z) (table : integrity_table) :
  let r := check_wim_integrity sha1 wim resource_area table in
  (r = 0 \/ r = -1 \/ r = -2) /\
  (r = WIM_INTEGRITY_NONEXISTENT <->
   offset_in_wim (integrity_table_reshdr (hdr wim)) = 0).
Proof.
  unfold check_wim_integrity, wim_has_integrity_table,
    WIM_INTEGRITY_NONEXISTENT, WIM_INTEGRITY_OK, WIM_INTEGRITY_NOT_OK.
  cbn zeta. rewrite negb_involutive.
  destruct (Z.eqb_spec (offset_in_wim (integrity_table_reshdr (hdr wim))) 0)
    as [E | E].
  - split; [auto | tauto].
  - case_bool_decide; (split; [auto | split; [discriminate | tauto]]).
Qed.

End WimFacts.

(* --------------------------------------------------------------------- *)
(** ** compress.c                                                         *)
(* --------------------------------------------------------------------- *)

Section CompressFacts.
Import Types Wimlib Compress CompressSpec Examples.

Lemma state_eta (s : state) :
  {| default_compression_levels := default_compression_levels s;
     heap := heap s; vars := vars s |} = s.
Proof. now destruct s. Qed.

Lemma set_heap_same (s : state) : set_heap (heap s) s = s.
Proof. apply state_eta. Qed.

Lemma fresh_not_allocated (s : state) :
  heap s !! fresh (dom (heap s)) = None.
Proof. apply not_elem_of_dom, is_fresh. Qed.

Lemma free_after_alloc (s : state) (obj : wimlib_compressor) :
  let c := fresh (dom (heap s)) in
  set_heap (delete c (heap (set_heap (<[c := obj]> (heap s)) s)))
           (set_heap (<[c := obj]> (heap s)) s) = s.
Proof.
  cbn. unfold set_heap; cbn.
  rewrite delete_insert_eq, delete_id by apply fresh_not_allocated.
  apply state_eta.
Qed.

Section Table.
Variables xpress lzx lzms : compressor_ops.
Variable sizeof_c : Z.

Local Abbreviation valid := (compressor_ctype_valid xpress lzx lzms).
Local Abbreviation table := (compressor_ops_table xpress lzx lzms).

Lemma ctype_valid_iff (ctype : Z) :
  valid ctype = true <-> ctype = 1 \/ ctype = 2 \/ ctype = 3.
Proof.
  unfold compressor_ctype_valid, ARRAY_LEN, compressor_ops_table.
  cbn [length]. split.
  - intros H. apply andb_true_iff in H as [H H3].
    apply andb_true_iff in H as [H1 H2].
    apply Z.leb_le in H1. apply Z.ltb_lt in H2.
    assert (ctype = 0 \/ ctype = 1 \/ ctype = 2 \/ ctype = 3) as [-> | Hc]
      by lia; [|exact Hc].
    cbn in H3. apply bool_decide_eq_true in H3. destruct H3 as [? ?]; discriminate.
  - intros [-> | [-> | ->]]; reflexivity.
Qed.

Lemma ctype_valid_ops (ctype : Z) :
  valid ctype = true ->
  exists o, ops_of xpress lzx lzms ctype = Some o /\
            (0 < Z.to_nat ctype < 4)%nat.
Proof.
  intros H. apply ctype_valid_iff in H as [-> | [-> | ->]];
    eexists; (split; [reflexivity | cbn; lia]).
Qed.

Lemma foldl_insert_lookup (v : Z) (n k : nat) (l : list Z) (i : nat) :
  foldl (fun a j => <[j := v]> a) l (seq k n) !! i =
  if decide ((k <= i < k + n)%nat /\ (i < length l)%nat)
  then Some v else l !! i.
Proof.
  revert k l. induction n as [|n IH]; intros k l; cbn [seq foldl].
  - case_decide; [lia | reflexivity].
  - rewrite IH, length_insert, list_lookup_insert.
    repeat case_decide; try reflexivity; lia.
Qed.

Lemma set_all_levels (v : Z) (l : list Z) :
  foldl (fun a j => <[j := v]> a) l (seq 0 (length l)) =
  replicate (length l) v.
Proof.
  apply list_eq. intros i. rewrite foldl_insert_lookup.
  case_decide as H.
  - now rewrite lookup_replicate_2 by lia.
  - rewrite !(proj2 (lookup_ge_None _ _)); [reflexivity | | lia].
    rewrite length_replicate. lia.
Qed.


Lemma level_or_default_zero (ctype : Z) (s : state) :
  level_or_default ctype 0 s = effective_level s ctype.
Proof. reflexivity. Qed.

(** C8. With [compression_level = 0], [wimlib_get_compressor_needed_memory]
    and [wimlib_create_compressor] hand the codec the default stored for
    the codec type by [wimlib_set_default_compression_level], or 50 when
    none is stored, as in the initial state.
    [wimlib_set_default_compression_level] with [ctype = -1] stores the
    level for every codec type and returns 0; with a valid [ctype] it stores
    it for that type only; with any other [ctype] it returns
    [WIMLIB_ERR_INVALID_COMPRESSION_TYPE] and changes nothing. *)
Theorem default_compression_level_used (s : state) :
  length (default_compression_levels s) = length table ->
  (forall ctype, valid ctype = true ->
     exists o, ops_of xpress lzx lzms ctype = Some o /\
       (forall mbs f,
          get_needed_memory o = Some f ->
          wimlib_get_compressor_needed_memory xpress lzx lzms sizeof_c
            ctype mbs 0 s
          = u64 (sizeof_c + f mbs (effective_level s ctype))) /\
       (forall mbs f c_ret,
          create_compressor o = Some f -> mbs <> 0 ->
          let result := f mbs (effective_level s ctype) in
          let c := fresh (dom (heap s)) in
          wimlib_create_compressor xpress lzx lzms true ctype mbs 0
            (Some c_ret) s =
          if is_error result.1 then (result.1, s)
          else
            (WIMLIB_ERR_SUCCESS,
             {| default_compression_levels := default_compression_levels s;
                heap := <[c := {| ops := o; private := result.2;
                                  ctype := ctype; max_block_size := mbs |}]>
                          (heap s);
                vars := <[c_ret := Some c]> (vars s) |}))) /\
  (forall ctype, valid ctype = true ->
     effective_level (initial_state xpress lzx lzms) ctype
     = DEFAULT_COMPRESSION_LEVEL) /\
  (forall level,
     exists s',
       wimlib_set_default_compression_level xpress lzx lzms (-1) level s
       = (WIMLIB_ERR_SUCCESS, s') /\
       heap s' = heap s /\ vars s' = vars s /\
       forall ctype, valid ctype = true -> stored_default s' ctype = level) /\
  (forall ctype level,
     valid ctype = true ->
     exists s',
       wimlib_set_default_compression_level xpress lzx lzms ctype level s
       = (WIMLIB_ERR_SUCCESS, s') /\
       heap s' = heap s /\ vars s' = vars s /\
       stored_default s' ctype = level /\
       forall ctype', valid ctype' = true -> ctype' <> ctype ->
         stored_default s' ctype' = stored_default s ctype') /\
  (forall ctype level,
     ctype <> -1 -> valid ctype = false ->
     wimlib_set_default_compression_level xpress lzx lzms ctype level s =
     (WIMLIB_ERR_INVALID_COMPRESSION_TYPE, s)).
Proof.
  intros Hlen. cbn [compressor_ops_table length] in Hlen.
  split; [|split; [|split; [|split]]].
  - intros ctype Hv.
    destruct (ctype_valid_ops ctype Hv) as (o & Ho & Hr).
    exists o. split; [exact Ho|]. split.
    + intros mbs f Hf.
      unfold wimlib_get_compressor_needed_memory.
      now rewrite Hv, Ho, Hf, level_or_default_zero.
    + intros mbs f c_ret Hf Hm. cbn zeta.
      unfold wimlib_create_compressor, MALLOC.
      apply Z.eqb_neq in Hm. rewrite Hm, Hv, Ho, Hf. cbn.
      change (level_or_default ctype 0 _) with (effective_level s ctype).
      destruct (f mbs (effective_level s ctype)) as [r priv]. cbn.
      destruct (is_error r).
      * f_equal. apply free_after_alloc.
      * unfold set_vars, set_heap. cbn. now rewrite insert_insert_eq.
  - intros ctype Hv. apply ctype_valid_iff in Hv.
    destruct Hv as [-> | [-> | ->]]; reflexivity.
  - intros level. eexists. split; [reflexivity|].
    split; [reflexivity|]. split; [reflexivity|].
    intros ctype Hv. destruct (ctype_valid_ops ctype Hv) as (o & Ho & Hr).
    unfold stored_default. cbn. rewrite set_all_levels.
    now rewrite lookup_replicate_2 by lia.
  - intros ctype level Hv.
    destruct (ctype_valid_ops ctype Hv) as (o & Ho & Hr).
    unfold wimlib_set_default_compression_level. rewrite Hv.
    replace (ctype =? -1) with false
      by (symmetry; apply Z.eqb_neq; apply ctype_valid_iff in Hv; lia).
    eexists. split; [reflexivity|].
    split; [reflexivity|]. split; [reflexivity|].
    unfold stored_default. cbn. split.
    + now rewrite list_lookup_insert_eq by lia.
    + intros ctype' Hv' Hne.
      rewrite list_lookup_insert_ne; [reflexivity|].
      apply ctype_valid_iff in Hv, Hv'. lia.
  - intros ctype level Hn Hv.
    unfold wimlib_set_default_compression_level. rewrite Hv.
    apply Z.eqb_neq in Hn. now rewrite Hn.
Qed.

End Table.

(** Before any default is set LZX gets level 50, and 7 is no codec type. *)
Lemma default_compression_level_used_witness :
  effective_level (initial_state example_ops example_ops_create example_ops) 2
  = 50 /\
  wimlib_set_default_compression_level example_ops example_ops_create
    example_ops 7 90 example_state
  = (WIMLIB_ERR_INVALID_COMPRESSION_TYPE, example_state).
Proof.
  pose proof (default_compression_level_used example_ops example_ops_create
                example_ops 32 example_state eq_refl)
    as (_ & Hinit & _ & _ & Hinvalid).
  split.
  - apply Hinit. reflexivity.
  - apply Hinvalid; [lia | reflexivity].
Defined.


(** C4, the claim as it stands fails: an unsupported compression type
    together with a [NULL] [c_ret] gives [WIMLIB_ERR_INVALID_PARAM]. *)
Lemma create_compressor_invalid_ctype_null_c_ret :
  compressor_ctype_valid example_ops example_ops_create example_ops 99 = false
  /\ (wimlib_create_compressor example_ops example_ops_create example_ops
        true 99 32768 0 None example_state).1
     <> WIMLIB_ERR_INVALID_COMPRESSION_TYPE.
Proof. split; [reflexivity | discriminate]. Qed.

(** C4, amended.  A [NULL] [c_ret] or a [max_block_size] of 0 gives
    [WIMLIB_ERR_INVALID_PARAM]; otherwise a compression type that is not a
    supported codec id gives [WIMLIB_ERR_INVALID_COMPRESSION_TYPE]; in all
    three cases the state is unchanged (nothing is allocated, the variable
    behind [c_ret] is not written).  When the codec's [create_compressor]
    fails, its error code is returned and the state is again the one before
    the call: the compressor that was allocated has been freed. *)
Theorem create_compressor_errors
    (xpress lzx lzms : compressor_ops) (s : state) :
  (forall malloc_ok ctype mbs level,
     wimlib_create_compressor xpress lzx lzms malloc_ok ctype mbs level None s
     = (WIMLIB_ERR_INVALID_PARAM, s)) /\
  (forall malloc_ok ctype level c_ret,
     wimlib_create_compressor xpress lzx lzms malloc_ok ctype 0 level c_ret s
     = (WIMLIB_ERR_INVALID_PARAM, s)) /\
  (forall malloc_ok ctype mbs level c_ret,
     mbs <> 0 ->
     compressor_ctype_valid xpress lzx lzms ctype = false ->
     wimlib_create_compressor xpress lzx lzms malloc_ok ctype mbs level
       (Some c_ret) s
     = (WIMLIB_ERR_INVALID_COMPRESSION_TYPE, s)) /\
  (forall ctype mbs level c_ret o create,
     mbs <> 0 ->
     compressor_ctype_valid xpress lzx lzms ctype = true ->
     ops_of xpress lzx lzms ctype = Some o ->
     create_compressor o = Some create ->
     let ret := (create mbs (level_or_default ctype level s)).1 in
     is_error ret = true ->
     wimlib_create_compressor xpress lzx lzms true ctype mbs level
       (Some c_ret) s
     = (ret, s)).
Proof.
  split; [|split; [|split]].
  - reflexivity.
  - intros ? ? ? [c_ret|]; reflexivity.
  - intros malloc_ok ctype mbs level c_ret Hm Hv.
    unfold wimlib_create_compressor. apply Z.eqb_neq in Hm.
    now rewrite Hm, Hv.
  - intros ctype mbs level c_ret o create Hm Hv Ho Hc ret_ He.
    unfold wimlib_create_compressor, MALLOC. apply Z.eqb_neq in Hm.
    rewrite Hm, Hv, Ho, Hc. cbn.
    change (level_or_default ctype level
              (set_heap (<[fresh (dom (heap s)) :=
                 {| ops := o; private := 0; ctype := ctype;
                    max_block_size := mbs |}]> (heap s)) s))
      with (level_or_default ctype level s).
    subst ret_.
    destruct (create mbs (level_or_default ctype level s)) as [r priv].
    cbn in He |- *. rewrite He. f_equal. apply free_after_alloc.
Qed.

Lemma create_compressor_errors_witness :
  wimlib_create_compressor example_ops example_ops_create example_ops
    true 2 32768 0 (Some 7%nat) example_state
  = (WIMLIB_ERR_NOMEM, example_state).
Proof.
  refine (proj2 (proj2 (proj2
            (create_compressor_errors example_ops example_ops_create
               example_ops example_state)))
          2 32768 0 7%nat example_ops_create example_create _ _ _ _ _);
    [discriminate | reflexivity | reflexivity | reflexivity | reflexivity].
Defined.

(** [memcmp] answers 0 exactly when the first [n] bytes agree. *)
Lemma memcmp_zero_iff (a b : list Z) (n : nat) :
  (n <= length a)%nat -> (n <= length b)%nat ->
  memcmp a b n = 0 <-> take n a = take n b.
Proof.
  revert a b. induction n as [|n IH]; intros a b Ha Hb.
  - cbn. split; reflexivity.
  - destruct a as [|x a], b as [|y b]; cbn in Ha, Hb; try lia.
    cbn [memcmp take].
    destruct (Z.eqb_spec x y) as [-> | Hxy].
    + rewrite IH by lia. split; [intros ->; reflexivity | now intros [= ?]].
    + split; [lia | intros [= ? ?]; contradiction].
Qed.

Ltac settle :=
  cbn [returned fst snd]; repeat apply conj; intros;
  first [ now auto | discriminate | contradiction | congruence
        | intuition congruence ].

Section CompressOutcome.
Variables ENABLE_ASSERTIONS ENABLE_VERIFY_COMPRESSION : bool.
Variable create_decompressor : Z -> Z -> wimlib_error_code * Z.
Variable decompress : list Z -> Z -> Z -> Z -> Z * list Z.

Local Abbreviation run :=
  (wimlib_compress ENABLE_ASSERTIONS ENABLE_VERIFY_COMPRESSION
     create_decompressor decompress).

Local Abbreviation round_trip_fails :=
  (CompressSpec.round_trip_fails create_decompressor decompress).

(** C3, amended.  For a block with [uncompressed_size <= max_block_size],
    [wimlib_compress] returns the codec's compressed size or 0, or, in a
    build that verifies compression, ends the process when the round trip of
    a nonempty result fails.  Without verification it returns the codec's
    size; when the verification cannot run (no buffer, no decompressor) it
    returns 0. *)
Theorem compress_returns_size_or_zero
    (malloc_ok : bool) (data : list Z) (size avail : Z)
    (c : wimlib_compressor) :
  size <= max_block_size c ->
  let csize := (compress (ops c) data size avail (private c)).1 in
  let r := returned (run malloc_ok data size avail c) in
  (r = Returns csize \/ r = Returns 0 \/
   (r = Aborts /\ ENABLE_VERIFY_COMPRESSION = true /\ csize <> 0 /\
    malloc_ok = true /\
    is_error (create_decompressor (ctype c) (max_block_size c)).1 = false /\
    round_trip_fails data size avail c)) /\
  (ENABLE_VERIFY_COMPRESSION = false -> r = Returns csize) /\
  (csize = 0 -> r = Returns 0) /\
  (ENABLE_VERIFY_COMPRESSION = true -> csize <> 0 ->
   malloc_ok = false \/
   is_error (create_decompressor (ctype c) (max_block_size c)).1 = true ->
   r = Returns 0).
Proof.
  intros Hpre. cbn zeta.
  unfold wimlib_compress, CompressSpec.round_trip_fails.
  apply Z.leb_le in Hpre. rewrite Hpre. cbn [negb]. rewrite andb_false_r.
  destruct (compress (ops c) data size avail (private c)) as [csize cdata].
  cbn [fst].
  destruct ENABLE_VERIFY_COMPRESSION; cbn [andb]; [|settle].
  destruct (Z.eqb_spec csize 0) as [-> | Hcs]; cbn [negb]; [settle|].
  destruct malloc_ok; cbn [negb]; [|settle].
  destruct (create_decompressor (ctype c) (max_block_size c)) as [res d].
  cbn [fst snd].
  destruct (is_error res) eqn:Eres; [settle|].
  destruct (decompress cdata csize size d) as [res2 buf].
  destruct (Z.eqb_spec res2 0) as [-> | Hres2]; cbn [negb].
  - destruct (Z.eqb_spec (memcmp data buf (Z.to_nat size)) 0) as [Em | Em];
      cbn [negb]; [settle|].
    cbn [returned]. split; [right; right; repeat split; auto | settle].
  - cbn [returned]. split; [right; right; repeat split; auto | settle].
Qed.

(** C2, amended.  In a build that verifies compression, when the codec
    produced a nonempty result, the buffer and the decompressor could be
    obtained and the round trip fails, [wimlib_compress] prints an error and
    ends the process through [abort()]: it does not return, so no error
    code reaches the caller. *)
Theorem compress_round_trip_failure_aborts
    (data : list Z) (size avail : Z) (c : wimlib_compressor) :
  ENABLE_VERIFY_COMPRESSION = true ->
  size <= max_block_size c ->
  (compress (ops c) data size avail (private c)).1 <> 0 ->
  is_error (create_decompressor (ctype c) (max_block_size c)).1 = false ->
  round_trip_fails data size avail c ->
  let r := run true data size avail c in
  returned r = Aborts /\
  (forall v, returned r <> Returns v) /\
  exists text, messages r = [ERROR text].
Proof.
  intros Hv Hpre Hcs Hd Hrt. cbn zeta.
  unfold wimlib_compress, CompressSpec.round_trip_fails in *.
  apply Z.leb_le in Hpre. rewrite Hpre, Hv. cbn [negb]. rewrite andb_false_r.
  destruct (compress (ops c) data size avail (private c)) as [csize cdata].
  cbn [fst] in Hcs. apply Z.eqb_neq in Hcs. rewrite Hcs. cbn [negb andb].
  destruct (create_decompressor (ctype c) (max_block_size c)) as [res d].
  cbn [fst snd] in *. rewrite Hd.
  destruct (decompress cdata csize size d) as [res2 buf].
  destruct (Z.eqb_spec res2 0) as [-> | Hres2]; cbn [negb].
  - destruct Hrt as [Hrt | Hrt]; [contradiction|].
    apply Z.eqb_neq in Hrt. rewrite Hrt. cbn.
    repeat split; try discriminate. eauto.
  - cbn. repeat split; try discriminate. eauto.
Qed.

End CompressOutcome.

(** Without verification the codec's size is returned. *)
Lemma compress_returns_size_or_zero_witness :
  returned
    (wimlib_compress false false
       example_create_decompressor example_failing_decompress
       true [1; 2; 3] 3 2 example_compressor)
  = Returns 1.
Proof.
  apply (compress_returns_size_or_zero false false
           example_create_decompressor example_failing_decompress
           true [1; 2; 3] 3 2 example_compressor).
  - cbn. lia.
  - reflexivity.
Defined.

(** C3, the claim as it stands fails: with verification enabled and a
    decompressor that fails, the call does not return at all. *)
Lemma compress_does_not_return :
  3 <= max_block_size example_compressor /\
  (forall v,
     returned
       (wimlib_compress true true
          example_create_decompressor example_failing_decompress
          true [1; 2; 3] 3 2 example_compressor)
     <> Returns v).
Proof. split; [cbn; lia | intros v; discriminate]. Qed.

(** A decompressor that fails ends the process. *)
Lemma compress_round_trip_failure_aborts_witness :
  returned
    (wimlib_compress true true
       example_create_decompressor example_failing_decompress
       true [1; 2; 3] 3 2 example_compressor)
  = Aborts.
Proof.
  apply (compress_round_trip_failure_aborts true true
           example_create_decompressor example_failing_decompress
           [1; 2; 3] 3 2 example_compressor).
  - reflexivity.
  - cbn. lia.
  - cbn. lia.
  - reflexivity.
  - cbn. left. lia.
Defined.

(** C2, the claim as it stands fails: nothing is handed to the caller, the
    process ends. *)
Lemma compress_propagates_no_error :
  ~ exists code : Z,
      returned
        (wimlib_compress true true
           example_create_decompressor example_failing_decompress
           true [1; 2; 3] 3 2 example_compressor)
      = Returns code.
Proof. intros [code H]. discriminate H. Qed.

End CompressFacts.

(* --------------------------------------------------------------------- *)
(** ** unix_apply.c                                                       *)
(* --------------------------------------------------------------------- *)

Section UnixFrame.
Import Types Wimlib UnixApply UnixApplySpec.

Lemma extends_refl s : extends s s.
Proof. repeat split; auto. exists []. now rewrite app_nil_r. Qed.

Lemma extends_trans s1 s2 s3 : extends s1 s2 -> extends s2 s3 -> extends s1 s3.
Proof.
  intros (Ha & Hb & Hc & t & Ht) (Ha' & Hb' & Hc' & t' & Ht').
  repeat split; try congruence; auto.
  exists (t ++ t'). rewrite Ht', Ht. now rewrite app_assoc.
Qed.

Lemma extending_ret {A} (a : A) : extending (ret a).
Proof. intros s. apply extends_refl. Qed.

Lemma extending_bind {A B} (m : M A) (k : A -> M B) :
  extending m -> (forall a, extending (k a)) -> extending (bind m k).
Proof.
  intros Hm Hk s. unfold bind. specialize (Hm s).
  destruct (m s) as [a s1]. eapply extends_trans; [exact Hm | apply Hk].
Qed.

Lemma extending_get_ctx : extending get_ctx.
Proof. intros s. apply extends_refl. Qed.

Lemma extending_get_errno : extending get_errno.
Proof. intros s. apply extends_refl. Qed.

Lemma extending_set_errno e : extending (set_errno e).
Proof.
  intros s. repeat split; auto. exists []. cbn. now rewrite app_nil_r.
Qed.

Lemma extending_emit e : extending (emit e).
Proof. intros s. repeat split; auto. now exists [e]. Qed.

Lemma extending_next_answer : extending next_answer.
Proof.
  intros s. unfold next_answer.
  destruct (oracle s); [apply extends_refl|].
  repeat split; auto. exists []. cbn. now rewrite app_nil_r.
Qed.

Lemma extending_modify_ctx (f : unix_apply_ctx -> unix_apply_ctx) :
  (forall c, open_fds (f c) = open_fds c /\
             num_open_fds (f c) = num_open_fds c /\
             (valid_pathbuf_index (which_pathbuf c) ->
              valid_pathbuf_index (which_pathbuf (f c)))) ->
  extending (modify_ctx f).
Proof.
  intros Hf s. destruct (Hf (ctx s)) as (Ha & Hb & Hc).
  repeat split; auto. exists []. cbn. now rewrite app_nil_r.
Qed.

Lemma uint_mod_2_valid (x : Z) :
  valid_pathbuf_index (uint x mod NUM_PATHBUFS).
Proof.
  unfold valid_pathbuf_index, NUM_PATHBUFS.
  pose proof (Z.mod_pos_bound (uint x) 2 ltac:(lia)). lia.
Qed.

End UnixFrame.

Create HintDb extending.

#[local] Hint Resolve
  extending_ret extending_get_ctx extending_get_errno extending_set_errno
  extending_emit extending_next_answer uint_mod_2_valid : extending.

(** Break an [extending] goal along the structure of the computation. *)
Ltac extending_step :=
  match goal with
  | |- UnixApplySpec.extending (UnixApply.bind _ _) =>
      apply extending_bind; [ | intros ? ]
  | |- UnixApplySpec.extending (UnixApply.modify_ctx _) =>
      apply extending_modify_ctx; intros ?; cbn;
      repeat split; auto with extending
  | |- UnixApplySpec.extending (if ?b then _ else _) => destruct b
  | |- UnixApplySpec.extending (match ?x with _ => _ end) => destruct x
  | |- UnixApplySpec.extending (let '(_, _) := ?x in _) => destruct x
  | |- UnixApplySpec.extending _ => solve [ auto with extending ]
  end.

Ltac extending_auto := repeat extending_step.

Section UnixPrimitives.
Import Types Wimlib UnixApply UnixApplySpec.

Lemma extending_extern e : extending (extern e).
Proof. unfold extern. extending_auto. Qed.

Lemma extending_syscall e : extending (syscall e).
Proof. unfold syscall. pose proof extending_extern. extending_auto. Qed.

Lemma extending_path_at p : extending (path_at p).
Proof. unfold path_at. extending_auto. Qed.

Lemma extending_warning text p : extending (warning text p).
Proof. unfold warning. pose proof extending_path_at. extending_auto. Qed.

Lemma extending_error text p : extending (error text p).
Proof. unfold error. pose proof extending_path_at. extending_auto. Qed.

Lemma extending_retry_n {A} fuel (body : M (pass A)) (dflt : A) :
  extending body -> extending (retry_n fuel body dflt).
Proof.
  intros Hb. induction fuel as [|fuel IH]; cbn [retry_n]; extending_auto.
Qed.

Lemma extending_retry {A} (body : M (pass A)) (dflt : A) :
  extending body -> extending (retry body dflt).
Proof. intros Hb s. unfold retry. now apply extending_retry_n. Qed.

(** The bounded loop of the model is the unbounded loop of the source. *)
Lemma retry_n_loop_result {A} (body : M (pass A)) (dflt : A) :
  consumes body ->
  forall fuel s, (length (oracle s) <= fuel)%nat ->
    loop_result body s (retry_n fuel body dflt s).1
                       (retry_n fuel body dflt s).2.
Proof.
  intros Hc. induction fuel as [|fuel IH]; intros s Hs;
    cbn [retry_n]; unfold bind; destruct (body s) as [[a|] s1] eqn:E;
    cbn; try (now apply loop_done).
  - apply Hc in E. lia.
  - eapply loop_again; [exact E|]. apply IH. apply Hc in E. lia.
Qed.

Lemma retry_loop_result {A} (body : M (pass A)) (dflt : A) (s : state) :
  consumes body ->
  loop_result body s (retry body dflt s).1 (retry body dflt s).2.
Proof. intros Hc. unfold retry. now apply retry_n_loop_result. Qed.

Ltac consumes_tac :=
  intros s s';
  unfold bind, syscall, extern, bind, emit, next_answer, get_errno,
    set_errno, path_at, get_ctx, error, warning, modify_ctx, ret;
  cbn;
  destruct (oracle s) as [|a [|u o]]; cbn;
  repeat match goal with
         | |- context [if ?b then _ else _] => destruct b; cbn
         end;
  intros [= <-]; cbn; lia.

Lemma consumes_mknod_pass path unix_data :
  consumes (mknod_pass path unix_data).
Proof. unfold mknod_pass. consumes_tac. Qed.

Lemma consumes_create_pass path : consumes (create_pass path).
Proof. unfold create_pass. consumes_tac. Qed.

Lemma consumes_link_pass first_path newpath :
  consumes (link_pass first_path newpath).
Proof. unfold link_pass. consumes_tac. Qed.

Lemma consumes_symlink_pass link_target path :
  consumes (symlink_pass link_target path).
Proof. unfold symlink_pass. consumes_tac. Qed.

(** Each of the four retry loops of the file computes what the loop of the
    source computes, however many passes that takes. *)
Lemma retry_loops_run_to_completion (s : state) :
  (forall path unix_data dflt,
     let body := mknod_pass path unix_data in
     loop_result body s (retry body dflt s).1 (retry body dflt s).2) /\
  (forall path dflt,
     let body := create_pass path in
     loop_result body s (retry body dflt s).1 (retry body dflt s).2) /\
  (forall first_path newpath dflt,
     let body := link_pass first_path newpath in
     loop_result body s (retry body dflt s).1 (retry body dflt s).2) /\
  (forall link_target path dflt,
     let body := symlink_pass link_target path in
     loop_result body s (retry body dflt s).1 (retry body dflt s).2).
Proof.
  split; [|split; [|split]]; intros; apply retry_loop_result.
  - apply consumes_mknod_pass.
  - apply consumes_create_pass.
  - apply consumes_link_pass.
  - apply consumes_symlink_pass.
Qed.

Lemma extending_build_extraction_path dentry :
  extending (unix_build_extraction_path dentry).
Proof. unfold unix_build_extraction_path. extending_auto. Qed.

Lemma extending_reuse_pathbuf : extending unix_reuse_pathbuf.
Proof. unfold unix_reuse_pathbuf. extending_auto. Qed.

End UnixPrimitives.

#[local] Hint Resolve
  extending_extern extending_syscall extending_path_at extending_warning
  extending_error extending_retry extending_build_extraction_path
  extending_reuse_pathbuf : extending.

Section UnixFacts.
Import Types Wimlib UnixApply UnixApplySpec Examples.
Variables HAVE_FUTIMENS HAVE_UTIMENSAT : bool.
Variable REPARSE_DATA_MAX_SIZE : Z.
Variable d_inode : wim_dentry -> wim_inode.

Local Abbreviation set_metadata :=
  (unix_set_metadata HAVE_FUTIMENS HAVE_UTIMENSAT).
Local Abbreviation extract_if_empty_file :=
  (unix_extract_if_empty_file HAVE_FUTIMENS HAVE_UTIMENSAT d_inode).
Local Abbreviation end_extract_stream :=
  (unix_end_extract_stream HAVE_FUTIMENS HAVE_UTIMENSAT
     REPARSE_DATA_MAX_SIZE).

Lemma string_length_append (a b : string) :
  String.length (String.append a b) = (String.length a + String.length b)%nat.
Proof.
  induction a as [|c a IH]; [reflexivity|].
  change (S (String.length (String.append a b)) =
          S (String.length a + String.length b)). now f_equal.
Qed.

(** [unix_dentry_path_length] is the number of characters
    [unix_build_extraction_path] writes behind the target, as a [size_t]. *)
Lemma extraction_path_tail_length (dentry : wim_dentry) :
  size_t (Z.of_nat (String.length (extraction_path_tail dentry))) =
  unix_dentry_path_length dentry.
Proof.
  revert dentry. fix IH 1. intros [addr name parent will].
  cbn [extraction_path_tail unix_dentry_path_length d_parent
       d_extraction_name].
  unfold d_extraction_name_nchars. cbn [d_extraction_name].
  rewrite string_length_append. cbn [String.length].
  destruct parent as [p|]; [|cbn [String.length]; f_equal; lia].
  destruct (negb (dentry_is_root p) && will_extract_dentry p).
  - rewrite <- IH. unfold size_t, wrap.
    rewrite Zplus_mod_idemp_r. f_equal. lia.
  - cbn [String.length]. f_equal. lia.
Qed.

Lemma extending_build_inode_extraction_path inode :
  extending (unix_build_inode_extraction_path inode).
Proof. unfold unix_build_inode_extraction_path. extending_auto. Qed.
Hint Resolve extending_build_inode_extraction_path : extending.

Lemma extending_set_timestamps fd path atime mtime :
  extending (unix_set_timestamps HAVE_FUTIMENS HAVE_UTIMENSAT
               fd path atime mtime).
Proof. unfold unix_set_timestamps. extending_auto. Qed.

Lemma extending_set_owner_and_group fd path uid gid :
  extending (unix_set_owner_and_group fd path uid gid).
Proof. unfold unix_set_owner_and_group. extending_auto. Qed.

Lemma extending_set_mode fd path mode :
  extending (unix_set_mode fd path mode).
Proof. unfold unix_set_mode. extending_auto. Qed.

Lemma extending_path_or_build inode path :
  extending (path_or_build inode path).
Proof. unfold path_or_build. extending_auto. Qed.
Hint Resolve extending_set_timestamps extending_set_owner_and_group
  extending_set_mode extending_path_or_build : extending.

Lemma extending_metadata_failure strict text r inode path :
  extending (metadata_failure strict text r inode path).
Proof. unfold metadata_failure. extending_auto. Qed.
Hint Resolve extending_metadata_failure : extending.

Lemma extending_set_metadata fd inode path :
  extending (set_metadata fd inode path).
Proof. unfold unix_set_metadata. extending_auto. Qed.
Hint Resolve extending_set_metadata : extending.

Lemma extending_link_pass first_path newpath :
  extending (link_pass first_path newpath).
Proof. unfold link_pass. extending_auto. Qed.
Hint Resolve extending_link_pass : extending.

Lemma extending_create_hardlinks inode first_dentry first_path :
  extending (unix_create_hardlinks inode first_dentry first_path).
Proof.
  unfold unix_create_hardlinks.
  induction (i_extraction_aliases inode) as [|d l IH];
    cbn [create_hardlinks_loop]; extending_auto.
Qed.
Hint Resolve extending_create_hardlinks : extending.

Lemma extending_report_file_created : extending report_file_created.
Proof. unfold report_file_created. extending_auto. Qed.
Hint Resolve extending_report_file_created : extending.

Lemma extending_create_if_directory dentry :
  extending (unix_create_if_directory d_inode dentry).
Proof. unfold unix_create_if_directory. extending_auto. Qed.

Lemma extending_mknod_pass path unix_data :
  extending (mknod_pass path unix_data).
Proof. unfold mknod_pass. extending_auto. Qed.

Lemma extending_create_pass path : extending (create_pass path).
Proof. unfold create_pass. extending_auto. Qed.
Hint Resolve extending_create_if_directory extending_mknod_pass
  extending_create_pass : extending.

Lemma extending_extract_if_empty_file dentry :
  extending (extract_if_empty_file dentry).
Proof. unfold unix_extract_if_empty_file. extending_auto. Qed.
Hint Resolve extending_extract_if_empty_file : extending.

Lemma extending_for_each_entry f l :
  (forall d, extending (f d)) -> extending (for_each_entry f l).
Proof.
  intros Hf. induction l as [|d l IH]; cbn [for_each_entry]; extending_auto.
Qed.

Lemma extending_create_dirs_and_empty_files l :
  extending (unix_create_dirs_and_empty_files HAVE_FUTIMENS HAVE_UTIMENSAT
               d_inode l).
Proof.
  unfold unix_create_dirs_and_empty_files.
  pose proof (extending_for_each_entry (unix_create_if_directory d_inode)).
  pose proof (extending_for_each_entry extract_if_empty_file).
  extending_auto.
Qed.

Lemma extending_symlink_pass link_target path :
  extending (symlink_pass link_target path).
Proof. unfold symlink_pass. extending_auto. Qed.
Hint Resolve extending_symlink_pass : extending.

Lemma extending_create_symlink inode path rpdata rpdatalen rpfix dir nchars :
  extending (unix_create_symlink REPARSE_DATA_MAX_SIZE inode path rpdata
               rpdatalen rpfix dir nchars).
Proof. unfold unix_create_symlink. extending_auto. Qed.

Lemma extending_filedes_close i : extending (filedes_close i).
Proof. unfold filedes_close. extending_auto. Qed.
Hint Resolve extending_create_symlink extending_filedes_close : extending.


(** C9. [which_pathbuf] is 0 or 1 after [unix_build_extraction_path] and
    after [unix_reuse_pathbuf], whatever it was before; once it is 0 or 1 it
    stays so through any sequence of the two and through the whole of
    [unix_create_dirs_and_empty_files]; [unix_reuse_pathbuf] followed by
    [unix_build_extraction_path] fills the buffer the preceding
    [unix_build_extraction_path] filled; and from [which_pathbuf = 0]
    [unix_reuse_pathbuf] goes to 1, because [0 - 1] wraps to [0xFFFFFFFF]
    and [0xFFFFFFFF mod 2 = 1]. *)
Theorem which_pathbuf_stays_valid (s : state) :
  (forall dentry,
     valid_pathbuf_index
       (which_pathbuf (ctx (unix_build_extraction_path dentry s).2))) /\
  valid_pathbuf_index (which_pathbuf (ctx (unix_reuse_pathbuf s).2)) /\
  (forall ops,
     valid_pathbuf_index (which_pathbuf (ctx s)) ->
     valid_pathbuf_index (which_pathbuf (ctx (run_pathbuf_ops ops s).2))) /\
  (forall dentry_list,
     valid_pathbuf_index (which_pathbuf (ctx s)) ->
     valid_pathbuf_index
       (which_pathbuf
          (ctx (unix_create_dirs_and_empty_files HAVE_FUTIMENS HAVE_UTIMENSAT
                  d_inode dentry_list s).2))) /\
  (forall d1 d2,
     valid_pathbuf_index (which_pathbuf (ctx s)) ->
     let '(i1, s1) := unix_build_extraction_path d1 s in
     let '(_, s2) := unix_reuse_pathbuf s1 in
     let '(i2, _) := unix_build_extraction_path d2 s2 in
     Z.of_nat i1 = which_pathbuf (ctx s) /\ i2 = i1) /\
  (which_pathbuf (ctx s) = 0 ->
   which_pathbuf (ctx (unix_reuse_pathbuf s).2) = 0xFFFFFFFF mod 2 /\
   uint (0 - 1) = 0xFFFFFFFF /\ 0xFFFFFFFF mod 2 = 1).
Proof.
  split; [|split; [|split; [|split; [|split]]]].
  - intros dentry. cbn. apply uint_mod_2_valid.
  - cbn. apply uint_mod_2_valid.
  - intros ops. revert s. induction ops as [|op ops IH]; intros s Hs.
    + exact Hs.
    + cbn [run_pathbuf_ops]. unfold bind.
      destruct (run_pathbuf_op op s) as [u s1] eqn:E. apply IH.
      replace s1 with (run_pathbuf_op op s).2 by now rewrite E.
      destruct op; cbn; apply uint_mod_2_valid.
  - intros dentry_list Hs.
    now apply (extending_create_dirs_and_empty_files dentry_list s).
  - intros d1 d2 [Hs | Hs]; cbn; rewrite Hs; cbn; split; reflexivity.
  - intros Hs. cbn. rewrite Hs. repeat split; reflexivity.
Qed.


Lemma retry_answers_length retries :
  length (retry_answers retries) = (2 * length retries)%nat.
Proof.
  induction retries as [|r l IH]; [reflexivity|].
  change (retry_answers (r :: l)) with (r.1 :: r.2 :: retry_answers l).
  cbn [length]. lia.
Qed.

Lemma retry_n_mknod_eperm path unix_data dflt retries :
  forall fuel c e t a rest,
  Forall mknod_retry retries -> a_ret a < 0 -> a_errno a = EPERM ->
  (length retries <= fuel)%nat ->
  let p := default EmptyString (pathbufs c !! path) in
  let mknod := Mknod p (mode unix_data) (rdev unix_data) in
  retry_n fuel (mknod_pass path unix_data) dflt
    {| ctx := c; errno := e; oracle := retry_answers retries ++ a :: rest;
       trace := t |}
  = (Some WIMLIB_ERR_SUCCESS,
     {| ctx := set_num_special_files_ignored
                 (ulong (num_special_files_ignored c + 1)) c;
        errno := EPERM; oracle := rest;
        trace := t ++ concat (replicate (length retries) [mknod; Unlink p]) ++
                 [mknod; Warning "Can't create special file" p] |}).
Proof.
  induction retries as [|[m u] retries IH];
    intros fuel c e t a rest Hall Hret Herr Hfuel p mknod.
  - destruct a as [ar ae ast aaux atxt]. cbn in Hret, Herr. subst ae.
    destruct ar as [| |ar]; try lia.
    destruct fuel as [|fuel]; cbn; now rewrite <- app_assoc.
  - destruct fuel as [|fuel]; [cbn in Hfuel; lia|].
    apply Forall_cons in Hall as [(Hm & Hme & Hu) Hall].
    destruct m as [mr me mst maux mtxt], u as [ur ue ust uaux utxt].
    cbn in Hm, Hme, Hu. subst me ur.
    destruct mr as [| |mr]; try lia.
    specialize (IH fuel c EEXIST (t ++ [mknod; Unlink p]) a rest Hall Hret
                  Herr ltac:(cbn in Hfuel; lia)).
    cbn zeta in IH. fold p mknod in IH.
    cbn [retry_answers flat_map app fst snd].
    cbn [retry_n]. unfold bind at 1.
    assert (mknod_pass path unix_data
              {| ctx := c; errno := e;
                 oracle :=
                   {| a_ret := Z.neg mr; a_errno := EEXIST; a_status := mst;
                      a_aux := maux; a_text := mtxt |}
                   :: {| a_ret := 0; a_errno := ue; a_status := ust;
                         a_aux := uaux; a_text := utxt |}
                   :: flat_map (fun r => [r.1; r.2]) retries ++ a :: rest;
                 trace := t |}
            = (Again,
               {| ctx := c; errno := EEXIST;
                  oracle := retry_answers retries ++ a :: rest;
                  trace := t ++ [mknod; Unlink p] |})) as ->.
    { cbn. now rewrite <- app_assoc. }
    rewrite IH. do 2 f_equal.
    cbn [length replicate concat]. now rewrite <- !app_assoc.
Qed.

(** C1, amended.  In UNIX-data mode, for the first extraction alias of an
    inode that is a special file, when [mknod] fails with [EPERM], be it at
    the first attempt or after any number of rounds of the loop at
    [retry_mknod] (each an [EEXIST] followed by a successful [unlink]),
    [unix_extract_if_empty_file] prints a warning, adds one to
    [num_special_files_ignored], makes no further call and returns 0, so
    the loop of [unix_create_dirs_and_empty_files] goes on with the next
    dentry.  This holds whatever the strict flags of [extract_flags] are. *)
Theorem mknod_eperm_is_ignored
    (dentry : wim_dentry) (unix_data : wimlib_unix_data)
    (s : state) (retries : list (answer * answer))
    (a : answer) (rest : list answer) :
  let inode := d_inode dentry in
  d_addr dentry = d_addr (inode_first_extraction_dentry inode) ->
  inode_is_directory inode = false ->
  inode_is_symlink inode = false ->
  inode_unnamed_lte_resolved inode = false ->
  WIMLIB_EXTRACT_FLAG_UNIX_DATA (extract_flags (common (ctx s))) = true ->
  inode_get_unix_data inode = Some unix_data ->
  S_ISREG (mode unix_data) = false ->
  Forall mknod_retry retries ->
  oracle s = retry_answers retries ++ a :: rest ->
  a_ret a < 0 -> a_errno a = EPERM ->
  let s' := after_ignored_mknod dentry unix_data s (length retries) rest in
  extract_if_empty_file dentry s = (WIMLIB_ERR_SUCCESS, s') /\
  num_special_files_ignored (ctx s') =
    ulong (num_special_files_ignored (ctx s) + 1) /\
  (forall l,
     for_each_entry extract_if_empty_file (dentry :: l) s =
     for_each_entry extract_if_empty_file l s').
Proof.
  intros inode Hfirst Hdir Hsym Hres Hflag Hud Hreg Hall Ho Hret Herr s'.
  assert (extract_if_empty_file dentry s = (WIMLIB_ERR_SUCCESS, s')) as E.
  { subst s'. unfold unix_extract_if_empty_file. fold inode.
    rewrite Hfirst, Nat.eqb_refl, Hdir, Hsym, Hres. cbn [negb orb].
    destruct s as [c e o t]. cbn in Ho, Hflag. subst o.
    unfold bind at 1. cbn [get_ctx ctx]. rewrite Hflag, Hud, Hreg.
    cbn [negb]. unfold bind at 1.
    unfold after_ignored_mknod.
    cbn [unix_build_extraction_path bind get_ctx modify_ctx ret ctx errno
         oracle trace fst snd].
    unfold bind at 1. unfold retry at 1. cbn [oracle].
    rewrite (retry_n_mknod_eperm _ unix_data (Some WIMLIB_ERR_MKNOD) retries
               _ _ e t a rest Hall Hret Herr).
    - reflexivity.
    - rewrite length_app, retry_answers_length. lia. }
  split; [exact E|]. split.
  - subst s'. reflexivity.
  - intros l. cbn [for_each_entry]. unfold bind at 1. now rewrite E.
Qed.


Lemma closes_trans s s1 s2 a b c :
  closes s s1 a b -> closes s1 s2 b c -> closes s s2 a c.
Proof.
  intros (Ho & t & Ht & Hc) (Ho' & t' & Ht' & Hc').
  split; [congruence|]. exists (t ++ t').
  split; [rewrite Ht', Ht; now rewrite app_assoc|].
  intros i Hi. apply in_app_iff.
  destruct (Z_lt_ge_dec (Z.of_nat i) b) as [Hlt | Hge].
  - left. apply Hc. lia.
  - right. unfold open_fd in *. rewrite <- Ho. apply Hc'. lia.
Qed.

Lemma extends_closes s s' j : extends s s' -> closes s s' j j.
Proof.
  intros (Ho & _ & _ & t & Ht). split; [exact Ho|].
  exists t. split; [exact Ht|]. intros i Hi. lia.
Qed.

Lemma filedes_close_spec (i : nat) (s : state) :
  ctx (filedes_close i s).2 = ctx s /\
  trace (filedes_close i s).2 =
    trace s ++ [Filedes_close (open_fd (ctx s) i)].
Proof.
  unfold filedes_close, syscall, extern, bind, emit, next_answer, get_ctx,
    open_fd.
  cbn. destruct (oracle s) as [|a o]; cbn.
  - split; reflexivity.
  - destruct (a_ret a <? 0); cbn; split; reflexivity.
Qed.

Lemma filedes_close_closes (j : Z) (s : state) :
  closes s (filedes_close (Z.to_nat j) s).2 j (j + 1).
Proof.
  destruct (filedes_close_spec (Z.to_nat j) s) as [Hc Ht].
  split; [now rewrite Hc|]. eexists. split; [exact Ht|].
  intros i Hi. replace i with (Z.to_nat j) by lia. now left.
Qed.

Lemma close_each_spec (l : list nat) (s : state) :
  ctx (close_each l s).2 = ctx s /\
  trace (close_each l s).2 =
    trace s ++ map (fun i => Filedes_close (open_fd (ctx s) i)) l.
Proof.
  revert s. induction l as [|i l IH]; intros s; cbn [close_each map].
  - cbn. now rewrite app_nil_r.
  - unfold bind. destruct (filedes_close_spec i s) as [Hc Ht].
    destruct (filedes_close i s) as [r s1]. cbn [snd] in Hc, Ht.
    destruct (IH s1) as [Hc' Ht']. rewrite Hc', Ht', Hc, Ht.
    split; [reflexivity|]. now rewrite <- app_assoc.
Qed.

Lemma cleanup_open_fds_spec (offset : Z) (s : state) :
  let s' := (unix_cleanup_open_fds offset s).2 in
  num_open_fds (ctx s') = 0 /\
  trace s' =
    trace s ++
    map (fun i => Filedes_close (open_fd (ctx s) i))
        (seq (Z.to_nat offset)
             (Z.to_nat (num_open_fds (ctx s) - offset))) /\
  closes s s' offset (num_open_fds (ctx s)).
Proof.
  cbn zeta. unfold unix_cleanup_open_fds, bind. cbn [get_ctx].
  pose proof (close_each_spec
                (seq (Z.to_nat offset)
                     (Z.to_nat (num_open_fds (ctx s) - offset))) s)
    as [Hc Ht].
  destruct (close_each _ s) as [u s1]. cbn [snd] in Hc, Ht. cbn.
  rewrite Hc. cbn. split; [reflexivity|]. split; [exact Ht|].
  split; [reflexivity|]. eexists. split; [exact Ht|].
  intros i Hi. apply in_map_iff. exists i. split; [reflexivity|].
  apply in_seq. lia.
Qed.

Lemma end_extract_loop_closes stream owners j s :
  let '((j', _), s') :=
    end_extract_loop HAVE_FUTIMENS HAVE_UTIMENSAT REPARSE_DATA_MAX_SIZE
      stream owners j s in
  closes s s' j j' /\ num_open_fds (ctx s') = num_open_fds (ctx s).
Proof.
  revert j s. induction owners as [|inode owners IH]; intros j s.
  - cbn. split; [apply extends_closes, extends_refl | reflexivity].
  - cbn [end_extract_loop]. destruct (inode_is_symlink inode).
    + (* a symbolic link: no slot of [open_fds] is involved *)
      unfold bind at 1. cbn [get_ctx].
      unfold bind at 1.
      pose proof (extending_build_inode_extraction_path inode s) as E1.
      destruct (unix_build_inode_extraction_path inode s) as [path s1].
      cbn [snd] in E1.
      unfold bind at 1.
      match goal with
      | |- context [unix_create_symlink ?a ?b ?c ?d ?e ?f ?g ?h s1] =>
          pose proof (extending_create_symlink b c d e f g h s1) as E2;
          destruct (unix_create_symlink a b c d e f g h s1) as [r s2]
      end.
      cbn [snd] in E2.
      pose proof (extends_trans _ _ _ E1 E2) as E12.
      destruct (is_error r).
      * unfold bind.
        pose proof (extending_error "Can't create symbolic link"
                      (Some path) s2) as E3.
        destruct (error _ _ s2) as [u s3]. cbn [snd] in E3. cbn.
        pose proof (extends_trans _ _ _ E12 E3) as E.
        split; [now apply extends_closes | apply E].
      * unfold bind at 1.
        pose proof (extending_set_metadata (-1) inode (Some path) s2) as E3.
        destruct (set_metadata (-1) inode (Some path) s2) as [r3 s3].
        cbn [snd] in E3.
        pose proof (extends_trans _ _ _ E12 E3) as E.
        destruct (is_error r3).
        -- cbn. split; [now apply extends_closes | apply E].
        -- specialize (IH j s3).
           destruct (end_extract_loop _ _ _ stream owners j s3)
             as [[j' r'] s'].
           destruct IH as [IHc IHn]. split.
           ++ eapply closes_trans; [apply extends_closes, E | exact IHc].
           ++ rewrite IHn. apply E.
    + (* a regular file: slot [j] *)
      unfold bind at 1. cbn [get_ctx].
      unfold bind at 1.
      match goal with
      | |- context [unix_set_metadata _ _ ?fd inode None s] =>
          pose proof (extending_set_metadata fd inode None s) as E1;
          destruct (set_metadata fd inode None s) as [r1 s1]
      end.
      cbn [snd] in E1.
      destruct (is_error r1).
      * cbn. split; [now apply extends_closes | apply E1].
      * unfold bind at 1.
        pose proof (filedes_close_closes j s1) as C2.
        pose proof (filedes_close_spec (Z.to_nat j) s1) as [Hctx _].
        pose proof (extending_filedes_close (Z.to_nat j) s1) as E2.
        destruct (filedes_close (Z.to_nat j) s1) as [closed s2].
        cbn [snd] in C2, Hctx, E2.
        assert (closes s s2 j (j + 1)) as C12
          by (eapply closes_trans; [apply extends_closes, E1 | exact C2]).
        assert (num_open_fds (ctx s2) = num_open_fds (ctx s)) as N12
          by (rewrite Hctx; apply E1).
        destruct (negb (closed =? 0)).
        -- unfold bind at 1.
           pose proof (extending_build_inode_extraction_path inode s2) as E3.
           destruct (unix_build_inode_extraction_path inode s2) as [p s3].
           cbn [snd] in E3. unfold bind.
           pose proof (extending_error "Error closing" (Some p) s3) as E4.
           destruct (error _ _ s3) as [u s4]. cbn [snd] in E4. cbn.
           pose proof (extends_trans _ _ _ (extends_trans _ _ _ E1 E2)
                         (extends_trans _ _ _ E3 E4)) as E.
           split; [now apply extends_closes | apply E].
        -- specialize (IH (j + 1) s2).
           destruct (end_extract_loop _ _ _ stream owners (j + 1) s2)
             as [[j' r'] s'].
           destruct IH as [IHc IHn]. split.
           ++ eapply closes_trans; [exact C12 | exact IHc].
           ++ now rewrite IHn.
Qed.


(** C5. [unix_end_extract_stream] leaves [num_open_fds] at 0, and on its
    way calls [filedes_close] on every slot of [open_fds] below the
    [num_open_fds] it found, on the success path as well as with a nonzero
    status.  With a nonzero status it makes no other call and returns that
    status. *)
Theorem end_extract_stream_closes_every_fd
    (stream : wim_lookup_table_entry) (status : wimlib_error_code)
    (s : state) :
  let '(r, s') := end_extract_stream stream status s in
  num_open_fds (ctx s') = 0 /\
  (exists t,
     trace s' = trace s ++ t /\
     forall i : nat,
       Z.of_nat i < num_open_fds (ctx s) ->
       In (Filedes_close (open_fd (ctx s) i)) t) /\
  (is_error status = true ->
   r = status /\
   trace s' =
     trace s ++
     map (fun i => Filedes_close (open_fd (ctx s) i))
         (seq 0 (Z.to_nat (num_open_fds (ctx s))))).
Proof.
  unfold unix_end_extract_stream. unfold bind at 1.
  cbn [modify_ctx].
  set (s0 := {| ctx := set_reparse_ptr None (ctx s); errno := errno s;
                oracle := oracle s; trace := trace s |}).
  assert (closes s s0 0 0) as C0.
  { split; [reflexivity|]. exists []. split; [now rewrite app_nil_r|].
    intros i Hi. lia. }
  assert (forall s2,
            closes s s2 0 (num_open_fds (ctx s)) ->
            exists t, trace s2 = trace s ++ t /\
              forall i : nat, Z.of_nat i < num_open_fds (ctx s) ->
                In (Filedes_close (open_fd (ctx s) i)) t) as Hall.
  { intros s2 (_ & t & Ht & Hc). exists t. split; [exact Ht|].
    intros i Hi. apply Hc. lia. }
  destruct (is_error status) eqn:Es.
  - unfold bind.
    pose proof (cleanup_open_fds_spec 0 s0) as (Hn & Ht & Hc).
    destruct (unix_cleanup_open_fds 0 s0) as [u s2]. cbn [snd] in Hn, Ht, Hc.
    cbn [ret]. split; [exact Hn|]. split.
    + apply Hall. apply (closes_trans _ _ _ _ _ _ C0 Hc).
    + intros _. split; [reflexivity|].
      rewrite Ht. cbn. now rewrite Z.sub_0_r.
  - unfold bind at 1.
    pose proof (end_extract_loop_closes stream (stream_owners stream) 0 s0)
      as Hloop.
    destruct (end_extract_loop _ _ _ stream (stream_owners stream) 0 s0)
      as [[j r] s1].
    destruct Hloop as [Hc1 Hn1]. unfold bind.
    pose proof (cleanup_open_fds_spec j s1) as (Hn & _ & Hc).
    destruct (unix_cleanup_open_fds j s1) as [u s2]. cbn [snd] in Hn, Hc.
    cbn [ret]. rewrite Hn1 in Hc. cbn in Hc.
    split; [exact Hn|]. split; [|discriminate].
    apply Hall.
    apply (closes_trans _ _ _ _ _ _ C0
             (closes_trans _ _ _ _ _ _ Hc1 Hc)).
Qed.

End UnixFacts.

Section UnixExamples.
Import Types Wimlib UnixApply UnixApplySpec Examples.

(** The special file of the examples, extracted with both strict flags
    set, by a kernel that refuses [mknod] after the path that was in the
    way has been unlinked. *)
Lemma mknod_eperm_is_ignored_witness :
  unix_extract_if_empty_file true true example_d_inode example_dentry
    example_retry_state
  = (WIMLIB_ERR_SUCCESS,
     after_ignored_mknod example_dentry
       {| uid := 0; gid := 0; mode := 0x21b6; rdev := 259 |}
       example_retry_state 1 []).
Proof.
  apply (mknod_eperm_is_ignored true true example_d_inode example_dentry
           {| uid := 0; gid := 0; mode := 0x21b6; rdev := 259 |}
           example_retry_state [(example_eexist, answer_ok)]
           example_eperm []); try reflexivity.
  repeat constructor; cbn; lia.
Defined.

(** C1, the claim as it stands fails: with [WIMLIB_EXTRACT_FLAG_STRICT_ACLS]
    and [WIMLIB_EXTRACT_FLAG_STRICT_TIMESTAMPS] both set, the [EPERM] of
    [mknod] is still not reported: the function returns 0 and counts the
    file. *)
Lemma mknod_eperm_ignored_in_strict_mode :
  let s := example_strict_state in
  let '(r, s') :=
    unix_extract_if_empty_file true true example_d_inode example_dentry s in
  WIMLIB_EXTRACT_FLAG_STRICT_ACLS (extract_flags (common (ctx s))) = true /\
  WIMLIB_EXTRACT_FLAG_STRICT_TIMESTAMPS (extract_flags (common (ctx s)))
    = true /\
  is_error r = false /\
  num_special_files_ignored (ctx s') = 1 /\
  trace s' = [ Mknod "/mnt/null" 0x21b6 259;
               Warning "Can't create special file" "/mnt/null" ].
Proof. vm_compute. repeat split; reflexivity. Qed.

Lemma which_pathbuf_stays_valid_witness :
  valid_pathbuf_index
    (which_pathbuf
       (ctx (run_pathbuf_ops
               [ Build_extraction_path example_dentry; Reuse_pathbuf;
                 Reuse_pathbuf; Build_extraction_path example_root ]
               example_quiet_state).2)).
Proof.
  apply (which_pathbuf_stays_valid true true example_d_inode
           example_quiet_state).
  left. reflexivity.
Defined.

(** The three open files of the example are closed in order when the read
    of the stream failed. *)
Lemma end_extract_stream_closes_every_fd_witness :
  let '(r, s') :=
    unix_end_extract_stream true true 16384 example_stream WIMLIB_ERR_READ
      example_quiet_state in
  r = WIMLIB_ERR_READ /\
  trace s' = [Filedes_close 3; Filedes_close 4; Filedes_close 5].
Proof.
  pose proof (end_extract_stream_closes_every_fd true true 16384
                example_stream WIMLIB_ERR_READ example_quiet_state) as H.
  destruct (unix_end_extract_stream true true 16384 example_stream
              WIMLIB_ERR_READ example_quiet_state) as [r s'].
  destruct H as (_ & _ & H). destruct (H eq_refl) as [Hr Ht].
  split; [exact Hr | exact Ht].
Defined.

(** On the success path the file of the stream gets its metadata and is
    closed by the loop, the two other open files by the cleanup. *)
Example end_extract_stream_success_trace :
  let '(r, s') :=
    unix_end_extract_stream true true 16384 example_stream
      WIMLIB_ERR_SUCCESS example_quiet_state in
  r = WIMLIB_ERR_SUCCESS /\
  num_open_fds (ctx s') = 0 /\
  trace s' = [Futimens 3 0 0;
              Filedes_close 3; Filedes_close 4; Filedes_close 5].
Proof. vm_compute. repeat split; reflexivity. Qed.

(** A second failure of [mknod] after a successful [unlink] is retried; the
    third call succeeds. *)
Example mknod_is_retried_after_unlink :
  let eexist := {| a_ret := -1; a_errno := EEXIST;
                   a_status := WIMLIB_ERR_SUCCESS; a_aux := 0;
                   a_text := "" |} in
  let s := {| ctx := example_strict_ctx; errno := 0;
              oracle := [eexist; answer_ok; eexist; answer_ok];
              trace := [] |} in
  let '(_, s1) := unix_build_extraction_path example_dentry s in
  let '(r, s') :=
    retry (mknod_pass 0 {| uid := 0; gid := 0; mode := 0x21b6; rdev := 259 |})
          (Some WIMLIB_ERR_MKNOD) s1 in
  r = None /\
  trace s' = [ Mknod "/mnt/null" 0x21b6 259; Unlink "/mnt/null";
               Mknod "/mnt/null" 0x21b6 259; Unlink "/mnt/null";
               Mknod "/mnt/null" 0x21b6 259 ].
Proof. vm_compute. repeat split; reflexivity. Qed.

(** The file [unix_begin_extract_stream] opens for a stream is the one
    [unix_end_extract_stream] closes when the read of the stream fails. *)
Example begin_then_failed_end_closes_the_file :
  let '(r, s1) :=
    unix_begin_extract_stream 16384 true 4 example_stream
      example_fresh_state in
  let '(r', s2) :=
    unix_end_extract_stream true true 16384 example_stream WIMLIB_ERR_READ
      s1 in
  r = Begin_returns WIMLIB_ERR_SUCCESS /\
  open_fds (ctx s1) = [7; 4; 5; -1] /\ num_open_fds (ctx s1) = 1 /\
  r' = WIMLIB_ERR_READ /\ num_open_fds (ctx s2) = 0 /\
  trace s2 = [Open "/mnt/null"; Filedes_close 7].
Proof. vm_compute. repeat split; reflexivity. Qed.

End UnixExamples.

(* ===================================================================== *)
(** * Further properties                                                  *)
(* ===================================================================== *)

(* --------------------------------------------------------------------- *)
(** ** endianness.h                                                       *)
(* --------------------------------------------------------------------- *)

Section EndianMore.
Import Types Endian EndianSpec.

Lemma bswap16_involutive n : in_range 16 n -> bswap16 (bswap16 n) = n.
Proof.
  apply (byte_reversal_involutive 2 bswap16). intros; now apply bswap16_spec.
Qed.

Lemma bswap32_involutive gnuc n :
  in_range 32 n -> bswap32 gnuc (bswap32 gnuc n) = n.
Proof.
  apply (byte_reversal_involutive 4 (bswap32 gnuc)).
  intros; now apply bswap32_spec.
Qed.

Lemma bswap64_involutive gnuc n :
  in_range 64 n -> bswap64 gnuc (bswap64 gnuc n) = n.
Proof.
  apply (byte_reversal_involutive 8 (bswap64 gnuc)).
  intros; now apply bswap64_spec.
Qed.

(** A function that reverses bytes turns the number with bytes [rev l] into
    the number with bytes [l]. *)
Lemma byte_reversal_of_le_bytes (k : nat) (f : Z -> Z) (l : list Z) :
  (forall n, in_range (8 * Z.of_nat k) n ->
     in_range (8 * Z.of_nat k) (f n) /\ le_bytes k (f n) = rev (le_bytes k n)) ->
  length l = k -> Forall (in_range 8) l ->
  f (of_le_bytes (rev l)) = of_le_bytes l.
Proof.
  intros Hf Hlen Hl.
  assert (Forall (in_range 8) (rev l)) as Hrl by now apply Forall_rev.
  assert (in_range (8 * Z.of_nat k) (of_le_bytes (rev l))) as Hr.
  { rewrite <- Hlen, <- length_rev. now apply of_le_bytes_range. }
  destruct (Hf _ Hr) as [Hfr Hfb].
  apply (le_bytes_inj k); [exact Hfr | |].
  - rewrite <- Hlen. now apply of_le_bytes_range.
  - rewrite Hfb. rewrite <- Hlen at 1. rewrite <- (length_rev l) at 1.
    rewrite le_bytes_of_le_bytes by exact Hrl.
    rewrite rev_involutive. rewrite <- Hlen.
    now rewrite le_bytes_of_le_bytes.
Qed.

(** X1. Whatever the byte order of the host, the memory image of
    [cpu_to_leN n] is [n] least significant byte first and the memory image
    of [cpu_to_beN n] is [n] most significant byte first. *)
Theorem cpu_to_le_be_memory_image (WORDS_BIGENDIAN gnuc_4_3 : bool) (n : Z) :
  (in_range 16 n ->
     host_bytes WORDS_BIGENDIAN 2 (cpu_to_le16 WORDS_BIGENDIAN n)
       = le_bytes 2 n /\
     host_bytes WORDS_BIGENDIAN 2 (cpu_to_be16 WORDS_BIGENDIAN n)
       = rev (le_bytes 2 n)) /\
  (in_range 32 n ->
     host_bytes WORDS_BIGENDIAN 4 (cpu_to_le32 WORDS_BIGENDIAN gnuc_4_3 n)
       = le_bytes 4 n /\
     host_bytes WORDS_BIGENDIAN 4 (cpu_to_be32 WORDS_BIGENDIAN gnuc_4_3 n)
       = rev (le_bytes 4 n)) /\
  (in_range 64 n ->
     host_bytes WORDS_BIGENDIAN 8 (cpu_to_le64 WORDS_BIGENDIAN gnuc_4_3 n)
       = le_bytes 8 n /\
     host_bytes WORDS_BIGENDIAN 8 (cpu_to_be64 WORDS_BIGENDIAN gnuc_4_3 n)
       = rev (le_bytes 8 n)).
Proof.
  unfold host_bytes, cpu_to_le16, cpu_to_be16, cpu_to_le32, cpu_to_be32,
    cpu_to_le64, cpu_to_be64.
  split; [|split]; intros Hn.
  - destruct (bswap16_spec n Hn) as [_ Hb].
    destruct WORDS_BIGENDIAN; rewrite ?Hb, ?rev_involutive; auto.
  - destruct (bswap32_spec gnuc_4_3 n Hn) as [_ Hb].
    destruct WORDS_BIGENDIAN; rewrite ?Hb, ?rev_involutive; auto.
  - destruct (bswap64_spec gnuc_4_3 n Hn) as [_ Hb].
    destruct WORDS_BIGENDIAN; rewrite ?Hb, ?rev_involutive; auto.
Qed.

Lemma cpu_to_le_be_memory_image_witness :
  host_bytes true 4 (cpu_to_le32 true false 0x12345678)
  = [0x78; 0x56; 0x34; 0x12].
Proof.
  apply (proj1 (proj2 (cpu_to_le_be_memory_image true false 0x12345678))).
  unfold in_range; lia.
Defined.

(** X2. Whatever the byte order of the host, [leN_to_cpu] applied to the
    integer the host loads from [N/8] bytes of a file gives the number
    those bytes denote least significant byte first, and [beN_to_cpu]
    gives the number they denote most significant byte first. *)
Theorem le_be_to_cpu_of_memory
    (WORDS_BIGENDIAN gnuc_4_3 : bool) (l : list Z) :
  Forall (in_range 8) l ->
  (length l = 2%nat ->
     le16_to_cpu WORDS_BIGENDIAN (host_value WORDS_BIGENDIAN l)
       = of_le_bytes l /\
     be16_to_cpu WORDS_BIGENDIAN (host_value WORDS_BIGENDIAN l)
       = of_le_bytes (rev l)) /\
  (length l = 4%nat ->
     le32_to_cpu WORDS_BIGENDIAN gnuc_4_3 (host_value WORDS_BIGENDIAN l)
       = of_le_bytes l /\
     be32_to_cpu WORDS_BIGENDIAN gnuc_4_3 (host_value WORDS_BIGENDIAN l)
       = of_le_bytes (rev l)) /\
  (length l = 8%nat ->
     le64_to_cpu WORDS_BIGENDIAN gnuc_4_3 (host_value WORDS_BIGENDIAN l)
       = of_le_bytes l /\
     be64_to_cpu WORDS_BIGENDIAN gnuc_4_3 (host_value WORDS_BIGENDIAN l)
       = of_le_bytes (rev l)).
Proof.
  intros Hl.
  assert (Forall (in_range 8) (rev l)) as Hrl by now apply Forall_rev.
  unfold host_value, le16_to_cpu, be16_to_cpu, le32_to_cpu, be32_to_cpu,
    le64_to_cpu, be64_to_cpu.
  split; [|split]; intros Hlen.
  - pose proof (byte_reversal_of_le_bytes 2 bswap16) as H.
    destruct WORDS_BIGENDIAN; split; auto.
    + apply H; auto. intros; now apply bswap16_spec.
    + rewrite <- (rev_involutive l) at 1.
      apply H; auto; [intros; now apply bswap16_spec | now rewrite length_rev].
  - pose proof (byte_reversal_of_le_bytes 4 (bswap32 gnuc_4_3)) as H.
    destruct WORDS_BIGENDIAN; split; auto.
    + apply H; auto. intros; now apply bswap32_spec.
    + rewrite <- (rev_involutive l) at 1.
      apply H; auto; [intros; now apply bswap32_spec | now rewrite length_rev].
  - pose proof (byte_reversal_of_le_bytes 8 (bswap64 gnuc_4_3)) as H.
    destruct WORDS_BIGENDIAN; split; auto.
    + apply H; auto. intros; now apply bswap64_spec.
    + rewrite <- (rev_involutive l) at 1.
      apply H; auto; [intros; now apply bswap64_spec | now rewrite length_rev].
Qed.

Lemma le_be_to_cpu_of_memory_witness :
  le32_to_cpu true false (host_value true [0x78; 0x56; 0x34; 0x12])
  = 0x12345678.
Proof.
  refine (proj1 (proj1 (proj2
            (le_be_to_cpu_of_memory true false [0x78; 0x56; 0x34; 0x12] _))
            eq_refl)).
  repeat constructor; unfold in_range; lia.
Defined.

(** X3. [cpu_to_beN] and [beN_to_cpu] are inverses of each other on both
    kinds of host, and the big-endian form of a number is the byte swap of
    its little-endian form. *)
Theorem be_conversions_invert (WORDS_BIGENDIAN gnuc_4_3 : bool) (n : Z) :
  (in_range 16 n ->
     be16_to_cpu WORDS_BIGENDIAN (cpu_to_be16 WORDS_BIGENDIAN n) = n /\
     cpu_to_be16 WORDS_BIGENDIAN (be16_to_cpu WORDS_BIGENDIAN n) = n /\
     cpu_to_be16 WORDS_BIGENDIAN n
       = bswap16 (cpu_to_le16 WORDS_BIGENDIAN n)) /\
  (in_range 32 n ->
     be32_to_cpu WORDS_BIGENDIAN gnuc_4_3
       (cpu_to_be32 WORDS_BIGENDIAN gnuc_4_3 n) = n /\
     cpu_to_be32 WORDS_BIGENDIAN gnuc_4_3
       (be32_to_cpu WORDS_BIGENDIAN gnuc_4_3 n) = n /\
     cpu_to_be32 WORDS_BIGENDIAN gnuc_4_3 n
       = bswap32 gnuc_4_3 (cpu_to_le32 WORDS_BIGENDIAN gnuc_4_3 n)) /\
  (in_range 64 n ->
     be64_to_cpu WORDS_BIGENDIAN gnuc_4_3
       (cpu_to_be64 WORDS_BIGENDIAN gnuc_4_3 n) = n /\
     cpu_to_be64 WORDS_BIGENDIAN gnuc_4_3
       (be64_to_cpu WORDS_BIGENDIAN gnuc_4_3 n) = n /\
     cpu_to_be64 WORDS_BIGENDIAN gnuc_4_3 n
       = bswap64 gnuc_4_3 (cpu_to_le64 WORDS_BIGENDIAN gnuc_4_3 n)).
Proof.
  unfold be16_to_cpu, cpu_to_be16, cpu_to_le16, be32_to_cpu, cpu_to_be32,
    cpu_to_le32, be64_to_cpu, cpu_to_be64, cpu_to_le64.
  split; [|split]; intros Hn.
  - pose proof (bswap16_involutive n Hn).
    destruct WORDS_BIGENDIAN; auto.
  - pose proof (bswap32_involutive gnuc_4_3 n Hn).
    destruct WORDS_BIGENDIAN; auto.
  - pose proof (bswap64_involutive gnuc_4_3 n Hn).
    destruct WORDS_BIGENDIAN; auto.
Qed.

Lemma be_conversions_invert_witness :
  be16_to_cpu false (cpu_to_be16 false 0xABCD) = 0xABCD.
Proof.
  apply (proj1 (be_conversions_invert false false 0xABCD)).
  unfold in_range; lia.
Defined.

(** X4. The two branches of the preprocessor test in [bswap32] and
    [bswap64] compute the same function: the shift-and-mask formula equals
    the compiler builtin on every 32-bit and 64-bit number. *)
Theorem bswap_fallback_is_builtin (n : Z) :
  (in_range 32 n -> bswap32 false n = bswap32 true n) /\
  (in_range 64 n -> bswap64 false n = bswap64 true n).
Proof.
  split; intros Hn.
  - destruct (bswap32_spec false n Hn) as [R1 B1].
    destruct (bswap32_spec true n Hn) as [R2 B2].
    apply (le_bytes_inj 4); auto. congruence.
  - destruct (bswap64_spec false n Hn) as [R1 B1].
    destruct (bswap64_spec true n Hn) as [R2 B2].
    apply (le_bytes_inj 8); auto. congruence.
Qed.

Lemma bswap_fallback_is_builtin_witness :
  bswap64 false 0x0102030405060708 = bswap64 true 0x0102030405060708.
Proof.
  apply (proj2 (bswap_fallback_is_builtin 0x0102030405060708)).
  unfold in_range; lia.
Defined.

End EndianMore.

(* --------------------------------------------------------------------- *)
(** ** compress.c                                                         *)
(* --------------------------------------------------------------------- *)

Section CompressMoreFacts.
Import Types Wimlib Compress CompressSpec CompressMore Examples.
Variables xpress lzx lzms : compressor_ops.
Variable sizeof_c : Z.

Local Abbreviation valid := (compressor_ctype_valid xpress lzx lzms).
Local Abbreviation create := (wimlib_create_compressor xpress lzx lzms).
Local Abbreviation set_default :=
  (wimlib_set_default_compression_level xpress lzx lzms).

(** X5. [wimlib_create_compressor] either succeeds or leaves everything as
    it was: whenever it returns an error code, no compressor stays
    allocated, the variable behind [c_ret] is not written and the default
    levels are unchanged. *)
Theorem create_compressor_failure_changes_nothing
    (malloc_ok : bool) (ctype mbs level : Z) (c_ret : option nat)
    (s : state) :
  is_error (create malloc_ok ctype mbs level c_ret s).1 = true ->
  (create malloc_ok ctype mbs level c_ret s).2 = s.
Proof.
  unfold wimlib_create_compressor, MALLOC.
  destruct c_ret as [cr|]; [|reflexivity].
  destruct (mbs =? 0); [reflexivity|].
  destruct (valid ctype); cbn [negb]; [|reflexivity].
  destruct malloc_ok; [|reflexivity].
  destruct (ops_of xpress lzx lzms ctype) as [o|]; [|reflexivity].
  destruct (create_compressor o) as [f|]; [|discriminate].
  destruct (f mbs _) as [r priv].
  destruct (is_error r) eqn:E; cbn [fst snd]; [|discriminate].
  intros _. apply free_after_alloc.
Qed.

(** X6. When [wimlib_create_compressor] returns 0, its arguments were
    valid, exactly one object has been allocated, at an address that was
    free, holding the table entry of the compression type, the type and the
    block size; the variable behind [c_ret] points to it; every other
    object and variable and the default levels are as before. *)
Theorem create_compressor_success
    (malloc_ok : bool) (ctype mbs level : Z) (c_ret : option nat)
    (s : state) :
  (create malloc_ok ctype mbs level c_ret s).1 = WIMLIB_ERR_SUCCESS ->
  let s' := (create malloc_ok ctype mbs level c_ret s).2 in
  exists cr c obj,
    c_ret = Some cr /\ mbs <> 0 /\ valid ctype = true /\
    heap s !! c = None /\
    heap s' = <[c := obj]> (heap s) /\
    vars s' = <[cr := Some c]> (vars s) /\
    default_compression_levels s' = default_compression_levels s /\
    Some (ops obj) = ops_of xpress lzx lzms ctype /\
    Compress.ctype obj = ctype /\ max_block_size obj = mbs /\
    (forall a, a <> c -> heap s' !! a = heap s !! a) /\
    (forall v, v <> cr -> vars s' !! v = vars s !! v).
Proof.
  unfold wimlib_create_compressor, MALLOC.
  destruct c_ret as [cr|]; [|discriminate].
  destruct (Z.eqb_spec mbs 0) as [|Hm]; [discriminate|].
  destruct (valid ctype) eqn:Hv; cbn [negb]; [|discriminate].
  destruct malloc_ok; [|discriminate].
  destruct (ops_of xpress lzx lzms ctype) as [o|] eqn:Ho; [|discriminate].
  pose proof (fresh_not_allocated s) as Hfresh.
  set (c := fresh (dom (heap s))) in *.
  destruct (create_compressor o) as [f|].
  - destruct (f mbs _) as [r priv].
    destruct (is_error r) eqn:E; cbn [fst snd].
    + intros ->. discriminate.
    + intros _. cbn.
      exists cr, c,
        {| ops := o; private := priv; ctype := ctype; max_block_size := mbs |}.
      rewrite insert_insert_eq.
      repeat split; auto; intros; now rewrite lookup_insert_ne.
  - intros _. cbn.
    exists cr, c,
      {| ops := o; private := 0; ctype := ctype; max_block_size := mbs |}.
    repeat split; auto; intros; now rewrite lookup_insert_ne.
Qed.

Lemma create_compressor_stores
    (malloc_ok : bool) (ctype mbs level : Z) (cr : nat) (s : state) :
  (create malloc_ok ctype mbs level (Some cr) s).1 = WIMLIB_ERR_SUCCESS ->
  let s' := (create malloc_ok ctype mbs level (Some cr) s).2 in
  exists c obj o,
    ops_of xpress lzx lzms ctype = Some o /\
    heap s !! c = None /\
    heap s' = <[c := obj]> (heap s) /\
    vars s' = <[cr := Some c]> (vars s) /\
    default_compression_levels s' = default_compression_levels s /\
    ops obj = o /\
    private obj =
      match create_compressor o with
      | Some f => (f mbs (level_or_default ctype level s)).2
      | None => 0
      end.
Proof.
  unfold wimlib_create_compressor, MALLOC.
  destruct (Z.eqb_spec mbs 0) as [|Hm]; [discriminate|].
  destruct (valid ctype) eqn:Hv; cbn [negb]; [|discriminate].
  destruct malloc_ok; [|discriminate].
  destruct (ops_of xpress lzx lzms ctype) as [o|] eqn:Ho; [|discriminate].
  pose proof (fresh_not_allocated s) as Hfresh.
  set (c := fresh (dom (heap s))) in *.
  destruct (create_compressor o) as [f|] eqn:Hc.
  - change (level_or_default ctype level (set_heap _ s))
      with (level_or_default ctype level s).
    destruct (f mbs _) as [r priv] eqn:Hf.
    destruct (is_error r) eqn:E; cbn [fst snd].
    + intros ->. discriminate.
    + intros _. cbn.
      exists c,
        {| ops := o; private := priv; ctype := ctype; max_block_size := mbs |},
        o.
      rewrite insert_insert_eq, Hc. repeat split; auto.
      now rewrite Hf.
  - intros _. cbn.
    exists c,
      {| ops := o; private := 0; ctype := ctype; max_block_size := mbs |}, o.
    rewrite Hc. repeat split; auto.
Qed.

(** X7. Freeing the compressor a successful [wimlib_create_compressor]
    stored behind [c_ret] gives back the heap of before the creation, and
    hands to the codec's [free_compressor], if the codec has one, exactly
    what the codec's [create_compressor] stored in [c->private] (a null
    pointer if the codec has no [create_compressor]); without a
    [free_compressor] no call is made.  Freeing a null pointer changes
    nothing and calls nothing. *)
Theorem create_then_free_restores_heap
    (malloc_ok : bool) (ctype mbs level : Z) (cr : nat) (s : state) :
  (create malloc_ok ctype mbs level (Some cr) s).1 = WIMLIB_ERR_SUCCESS ->
  let s' := (create malloc_ok ctype mbs level (Some cr) s).2 in
  (exists c o s'',
     vars s' !! cr = Some (Some c) /\
     ops_of xpress lzx lzms ctype = Some o /\
     wimlib_free_compressor (Some c) s' =
       Some (s'',
             match free_compressor o with
             | Some _ =>
                 [match create_compressor o with
                  | Some f => (f mbs (level_or_default ctype level s)).2
                  | None => 0
                  end]
             | None => []
             end) /\
     heap s'' = heap s /\
     default_compression_levels s'' = default_compression_levels s /\
     vars s'' = vars s') /\
  wimlib_free_compressor None s' = Some (s', []).
Proof.
  intros H.
  destruct (create_compressor_stores malloc_ok ctype mbs level cr s H)
    as (c & obj & o & Ho & Hfree & Hheap & Hvars & Hlev & Hops & Hpriv).
  cbn zeta. split; [|reflexivity].
  exists c, o. eexists.
  rewrite Hvars, lookup_insert_eq. split; [reflexivity|].
  split; [exact Ho|].
  unfold wimlib_free_compressor.
  rewrite Hheap, lookup_insert_eq, Hops, Hpriv.
  split; [reflexivity|]. unfold set_heap.
  cbn [heap default_compression_levels vars].
  rewrite delete_insert_eq, delete_id by exact Hfree.
  repeat split; [exact Hlev | exact Hvars].
Qed.


Lemma set_default_one_call (ct level : Z) (s : state) (ctype : Z) :
  length (default_compression_levels s) = 4%nat ->
  valid ctype = true ->
  let s1 := (set_default ct level s).2 in
  length (default_compression_levels s1) = 4%nat /\
  heap s1 = heap s /\ vars s1 = vars s /\
  stored_default s1 ctype =
    if (ct =? -1) || (ct =? ctype) then level else stored_default s ctype.
Proof.
  intros Hlen Hv. cbn zeta.
  destruct (ctype_valid_ops xpress lzx lzms ctype Hv) as (o & Ho & Hr).
  unfold wimlib_set_default_compression_level, stored_default.
  destruct (Z.eqb_spec ct (-1)) as [-> | Hn1]; cbn [orb].
  - cbn. rewrite set_all_levels, length_replicate.
    repeat split; auto. now rewrite lookup_replicate_2 by lia.
  - destruct (compressor_ctype_valid xpress lzx lzms ct) eqn:Hvc;
      cbn [negb snd].
    + cbn. rewrite length_insert. repeat split; auto.
      destruct (Z.eqb_spec ct ctype) as [-> | Hne].
      * now rewrite list_lookup_insert_eq by lia.
      * rewrite list_lookup_insert_ne; [reflexivity|].
        apply ctype_valid_iff in Hv, Hvc. lia.
    + repeat split; auto.
      destruct (Z.eqb_spec ct ctype) as [-> | Hne]; [congruence | reflexivity].
Qed.

(** X8. Through any sequence of calls of
    [wimlib_set_default_compression_level], valid or not, the array keeps
    its four entries, no compressor or variable is touched, and the default
    stored for a codec type is the level of the last call that named that
    type or -1 (the value of before, when there is no such call). *)
Theorem default_levels_last_write_wins (calls : list (Z * Z)) (s : state) :
  length (default_compression_levels s) = 4%nat ->
  let s' := run_set_default_calls xpress lzx lzms calls s in
  length (default_compression_levels s') = 4%nat /\
  heap s' = heap s /\ vars s' = vars s /\
  forall ctype, valid ctype = true ->
    stored_default s' ctype =
    last_level_set ctype calls (stored_default s ctype).
Proof.
  revert s. induction calls as [|[ct level] calls IH]; intros s Hlen.
  - cbn. auto.
  - cbn [run_set_default_calls]. cbn zeta.
    pose proof (fun ctype Hv => set_default_one_call ct level s ctype Hlen Hv)
      as H1.
    destruct (H1 1 eq_refl) as (Hlen1 & Hh1 & Hv1 & _).
    destruct (IH _ Hlen1) as (Hlen' & Hh' & Hv' & Hs').
    split; [exact Hlen'|]. split; [congruence|]. split; [congruence|].
    intros ctype Hv. rewrite (Hs' ctype Hv).
    destruct (H1 ctype Hv) as (_ & _ & _ & ->). reflexivity.
Qed.

(** X9. [wimlib_get_compressor_needed_memory] returns 0 for a compression
    type that is not supported; for a supported one it returns the size of
    the compressor structure, plus what the codec asks for when it has a
    [get_needed_memory].  A level other than 0 reaches the codec as it is,
    whatever defaults are stored, here and in [wimlib_create_compressor]. *)
Theorem needed_memory_and_explicit_level
    (ctype mbs level : Z) (s : state) :
  (valid ctype = false ->
   wimlib_get_compressor_needed_memory xpress lzx lzms sizeof_c
     ctype mbs level s = 0) /\
  (forall o, valid ctype = true -> ops_of xpress lzx lzms ctype = Some o ->
     (get_needed_memory o = None ->
      wimlib_get_compressor_needed_memory xpress lzx lzms sizeof_c
        ctype mbs level s = sizeof_c) /\
     (forall f, get_needed_memory o = Some f -> level <> 0 ->
        wimlib_get_compressor_needed_memory xpress lzx lzms sizeof_c
          ctype mbs level s = u64 (sizeof_c + f mbs level)) /\
     (forall f cr, create_compressor o = Some f -> level <> 0 -> mbs <> 0 ->
        let result := f mbs level in
        let c := fresh (dom (heap s)) in
        create true ctype mbs level (Some cr) s =
        if is_error result.1 then (result.1, s)
        else
          (WIMLIB_ERR_SUCCESS,
           {| default_compression_levels := default_compression_levels s;
              heap := <[c := {| ops := o; private := result.2;
                                ctype := ctype; max_block_size := mbs |}]>
                        (heap s);
              vars := <[cr := Some c]> (vars s) |}))).
Proof.
  split.
  - intros Hv. unfold wimlib_get_compressor_needed_memory. now rewrite Hv.
  - intros o Hv Ho.
    assert (level <> 0 -> forall s0, level_or_default ctype level s0 = level)
      as Hl.
    { intros Hn s0. unfold level_or_default. apply Z.eqb_neq in Hn.
      now rewrite Hn, Hn. }
    split; [|split].
    + intros Hf. unfold wimlib_get_compressor_needed_memory.
      now rewrite Hv, Ho, Hf.
    + intros f Hf Hn. unfold wimlib_get_compressor_needed_memory.
      now rewrite Hv, Ho, Hf, Hl.
    + intros f cr Hf Hn Hm. cbn zeta.
      unfold wimlib_create_compressor, MALLOC.
      apply Z.eqb_neq in Hm. rewrite Hm, Hv, Ho, Hf. cbn.
      rewrite Hl by exact Hn.
      destruct (f mbs level) as [r priv]. cbn.
      destruct (is_error r).
      * f_equal. apply free_after_alloc.
      * unfold set_vars, set_heap. cbn. now rewrite insert_insert_eq.
Qed.

Section Verification.
Variables ENABLE_ASSERTIONS : bool.
Variable create_decompressor : Z -> Z -> wimlib_error_code * Z.
Variable decompress : list Z -> Z -> Z -> Z -> Z * list Z.

(** X10. In a build that verifies compression, when the buffer and the
    decompressor are obtained and the decompressor succeeds and gives back
    the first [uncompressed_size] bytes of the input, [wimlib_compress]
    returns the codec's size, prints nothing and leaves the codec's output
    in the output buffer. *)
Theorem compress_verified_round_trip
    (data : list Z) (size avail : Z) (c : wimlib_compressor) :
  size <= max_block_size c ->
  (Z.to_nat size <= length data)%nat ->
  let '(csize, cdata) := compress (ops c) data size avail (private c) in
  let '(res, d) := create_decompressor (ctype c) (max_block_size c) in
  let '(res2, buf) := decompress cdata csize size d in
  csize <> 0 -> is_error res = false -> res2 = 0 ->
  (Z.to_nat size <= length buf)%nat ->
  take (Z.to_nat size) buf = take (Z.to_nat size) data ->
  wimlib_compress ENABLE_ASSERTIONS true create_decompressor decompress
    true data size avail c
  = {| returned := Returns csize; compressed_data := cdata;
       messages := [] |}.
Proof.
  intros Hpre Hdata. unfold wimlib_compress.
  apply Z.leb_le in Hpre. rewrite Hpre. cbn [negb]. rewrite andb_false_r.
  destruct (compress (ops c) data size avail (private c)) as [csize cdata].
  destruct (create_decompressor (ctype c) (max_block_size c)) as [res d].
  destruct (decompress cdata csize size d) as [res2 buf].
  intros Hcs Hres -> Hbuf Heq.
  apply Z.eqb_neq in Hcs. rewrite Hcs, Hres. cbn.
  assert (memcmp data buf (Z.to_nat size) = 0) as ->
    by (apply memcmp_zero_iff; auto).
  reflexivity.
Qed.

(** X11. With assertions enabled, a block larger than [max_block_size]
    ends the process before the codec is run.  With assertions and
    verification disabled the size is not looked at: the codec's result is
    returned as it is. *)
Theorem compress_block_size_assertion
    (verify malloc_ok : bool) (data : list Z) (size avail : Z)
    (c : wimlib_compressor) :
  (max_block_size c < size ->
   wimlib_compress true verify create_decompressor decompress
     malloc_ok data size avail c
   = {| returned := Aborts; compressed_data := []; messages := [] |}) /\
  wimlib_compress false false create_decompressor decompress
    malloc_ok data size avail c
  = {| returned :=
         Returns (compress (ops c) data size avail (private c)).1;
       compressed_data := (compress (ops c) data size avail (private c)).2;
       messages := [] |}.
Proof.
  unfold wimlib_compress. split.
  - intros H. apply Z.leb_gt in H. now rewrite H.
  - cbn. now destruct (compress (ops c) data size avail (private c)).
Qed.

End Verification.

End CompressMoreFacts.

Section CompressMoreExamples.
Import Types Wimlib Compress CompressSpec CompressMore Examples MoreExamples.

Lemma create_compressor_failure_changes_nothing_witness :
  (wimlib_create_compressor example_ops example_ops_create example_ops
     true 2 32768 0 (Some 7%nat) example_state).2 = example_state.
Proof.
  apply (create_compressor_failure_changes_nothing example_ops
           example_ops_create example_ops).
  reflexivity.
Defined.

Lemma create_compressor_success_witness :
  exists cr c obj,
    Some 7%nat = Some cr /\ 32768 <> 0 /\
    compressor_ctype_valid example_ops example_ops_create example_ops 1
      = true /\
    heap example_state !! c = None /\
    heap (wimlib_create_compressor example_ops example_ops_create
            example_ops true 1 32768 0 (Some 7%nat) example_state).2
      = <[c := obj]> (heap example_state) /\
    vars (wimlib_create_compressor example_ops example_ops_create
            example_ops true 1 32768 0 (Some 7%nat) example_state).2
      = <[cr := Some c]> (vars example_state).
Proof.
  destruct (create_compressor_success example_ops example_ops_create
              example_ops true 1 32768 0 (Some 7%nat) example_state
              eq_refl)
    as (cr & c & obj & H1 & H2 & H3 & H4 & H5 & H6 & _).
  exists cr, c, obj. repeat split; assumption.
Defined.

(** The codec of the example stores the level, 50, as its private data and
    has a [free_compressor]: that is what the free hands back to it. *)
Lemma create_then_free_restores_heap_witness :
  exists c s'',
    vars (wimlib_create_compressor example_ops_free example_ops
            example_ops true 1 32768 0 (Some 7%nat) example_state).2
      !! 7%nat = Some (Some c) /\
    wimlib_free_compressor (Some c)
      (wimlib_create_compressor example_ops_free example_ops
         example_ops true 1 32768 0 (Some 7%nat) example_state).2
      = Some (s'', [50]) /\
    heap s'' = heap example_state.
Proof.
  destruct (proj1 (create_then_free_restores_heap example_ops_free
                     example_ops example_ops true 1 32768 0 7%nat
                     example_state eq_refl))
    as (c & o & s'' & H1 & H2 & H3 & H4 & _).
  exists c, s''. split; [exact H1|]. split; [|exact H4].
  injection H2 as <-. exact H3.
Defined.

(** LZX gets 80 from the call for every type, then the later call for LZX
    alone sets 20; the call with the unsupported type 9 changes nothing. *)
Lemma default_levels_last_write_wins_witness :
  stored_default
    (run_set_default_calls example_ops example_ops_create example_ops
       [(-1, 80); (2, 20); (9, 99); (1, 30)] example_state) 2
  = 20.
Proof.
  apply (default_levels_last_write_wins example_ops example_ops_create
           example_ops [(-1, 80); (2, 20); (9, 99); (1, 30)] example_state
           eq_refl).
  reflexivity.
Defined.

Lemma needed_memory_and_explicit_level_witness :
  wimlib_get_compressor_needed_memory example_ops example_ops_create
    example_ops 32 2 1000 70 example_state = 70032.
Proof.
  refine (proj1 (proj2 (proj2 (needed_memory_and_explicit_level example_ops
                  example_ops_create example_ops 32 2 1000 70 example_state)
            example_ops_create eq_refl eq_refl))
            (fun mbs level => mbs * level) eq_refl _).
  lia.
Defined.

Lemma compress_verified_round_trip_witness :
  wimlib_compress false true example_create_decompressor
    example_good_decompress true [1; 2; 3] 3 2 example_compressor
  = {| returned := Returns 1; compressed_data := [0]; messages := [] |}.
Proof.
  refine (compress_verified_round_trip false example_create_decompressor
            example_good_decompress [1; 2; 3] 3 2 example_compressor
            _ _ _ eq_refl eq_refl _ eq_refl).
  - cbn. lia.
  - cbn. lia.
  - lia.
  - cbn. lia.
Defined.

Lemma compress_block_size_assertion_witness :
  wimlib_compress true false example_create_decompressor
    example_failing_decompress true [1; 2; 3] 40000 2 example_compressor
  = {| returned := Aborts; compressed_data := []; messages := [] |}.
Proof.
  apply (compress_block_size_assertion example_create_decompressor
           example_failing_decompress false true [1; 2; 3] 40000 2
           example_compressor).
  cbn. lia.
Defined.

End CompressMoreExamples.

(* --------------------------------------------------------------------- *)
(** ** unix_apply.c                                                       *)
(* --------------------------------------------------------------------- *)

Section UnixPaths.
Import Types Wimlib UnixApply UnixApplySpec UnixApplyMore.

Lemma substring_length_le (n : nat) (s : string) :
  (String.length (substring 0 n s) <= n)%nat.
Proof.
  revert s. induction n as [|n IH]; intros [|c s]; cbn; try lia.
  specialize (IH s). lia.
Qed.


Lemma path_length_fold_ge (l : list wim_dentry) (init : Z) :
  init <= foldl (fun max dentry =>
                   let len := unix_dentry_path_length dentry in
                   if max <? len then len else max) init l /\
  forall d, In d l ->
    unix_dentry_path_length d <=
    foldl (fun max dentry =>
             let len := unix_dentry_path_length dentry in
             if max <? len then len else max) init l.
Proof.
  revert init. induction l as [|x l IH]; intros init; simpl foldl.
  - split; [lia | intros d []].
  - match goal with
    | |- _ <= foldl _ ?acc _ /\ _ =>
        destruct (IH acc) as [H1 H2];
        assert (init <= acc /\ unix_dentry_path_length x <= acc) as [H3 H4]
          by (cbv zeta;
              destruct (Z.ltb_spec init (unix_dentry_path_length x)); lia)
    end.
    split.
    + eapply Z.le_trans; [exact H3 | exact H1].
    + intros d [<- | Hd]; [|now apply H2].
      eapply Z.le_trans; [exact H4 | exact H1].
Qed.

Lemma path_length_fold_in (l : list wim_dentry) (init : Z) :
  let m := foldl (fun max dentry =>
                    let len := unix_dentry_path_length dentry in
                    if max <? len then len else max) init l in
  m = init \/ exists d, In d l /\ m = unix_dentry_path_length d.
Proof.
  revert init. induction l as [|x l IH]; intros init; simpl foldl.
  - now left.
  - cbv zeta in *.
    match goal with
    | |- foldl _ ?acc _ = _ \/ _ =>
        destruct (IH acc) as [H | (d & Hd & H)]
    end.
    + rewrite H. destruct (init <? unix_dentry_path_length x).
      * right. exists x. split; [now left | reflexivity].
      * now left.
    + right. exists d. split; [now right | exact H].
Qed.

Lemma path_length_no_wrap (d : wim_dentry) (n : Z) :
  0 <= n ->
  n + Z.of_nat (String.length (extraction_path_tail d)) + 1 < 2 ^ 64 ->
  unix_dentry_path_length d =
  Z.of_nat (String.length (extraction_path_tail d)).
Proof.
  intros Hn Hfit. rewrite <- extraction_path_tail_length.
  unfold size_t, wrap. apply Z.mod_small. lia.
Qed.

(** X12. As long as no path, with the target in front and its terminator,
    reaches 2^64 characters, so that the [size_t] sums do not wrap, the
    size [unix_compute_path_max] computes is enough for every dentry of the
    list: the path [unix_build_extraction_path] leaves in the buffer, with
    its terminator, is at most that long; for the empty list the size is
    that of the target and the terminator. *)
Theorem path_max_bounds_every_path
    (dentry_list : list wim_dentry) (dentry : wim_dentry) (s : state) :
  In dentry dentry_list ->
  0 <= target_nchars (common (ctx s)) ->
  (forall d, In d dentry_list ->
     target_nchars (common (ctx s)) +
     Z.of_nat (String.length (extraction_path_tail d)) + 1 < 2 ^ 64) ->
  let path_max := unix_compute_path_max dentry_list (ctx s) in
  let '(i, s') := unix_build_extraction_path dentry s in
  (forall p, pathbufs (ctx s') !! i = Some p ->
     Z.of_nat (String.length p) + 1 <= path_max) /\
  target_nchars (common (ctx s)) + unix_dentry_path_length dentry + 1
    <= path_max /\
  unix_compute_path_max [] (ctx s) = target_nchars (common (ctx s)) + 1.
Proof.
  intros Hin H0 Hfit. cbn zeta.
  destruct (path_length_fold_ge dentry_list 0) as [Hm0 Hge].
  specialize (Hge dentry Hin).
  pose proof (path_length_fold_in dentry_list 0) as Hmax. cbv zeta in Hmax.
  pose proof (path_length_no_wrap dentry _ H0 (Hfit dentry Hin)) as Hlen.
  pose proof (Hfit dentry Hin) as Hfd.
  unfold unix_compute_path_max.
  set (m := foldl _ 0 dentry_list) in *.
  assert (target_nchars (common (ctx s)) + m + 1 < 2 ^ 64) as Hsmall.
  { destruct Hmax as [-> | (d & Hd & ->)]; [lia|].
    rewrite (path_length_no_wrap d _ H0 (Hfit d Hd)). now apply Hfit. }
  clearbody m.
  assert (size_t (target_nchars (common (ctx s)) + m + 1) =
          target_nchars (common (ctx s)) + m + 1) as ->
    by (unfold size_t, wrap; apply Z.mod_small; lia).
  assert (size_t (target_nchars (common (ctx s)) + 0 + 1) =
          target_nchars (common (ctx s)) + 1) as H1.
  { unfold size_t, wrap. rewrite Z.add_0_r. apply Z.mod_small. lia. }
  cbn.
  split; [|split; [lia | exact H1]].
  intros p Hp.
  destruct (decide (Z.to_nat (which_pathbuf (ctx s))
                    < length (pathbufs (ctx s)))%nat) as [Hlt | Hnlt].
  - rewrite list_lookup_insert_eq in Hp by exact Hlt.
    injection Hp as <-.
    rewrite string_length_append, Nat2Z.inj_add.
    pose proof (substring_length_le
                  (Z.to_nat (target_nchars (common (ctx s))))
                  (default EmptyString
                     (pathbufs (ctx s) !! Z.to_nat (which_pathbuf (ctx s))))).
    lia.
  - rewrite list_insert_ge in Hp by lia.
    apply lookup_lt_Some in Hp. lia.
Qed.


End UnixPaths.

Section HoareRules.
Import Types Wimlib UnixApply UnixApplySpec UnixApplyMore.
Context (E : event -> Prop).

Lemma hoare_ret {A} (P : unix_apply_ctx -> Prop) (a : A)
    (Q : A -> unix_apply_ctx -> Prop) :
  (forall c, P c -> Q a c) -> hoare P E (ret a) Q.
Proof.
  intros H s HP. split; [now apply H|]. exists []. cbn.
  split; [now rewrite app_nil_r | constructor].
Qed.

Lemma hoare_bind {A B} (P : unix_apply_ctx -> Prop) (m : M A) (k : A -> M B)
    (R : A -> unix_apply_ctx -> Prop) (Q : B -> unix_apply_ctx -> Prop) :
  hoare P E m R -> (forall a, hoare (R a) E (k a) Q) ->
  hoare P E (bind m k) Q.
Proof.
  intros Hm Hk s HP. unfold bind.
  destruct (Hm s HP) as (HR & t & Ht & HE).
  destruct (m s) as [a s1]. cbn [fst snd] in *.
  destruct (Hk a s1 HR) as (HQ & t' & Ht' & HE').
  split; [exact HQ|]. exists (t ++ t').
  split; [rewrite Ht', Ht; now rewrite app_assoc | now apply Forall_app].
Qed.

Lemma hoare_conseq {A} (P P' : unix_apply_ctx -> Prop) (m : M A)
    (Q Q' : A -> unix_apply_ctx -> Prop) :
  hoare P E m Q -> (forall c, P' c -> P c) ->
  (forall a c, Q a c -> Q' a c) -> hoare P' E m Q'.
Proof.
  intros H HP HQ s Hs. destruct (H s (HP _ Hs)) as (Hq & Ht).
  split; [now apply HQ | exact Ht].
Qed.



Lemma hoare_get_ctx (P : unix_apply_ctx -> Prop) :
  hoare P E get_ctx (fun a c => a = c /\ P c).
Proof.
  intros s HP. split; [now split|]. exists []. cbn.
  split; [now rewrite app_nil_r | constructor].
Qed.

Lemma hoare_modify_ctx (P : unix_apply_ctx -> Prop) f :
  hoare P E (modify_ctx f) (fun _ c' => exists c, P c /\ c' = f c).
Proof.
  intros s HP. split; [now exists (ctx s)|]. exists []. cbn.
  split; [now rewrite app_nil_r | constructor].
Qed.

Lemma hoare_get_errno (P : unix_apply_ctx -> Prop) :
  hoare P E get_errno (fun _ c => P c).
Proof.
  intros s HP. split; [exact HP|]. exists []. cbn.
  split; [now rewrite app_nil_r | constructor].
Qed.

Lemma hoare_set_errno (P : unix_apply_ctx -> Prop) e :
  hoare P E (set_errno e) (fun _ c => P c).
Proof.
  intros s HP. split; [exact HP|]. exists []. cbn.
  split; [now rewrite app_nil_r | constructor].
Qed.

Lemma hoare_emit (P : unix_apply_ctx -> Prop) e :
  E e -> hoare P E (emit e) (fun _ c => P c).
Proof.
  intros He s HP. split; [exact HP|]. exists [e]. cbn.
  split; [reflexivity | now repeat constructor].
Qed.

Lemma hoare_next_answer (P : unix_apply_ctx -> Prop) :
  hoare P E next_answer (fun _ c => P c).
Proof.
  intros s HP. unfold next_answer. destruct (oracle s); cbn.
  - split; [exact HP|]. exists [].
    split; [now rewrite app_nil_r | constructor].
  - split; [exact HP|]. exists [].
    split; [now rewrite app_nil_r | constructor].
Qed.

Lemma hoare_extern (P : unix_apply_ctx -> Prop) e :
  E e -> hoare P E (extern e) (fun _ c => P c).
Proof.
  intros He. unfold extern. eapply hoare_bind; [now apply hoare_emit|].
  intros ?. apply hoare_next_answer.
Qed.

Lemma hoare_syscall (P : unix_apply_ctx -> Prop) e :
  E e -> hoare P E (syscall e) (fun _ c => P c).
Proof.
  intros He. unfold syscall. eapply hoare_bind; [now apply hoare_extern|].
  intros a. eapply hoare_bind.
  - destruct (a_ret a <? 0); [apply hoare_set_errno | now apply hoare_ret].
  - intros ?. now apply hoare_ret.
Qed.

Lemma hoare_path_at (P : unix_apply_ctx -> Prop) p :
  hoare P E (path_at p)
    (fun fp c =>
       P c /\ fp = default EmptyString (p ≫= fun i => pathbufs c !! i)).
Proof.
  unfold path_at. eapply hoare_bind; [apply hoare_get_ctx|].
  intros c. apply hoare_ret. intros c' [Heq HP]. subst. now split.
Qed.

Lemma hoare_warning (P : unix_apply_ctx -> Prop) text p :
  (forall x, E (Warning text x)) ->
  hoare P E (warning text p) (fun _ c => P c).
Proof.
  intros He. unfold warning. eapply hoare_bind; [apply hoare_path_at|].
  intros fp. eapply hoare_conseq with (P := P);
    [apply hoare_emit, He | intros c [H _]; exact H | auto].
Qed.

Lemma hoare_error (P : unix_apply_ctx -> Prop) text p :
  (forall x, E (Error text x)) ->
  hoare P E (error text p) (fun _ c => P c).
Proof.
  intros He. unfold error. eapply hoare_bind; [apply hoare_path_at|].
  intros fp. eapply hoare_conseq with (P := P);
    [apply hoare_emit, He | intros c [H _]; exact H | auto].
Qed.

Lemma hoare_retry {A} (P : unix_apply_ctx -> Prop) (body : M (pass A))
    (dflt : A) (Q : A -> unix_apply_ctx -> Prop) :
  hoare P E body
    (fun r c => match r with Done a => Q a c | Again => P c end) ->
  (forall c, P c -> Q dflt c) ->
  hoare P E (retry body dflt) Q.
Proof.
  intros Hb Hd s. unfold retry. generalize (length (oracle s)) as fuel.
  intros fuel. revert s. induction fuel as [|fuel IH]; intros s HP;
    cbn [retry_n]; unfold bind;
    destruct (Hb s HP) as (HQ & t & Ht & HE);
    destruct (body s) as [[a|] s1]; cbn [fst snd] in *.
  - split; [exact HQ | eauto].
  - split; [now apply Hd | eauto].
  - split; [exact HQ | eauto].
  - destruct (IH s1 HQ) as (HQ' & t' & Ht' & HE').
    split; [exact HQ'|]. exists (t ++ t').
    split; [rewrite Ht', Ht; now rewrite app_assoc | now apply Forall_app].
Qed.

End HoareRules.

Section KeepsRules.
Import Types Wimlib UnixApply UnixApplySpec UnixApplyMore.
Context (P : unix_apply_ctx -> Prop) (E : event -> Prop).

Lemma keeps_ret {A} (a : A) (phi : A -> Prop) :
  phi a -> keeps P E (ret a) phi.
Proof. intros H. apply hoare_ret. now split. Qed.

Lemma keeps_bind {A B} (m : M A) (k : A -> M B)
    (psi : A -> Prop) (phi : B -> Prop) :
  keeps P E m psi -> (forall a, psi a -> keeps P E (k a) phi) ->
  keeps P E (bind m k) phi.
Proof.
  intros Hm Hk. eapply hoare_bind; [exact Hm|].
  intros a. unfold hoare. intros s [HP Hpsi]. exact (Hk a Hpsi s HP).
Qed.

Lemma keeps_weaken {A} (m : M A) (psi phi : A -> Prop) :
  keeps P E m psi -> (forall a, psi a -> phi a) -> keeps P E m phi.
Proof.
  intros H Hw. eapply hoare_conseq with (P := P); [exact H | auto |].
  intros a c [HP Hpsi]. auto.
Qed.

Lemma keeps_get_ctx : keeps P E get_ctx P.
Proof.
  eapply hoare_conseq with (P := P); [apply hoare_get_ctx | auto |].
  intros a c [-> HP]. now split.
Qed.

Lemma keeps_modify_ctx f :
  (forall c, P c -> P (f c)) -> keeps P E (modify_ctx f) (fun _ => True).
Proof.
  intros Hf. eapply hoare_conseq with (P := P); [apply hoare_modify_ctx | auto |].
  intros a c (c0 & HP & ->). split; auto.
Qed.

Lemma keeps_get_errno : keeps P E get_errno (fun _ => True).
Proof. eapply hoare_conseq with (P := P); [apply hoare_get_errno | auto | cbn; auto]. Qed.

Lemma keeps_set_errno e : keeps P E (set_errno e) (fun _ => True).
Proof. eapply hoare_conseq with (P := P); [apply hoare_set_errno | auto | cbn; auto]. Qed.

Lemma keeps_emit e : E e -> keeps P E (emit e) (fun _ => True).
Proof.
  intros He. eapply hoare_conseq with (P := P); [now apply hoare_emit | auto | cbn; auto].
Qed.

Lemma keeps_extern e : E e -> keeps P E (extern e) (fun _ => True).
Proof.
  intros He. eapply hoare_conseq with (P := P); [now apply hoare_extern | auto | cbn; auto].
Qed.

Lemma keeps_syscall e : E e -> keeps P E (syscall e) (fun _ => True).
Proof.
  intros He. eapply hoare_conseq with (P := P); [now apply hoare_syscall | auto | cbn; auto].
Qed.

Lemma keeps_path_at p :
  keeps P E (path_at p)
    (fun fp => exists c, P c /\
       fp = default EmptyString (p ≫= fun i => pathbufs c !! i)).
Proof.
  eapply hoare_conseq with (P := P); [apply hoare_path_at | auto |].
  intros a c [HP ->]. split; [exact HP | now exists c].
Qed.

Lemma keeps_warning text p :
  (forall x, E (Warning text x)) -> keeps P E (warning text p) (fun _ => True).
Proof.
  intros He. eapply hoare_conseq with (P := P); [now apply hoare_warning | auto | cbn; auto].
Qed.

Lemma keeps_error text p :
  (forall x, E (Error text x)) -> keeps P E (error text p) (fun _ => True).
Proof.
  intros He. eapply hoare_conseq with (P := P); [now apply hoare_error | auto | cbn; auto].
Qed.

Lemma keeps_retry {A} (body : M (pass A)) (dflt : A) (phi : A -> Prop) :
  keeps P E body (fun r => match r with Done a => phi a | Again => True end) ->
  phi dflt -> keeps P E (retry body dflt) phi.
Proof.
  intros Hb Hd. apply hoare_retry; [|now split].
  eapply hoare_conseq with (P := P); [exact Hb | auto |].
  intros [a|] c [HP H]; auto.
Qed.

End KeepsRules.

Lemma keeps_mono (P : UnixApply.unix_apply_ctx -> Prop)
    (E E' : UnixApply.event -> Prop) {A} (m : UnixApply.M A)
    (phi : A -> Prop) :
  (forall e, E e -> E' e) ->
  UnixApplyMore.keeps P E m phi -> UnixApplyMore.keeps P E' m phi.
Proof.
  intros HE H s HP. destruct (H s HP) as (HQ & t & Ht & HF).
  split; [exact HQ|]. exists t. split; [exact Ht|].
  eapply Forall_impl; [exact HF | exact HE].
Qed.

(** Side conditions: an event is of the expected kind, the context keeps
    its property, the result has its property. *)
Ltac keeps_side :=
  try solve [ intros; cbn in *; intuition (subst; eauto; congruence) ];
  try solve [ intros;
              match goal with
              | H : forall e, _ -> ?E e |- ?E _ => apply H; exact I
              end ];
  try solve [ intros;
              match goal with
              | H : forall c c', _ = _ -> ?P c -> ?P c' |- ?P _ =>
                  eapply H; [|eassumption]; reflexivity
              end ].

Ltac keeps_leaf :=
  first
    [ apply keeps_get_ctx
    | apply keeps_modify_ctx; keeps_side
    | apply keeps_get_errno
    | apply keeps_set_errno
    | apply keeps_path_at
    | apply keeps_emit; keeps_side
    | apply keeps_extern; keeps_side
    | apply keeps_syscall; keeps_side
    | apply keeps_warning; keeps_side
    | apply keeps_error; keeps_side
    | solve [eauto 2] ].

Ltac keeps_step :=
  lazymatch goal with
  | |- UnixApplyMore.keeps _ _
         (UnixApply.bind (if _ then _ else _) _) _ =>
      eapply keeps_bind with (psi := fun _ => True); [ | intros ? _ ]
  | |- UnixApplyMore.keeps _ _
         (UnixApply.bind (match _ with _ => _ end) _) _ =>
      eapply keeps_bind with (psi := fun _ => True); [ | intros ? _ ]
  | |- UnixApplyMore.keeps _ _
         (UnixApply.bind (UnixApply.ret _) _) _ =>
      eapply keeps_bind with (psi := fun _ => True);
        [ apply keeps_ret; exact I | intros ? _ ]
  | |- UnixApplyMore.keeps _ _
         (UnixApply.bind (UnixApply.bind _ _) _) _ =>
      eapply keeps_bind with (psi := fun _ => True); [ | intros ? _ ]
  | |- UnixApplyMore.keeps _ _ (UnixApply.bind _ _) _ =>
      eapply keeps_bind; [ keeps_leaf | intros ? ? ]
  | |- UnixApplyMore.keeps _ _ (if ?b then _ else _) _ =>
      destruct b eqn:?
  | |- UnixApplyMore.keeps _ _ (match ?x with _ => _ end) _ =>
      destruct x eqn:?
  | |- UnixApplyMore.keeps _ _ (UnixApply.ret _) _ =>
      apply keeps_ret; keeps_side
  | |- UnixApplyMore.keeps _ _ _ _ =>
      eapply keeps_weaken; [ keeps_leaf | keeps_side ]
  end.

Ltac keeps_auto := repeat keeps_step.

Section MetadataFacts.
Import Types Wimlib UnixApply UnixApplySpec UnixApplyMore.
Variables HAVE_FUTIMENS HAVE_UTIMENSAT : bool.

Section Invariant.
Context (P : unix_apply_ctx -> Prop) (E : event -> Prop).
Hypothesis P_pathbufs : forall c v, P c -> P (set_pathbufs v c).
Hypothesis P_which : forall c v, P c -> P (set_which_pathbuf v c).

Lemma keeps_build_extraction_path dentry :
  keeps P E (unix_build_extraction_path dentry) (fun _ => True).
Proof. unfold unix_build_extraction_path. keeps_auto. Qed.

Lemma keeps_reuse_pathbuf : keeps P E unix_reuse_pathbuf (fun _ => True).
Proof. unfold unix_reuse_pathbuf. keeps_auto. Qed.

Lemma keeps_path_or_build inode path :
  keeps P E (path_or_build inode path) (fun _ => True).
Proof.
  unfold path_or_build, unix_build_inode_extraction_path.
  destruct path; [now apply keeps_ret|].
  eapply keeps_bind; [apply keeps_build_extraction_path|].
  intros ? _. now apply keeps_ret.
Qed.

Lemma keeps_set_owner_and_group fd path uid gid :
  (forall e, changes_owner e -> E e) ->
  keeps P E (unix_set_owner_and_group fd path uid gid)
    (fun r => r = WIMLIB_ERR_SUCCESS \/ r = WIMLIB_ERR_SET_SECURITY).
Proof.
  intros HE. unfold unix_set_owner_and_group.
  assert (forall a b c, E (Fchown a b c)) by (intros; now apply HE).
  assert (forall a b c, E (Lchown a b c)) by (intros; now apply HE).
  keeps_auto.
Qed.

Lemma keeps_set_mode fd path mode :
  (forall e, changes_mode e -> E e) ->
  keeps P E (unix_set_mode fd path mode)
    (fun r => r = WIMLIB_ERR_SUCCESS \/ r = WIMLIB_ERR_SET_SECURITY).
Proof.
  intros HE. unfold unix_set_mode.
  assert (forall a b, E (Fchmod a b)) by (intros; now apply HE).
  assert (forall a b, E (Chmod a b)) by (intros; now apply HE).
  keeps_auto.
Qed.

Lemma keeps_set_timestamps fd path atime mtime :
  (forall e, sets_timestamps e -> E e) ->
  keeps P E
    (unix_set_timestamps HAVE_FUTIMENS HAVE_UTIMENSAT fd path atime mtime)
    (fun r => r = WIMLIB_ERR_SUCCESS \/ r = WIMLIB_ERR_SET_TIMESTAMPS).
Proof.
  intros HE. unfold unix_set_timestamps.
  assert (forall a b c, E (Futimens a b c)) by (intros; now apply HE).
  assert (forall a b c, E (Utimensat a b c)) by (intros; now apply HE).
  assert (forall a b c, E (Futimes a b c)) by (intros; now apply HE).
  assert (forall a b c, E (Lutimes a b c)) by (intros; now apply HE).
  keeps_auto.
Qed.

Lemma keeps_metadata_failure strict text r inode path :
  (forall e, is_message e -> E e) ->
  keeps P E (metadata_failure strict text r inode path)
    (fun sp => sp.1 = None \/
               (sp.1 = Some r /\ strict = true /\ r <> WIMLIB_ERR_SUCCESS)).
Proof.
  intros HE. unfold metadata_failure.
  assert (forall a b, E (Warning a b)) by (intros; now apply HE).
  assert (forall a b, E (Error a b)) by (intros; now apply HE).
  destruct (is_error r) eqn:Hr; [|apply keeps_ret; now left].
  eapply keeps_bind; [apply keeps_path_or_build|]. intros p _.
  destruct strict.
  - eapply keeps_bind; [now apply keeps_error|]. intros _ _.
    apply keeps_ret. right. cbn. repeat split. now destruct r.
  - eapply keeps_bind; [now apply keeps_warning|]. intros _ _.
    apply keeps_ret. now left.
Qed.

End Invariant.

Lemma has_flags_pathbufs flags c v :
  has_flags flags c -> has_flags flags (set_pathbufs v c).
Proof. destruct c. auto. Qed.

Lemma has_flags_which flags c v :
  has_flags flags c -> has_flags flags (set_which_pathbuf v c).
Proof. destruct c. auto. Qed.

Lemma set_metadata_keeps (P : unix_apply_ctx -> Prop) flags fd inode path :
  (forall c v, P c -> P (set_pathbufs v c)) ->
  (forall c v, P c -> P (set_which_pathbuf v c)) ->
  (forall c, P c -> has_flags flags c) ->
  keeps P (metadata_event flags inode)
    (unix_set_metadata HAVE_FUTIMENS HAVE_UTIMENSAT fd inode path)
    (fun r =>
       r = WIMLIB_ERR_SUCCESS \/
       (r = WIMLIB_ERR_SET_SECURITY /\
        WIMLIB_EXTRACT_FLAG_STRICT_ACLS flags = true /\
        WIMLIB_EXTRACT_FLAG_UNIX_DATA flags = true /\
        inode_get_unix_data inode <> None) \/
       (r = WIMLIB_ERR_SET_TIMESTAMPS /\
        WIMLIB_EXTRACT_FLAG_STRICT_TIMESTAMPS flags = true)).
Proof.
  intros Hpb Hw Hfl.
  assert (Hts : forall e, sets_timestamps e -> metadata_event flags inode e)
    by (intros e He; now left).
  assert (Hmsg : forall e, is_message e -> metadata_event flags inode e)
    by (intros e He; right; now left).
  unfold unix_set_metadata.
  eapply keeps_bind with (psi := fun _ => True).
  { destruct (_ && _); [|now apply keeps_ret].
    eapply keeps_bind;
      [apply keeps_build_extraction_path; assumption|].
    intros ? _. now apply keeps_ret. }
  intros path1 _.
  eapply keeps_bind; [apply keeps_get_ctx|]. intros c Hc.
  apply Hfl in Hc. unfold has_flags in Hc. rewrite Hc.
  eapply keeps_bind with
    (psi := fun sp => sp.1 = None \/
       (sp.1 = Some WIMLIB_ERR_SET_SECURITY /\
        WIMLIB_EXTRACT_FLAG_STRICT_ACLS flags = true /\
        WIMLIB_EXTRACT_FLAG_UNIX_DATA flags = true /\
        inode_get_unix_data inode <> None)).
  { destruct (WIMLIB_EXTRACT_FLAG_UNIX_DATA flags) eqn:Hud;
      [|apply keeps_ret; now left].
    destruct (inode_get_unix_data inode) as [ud|] eqn:Hget;
      [|apply keeps_ret; now left].
    assert (Hown : forall e, changes_owner e -> metadata_event flags inode e).
    { intros e He. right. right. rewrite Hget. repeat split; auto. }
    eapply keeps_bind;
      [apply keeps_set_owner_and_group; assumption|].
    intros r Hr.
    eapply keeps_bind;
      [apply keeps_metadata_failure; assumption|].
    intros [stop p] Hstop. cbn in Hstop.
    destruct stop as [r'|].
    - apply keeps_ret. right. cbn.
      destruct Hstop as [|(Heq & Hs & Hne)]; [discriminate|].
      injection Heq as ->. destruct Hr as [->| ->]; [congruence|].
      repeat split; auto.
    - eapply keeps_bind with
        (psi := fun r => r = WIMLIB_ERR_SUCCESS \/ r = WIMLIB_ERR_SET_SECURITY).
      { destruct (inode_is_symlink inode) eqn:Hsym; cbn [negb];
          [apply keeps_ret; now left|].
        apply keeps_set_mode; try assumption.
        intros e He. right. right. rewrite Hget. repeat split; auto. }
      intros r2 Hr2.
      eapply keeps_weaken;
        [apply keeps_metadata_failure; assumption|].
      intros sp [H|(Heq & Hs & Hne)]; [now left|]. right.
      destruct Hr2 as [->| ->]; [congruence|]. repeat split; auto. }
  intros [stop p] Hstop. cbn in Hstop.
  destruct stop as [r|].
  { apply keeps_ret. destruct Hstop as [|(Heq & H)]; [discriminate|].
    injection Heq as ->. right. now left. }
  eapply keeps_bind; [apply keeps_set_timestamps; assumption|].
  intros r Hr.
  eapply keeps_bind; [apply keeps_metadata_failure; assumption|].
  intros [stop2 p2] Hstop2. cbn in Hstop2.
  destruct stop2 as [r'|]; apply keeps_ret; [|now left].
  destruct Hstop2 as [|(Heq & Hs & Hne)]; [discriminate|].
  injection Heq as ->. destruct Hr as [->| ->]; [congruence|].
  right. right. now split.
Qed.

(** X14. [unix_set_metadata] returns success, or
    [WIMLIB_ERR_SET_SECURITY] and then only in UNIX-data mode with strict
    ACLs for an inode that has UNIX data, or [WIMLIB_ERR_SET_TIMESTAMPS] and
    then only with strict timestamps. Whatever the system calls answer,
    no other status comes back, and without the strict flags the function
    cannot fail. *)
Theorem set_metadata_status fd inode path s :
  let flags := extract_flags (common (ctx s)) in
  let r := (unix_set_metadata HAVE_FUTIMENS HAVE_UTIMENSAT fd inode path s).1 in
  r = WIMLIB_ERR_SUCCESS \/
  (r = WIMLIB_ERR_SET_SECURITY /\
   WIMLIB_EXTRACT_FLAG_STRICT_ACLS flags = true /\
   WIMLIB_EXTRACT_FLAG_UNIX_DATA flags = true /\
   inode_get_unix_data inode <> None) \/
  (r = WIMLIB_ERR_SET_TIMESTAMPS /\
   WIMLIB_EXTRACT_FLAG_STRICT_TIMESTAMPS flags = true).
Proof.
  intros flags r.
  destruct (set_metadata_keeps (has_flags flags) flags fd inode path
              (has_flags_pathbufs flags) (has_flags_which flags)
              (fun c H => H) s eq_refl)
    as ((_ & H) & _).
  exact H.
Qed.

(** X15. The only calls [unix_set_metadata] makes set timestamps, the
    owner and group, or the mode; it changes the owner and group only in
    UNIX-data mode for an inode with UNIX data, never changes the mode of a
    symbolic link, and leaves the extraction flags as they were. *)
Theorem set_metadata_calls fd inode path s :
  let flags := extract_flags (common (ctx s)) in
  let s' := (unix_set_metadata HAVE_FUTIMENS HAVE_UTIMENSAT fd inode path s).2 in
  extract_flags (common (ctx s')) = flags /\
  exists t, trace s' = trace s ++ t /\
            Forall (metadata_event flags inode) t.
Proof.
  intros flags s'.
  destruct (set_metadata_keeps (has_flags flags) flags fd inode path
              (has_flags_pathbufs flags) (has_flags_which flags)
              (fun c H => H) s eq_refl)
    as ((H & _) & Ht).
  split; [exact H | exact Ht].
Qed.

End MetadataFacts.

Section HardLinks.
Import Types Wimlib UnixApply UnixApplySpec UnixApplyMore.

Lemma hoare_build_other_buffer E i first w dentry :
  valid_pathbuf_index w -> Z.of_nat i = 1 - w ->
  hoare (first_path_kept i first w) E
    (unix_build_extraction_path dentry)
    (fun np c => np = Z.to_nat w /\ first_path_kept i first (Z.of_nat i) c).
Proof.
  intros Hw Hi s (Hwhich & Hbuf & Hlen). cbn. split.
  - rewrite Hwhich. split; [reflexivity|]. unfold first_path_kept. cbn.
    split; [destruct Hw as [-> | ->]; rewrite Hi; reflexivity|].
    split; [|now rewrite length_insert].
    rewrite list_lookup_insert_ne; [exact Hbuf|].
    destruct Hw as [-> | ->]; cbn; lia.
  - exists []. split; [now rewrite app_nil_r | constructor].
Qed.

Lemma hoare_reuse_pathbuf E i first w :
  valid_pathbuf_index w -> Z.of_nat i = 1 - w ->
  hoare (first_path_kept i first (Z.of_nat i)) E
    unix_reuse_pathbuf
    (fun _ c => first_path_kept i first w c).
Proof.
  intros Hw Hi s (Hwhich & Hbuf & Hlen). cbn. split.
  - unfold first_path_kept. cbn. rewrite Hwhich, Hi.
    split; [destruct Hw as [-> | ->]; reflexivity | auto].
  - exists []. split; [now rewrite app_nil_r | constructor].
Qed.

Lemma keeps_link_pass i first w newpath :
  keeps (first_path_kept i first w) (link_event first)
    (link_pass (Some i) newpath)
    (fun r => match r with
              | Done a => a = WIMLIB_ERR_SUCCESS \/ a = WIMLIB_ERR_LINK
              | Again => True
              end).
Proof.
  unfold link_pass.
  eapply keeps_bind; [apply keeps_path_at|].
  intros fp (c & (_ & Hc & _) & ->). cbn. rewrite Hc. cbn.
  keeps_auto.
Qed.

Lemma hoare_create_hardlinks_loop i first w aliases first_dentry :
  valid_pathbuf_index w -> Z.of_nat i = 1 - w ->
  hoare (first_path_kept i first w) (link_event first)
    (create_hardlinks_loop aliases first_dentry (Some i))
    (fun r c =>
       pathbufs c !! i = Some first /\
       (r = WIMLIB_ERR_SUCCESS /\ which_pathbuf c = w \/
        r = WIMLIB_ERR_LINK)).
Proof.
  intros Hw Hi. induction aliases as [|dentry rest IH]; cbn.
  - apply hoare_ret. intros c (H1 & H2 & _). auto.
  - destruct (Nat.eqb _ _); [exact IH|].
    eapply hoare_bind; [now apply hoare_build_other_buffer|].
    intros np. cbn beta.
    eapply hoare_bind with
      (R := fun r c => first_path_kept i first (Z.of_nat i) c /\
                       (r = WIMLIB_ERR_SUCCESS \/ r = WIMLIB_ERR_LINK)).
    { eapply hoare_conseq with
        (P := first_path_kept i first (Z.of_nat i));
        [ apply keeps_retry; [apply keeps_link_pass | now right]
        | now intros c [_ H] | auto ]. }
    intros r.
    destruct (is_error r) eqn:Hr.
    + apply hoare_ret. intros c ((_ & H & _) & [-> | ->]);
        [discriminate | auto].
    + eapply hoare_bind with (R := fun _ => first_path_kept i first w).
      * eapply hoare_conseq with
          (P := first_path_kept i first (Z.of_nat i));
          [ exact (hoare_reuse_pathbuf _ i first w Hw Hi)
          | now intros c [H _] | auto ].
      * intros _. exact IH.
Qed.

(** X16. The hard link loop never overwrites the first path. If the first
    path is in the path buffer that [which_pathbuf] does not name (as it is
    right after [unix_build_extraction_path] returned it), then whatever
    [link] and [unlink] answer, every [link] call of
    [unix_create_hardlinks] has the first path as its source, the buffer
    still holds it at the end, the only statuses are success and
    [WIMLIB_ERR_LINK], and on success [which_pathbuf] is what it was. *)
Theorem create_hardlinks_keeps_first_path
    inode first_dentry (i : nat) first (s : state) :
  valid_pathbuf_index (which_pathbuf (ctx s)) ->
  Z.of_nat i = 1 - which_pathbuf (ctx s) ->
  length (pathbufs (ctx s)) = 2%nat ->
  pathbufs (ctx s) !! i = Some first ->
  let '(r, s') := unix_create_hardlinks inode first_dentry (Some i) s in
  pathbufs (ctx s') !! i = Some first /\
  (r = WIMLIB_ERR_SUCCESS /\ which_pathbuf (ctx s') = which_pathbuf (ctx s) \/
   r = WIMLIB_ERR_LINK) /\
  exists t, trace s' = trace s ++ t /\ Forall (link_event first) t.
Proof.
  intros Hw Hi Hlen Hbuf.
  pose proof (hoare_create_hardlinks_loop i first (which_pathbuf (ctx s))
                (i_extraction_aliases inode) first_dentry Hw Hi s) as H.
  unfold unix_create_hardlinks.
  destruct (create_hardlinks_loop _ _ _ s) as [r s'].
  destruct H as ((H1 & H2) & Ht); [now repeat split|]. auto.
Qed.

End HardLinks.

(* ===================================================================== *)
(** ** What each function of unix_apply.c may call                        *)
(* ===================================================================== *)

Section Frames.
Import Types Wimlib UnixApply UnixApplySpec UnixApplyMore.
Variables HAVE_FUTIMENS HAVE_UTIMENSAT : bool.
Variable REPARSE_DATA_MAX_SIZE : Z.
Variable d_inode : wim_dentry -> wim_inode.
Context (P : unix_apply_ctx -> Prop) (E : event -> Prop).
Hypothesis P_pathbufs : forall c v, P c -> P (set_pathbufs v c).
Hypothesis P_which : forall c v, P c -> P (set_which_pathbuf v c).
Hypothesis E_plain : forall e, plain_event e -> E e.

Lemma keeps_set_metadata_any fd inode path :
  (forall e, changes_owner e -> E e) ->
  (forall e, changes_mode e -> E e) ->
  (forall e, sets_timestamps e -> E e) ->
  keeps P E (unix_set_metadata HAVE_FUTIMENS HAVE_UTIMENSAT fd inode path)
    (fun _ => True).
Proof.
  intros Ho Hm Ht.
  assert (Hmsg : forall e, is_message e -> E e)
    by (intros [] []; now apply E_plain).
  assert (Hfail : forall strict text r i p,
            keeps P E (metadata_failure strict text r i p) (fun _ => True)).
  { intros. eapply keeps_weaken;
      [now apply keeps_metadata_failure | auto]. }
  assert (Hown : forall fd p u g,
            keeps P E (unix_set_owner_and_group fd p u g) (fun _ => True)).
  { intros. eapply keeps_weaken;
      [now apply keeps_set_owner_and_group | auto]. }
  assert (Hmode : forall fd p m,
            keeps P E (unix_set_mode fd p m) (fun _ => True)).
  { intros. eapply keeps_weaken; [now apply keeps_set_mode | auto]. }
  assert (Hts : forall fd p a m,
            keeps P E
              (unix_set_timestamps HAVE_FUTIMENS HAVE_UTIMENSAT fd p a m)
              (fun _ => True)).
  { intros. eapply keeps_weaken; [now apply keeps_set_timestamps | auto]. }
  assert (Hbuild : forall d,
            keeps P E (unix_build_extraction_path d) (fun _ => True))
    by (intros; now apply keeps_build_extraction_path).
  unfold unix_set_metadata, unix_build_inode_extraction_path.
  keeps_auto.
Qed.

Lemma keeps_link_pass_any first_path newpath :
  keeps P E (link_pass first_path newpath) (fun _ => True).
Proof. unfold link_pass. keeps_auto. Qed.

Lemma keeps_create_hardlinks inode first_dentry first_path :
  keeps P E (unix_create_hardlinks inode first_dentry first_path)
    (fun _ => True).
Proof.
  unfold unix_create_hardlinks.
  induction (i_extraction_aliases inode) as [|dentry rest IH]; cbn.
  - now apply keeps_ret.
  - destruct (Nat.eqb _ _); [exact IH|].
    eapply keeps_bind; [now apply keeps_build_extraction_path|].
    intros np _.
    eapply keeps_bind with (psi := fun _ => True);
      [apply keeps_retry; [|exact I]; eapply keeps_weaken;
         [apply keeps_link_pass_any | now intros []]|].
    intros r _. destruct (is_error r); [now apply keeps_ret|].
    eapply keeps_bind; [now apply keeps_reuse_pathbuf|].
    intros _ _. exact IH.
Qed.

Lemma keeps_report_file_created :
  keeps P E report_file_created (fun _ => True).
Proof. unfold report_file_created. keeps_auto. Qed.

Lemma keeps_report_file_metadata_applied :
  keeps P E report_file_metadata_applied (fun _ => True).
Proof. unfold report_file_metadata_applied. keeps_auto. Qed.

Lemma keeps_create_if_directory dentry :
  (forall path mode, E (Mkdir path mode)) -> (forall path, E (Lstat path)) ->
  keeps P E (unix_create_if_directory d_inode dentry) (fun _ => True).
Proof.
  intros Hmk Hls. unfold unix_create_if_directory.
  destruct (negb _); [now apply keeps_ret|].
  eapply keeps_bind; [now apply keeps_build_extraction_path|].
  intros path _.
  pose proof keeps_report_file_created.
  keeps_auto.
Qed.

Lemma keeps_create_pass path :
  keeps P E (create_pass path)
    (fun r => match r with Done _ => True | Again => True end).
Proof. unfold create_pass. keeps_auto. Qed.

Lemma keeps_symlink_pass link_target path :
  keeps P E (symlink_pass link_target path)
    (fun r => match r with Done _ => True | Again => True end).
Proof. unfold symlink_pass. keeps_auto. Qed.

Lemma keeps_create_symlink inode path rpdata rpdatalen rpfix dir nchars :
  keeps P E
    (unix_create_symlink REPARSE_DATA_MAX_SIZE inode path rpdata rpdatalen
       rpfix dir nchars)
    (fun _ => True).
Proof.
  unfold unix_create_symlink.
  pose proof (fun t p => keeps_retry P E (symlink_pass t p) WIMLIB_ERR_LINK
                (fun _ => True) (keeps_symlink_pass t p) I).
  keeps_auto.
Qed.

Lemma keeps_filedes_close i : keeps P E (filedes_close i) (fun _ => True).
Proof. unfold filedes_close. keeps_auto. Qed.

Lemma keeps_close_each l : keeps P E (close_each l) (fun _ => True).
Proof.
  induction l as [|i l IH]; cbn; [now apply keeps_ret|].
  eapply keeps_bind; [apply keeps_filedes_close|]. intros _ _. exact IH.
Qed.

Lemma keeps_for_each_entry f l :
  (forall d, keeps P E (f d) (fun _ => True)) ->
  keeps P E (for_each_entry f l) (fun _ => True).
Proof.
  intros Hf. induction l as [|d l IH]; cbn; [now apply keeps_ret|].
  eapply keeps_bind; [apply Hf|]. intros r _.
  destruct (is_error r); [now apply keeps_ret | exact IH].
Qed.

End Frames.

Section CommonFrames.
Import Types Wimlib UnixApply UnixApplySpec UnixApplyMore.
Variables HAVE_FUTIMENS HAVE_UTIMENSAT : bool.
Variable REPARSE_DATA_MAX_SIZE : Z.
Variable ENABLE_ASSERTIONS : bool.
Variable MAX_OPEN_STREAMS : Z.
Variable d_inode : wim_dentry -> wim_inode.
Variable extract_stream_list : M wimlib_error_code.
Context (P : unix_apply_ctx -> Prop) (E : event -> Prop).

(** [P] looks at nothing but the part of the context that is common to all
    extraction back ends. *)
Hypothesis P_common : forall c c', common c' = common c -> P c -> P c'.
Hypothesis E_plain : forall e, plain_event e -> E e.
Hypothesis E_mkdir : forall path mode, E (Mkdir path mode).
Hypothesis E_lstat : forall path, E (Lstat path).
Hypothesis E_mknod :
  (exists c, P c /\
     WIMLIB_EXTRACT_FLAG_UNIX_DATA (extract_flags (common c)) = true) ->
  forall path mode rdev, E (Mknod path mode rdev).
Hypothesis set_metadata_kept : forall fd inode path,
  keeps P E (unix_set_metadata HAVE_FUTIMENS HAVE_UTIMENSAT fd inode path)
    (fun _ => True).
Hypothesis extract_stream_list_kept :
  keeps P E extract_stream_list (fun _ => True).

Lemma common_keeps_pathbufs c v : P c -> P (set_pathbufs v c).
Proof. apply P_common. reflexivity. Qed.

Lemma common_keeps_which c v : P c -> P (set_which_pathbuf v c).
Proof. apply P_common. reflexivity. Qed.

Lemma keeps_build c_dentry :
  keeps P E (unix_build_extraction_path c_dentry) (fun _ => True).
Proof.
  apply keeps_build_extraction_path; [apply common_keeps_pathbufs | apply common_keeps_which].
Qed.

Lemma keeps_hardlinks inode first_dentry first_path :
  keeps P E (unix_create_hardlinks inode first_dentry first_path)
    (fun _ => True).
Proof.
  apply keeps_create_hardlinks;
    [apply common_keeps_pathbufs | apply common_keeps_which | exact E_plain].
Qed.

Lemma keeps_retry_create_pass path :
  keeps P E (retry (create_pass path) None) (fun _ => True).
Proof.
  apply keeps_retry; [|exact I].
  eapply keeps_weaken; [now apply keeps_create_pass | now intros []].
Qed.

Lemma keeps_mknod_pass path unix_data :
  (forall p m r, E (Mknod p m r)) ->
  keeps P E (mknod_pass path unix_data)
    (fun r => match r with Done _ => True | Again => True end).
Proof. intros Hmk. unfold mknod_pass. keeps_auto. Qed.

Lemma keeps_extract_if_empty_file dentry :
  keeps P E
    (unix_extract_if_empty_file HAVE_FUTIMENS HAVE_UTIMENSAT d_inode dentry)
    (fun _ => True).
Proof.
  unfold unix_extract_if_empty_file.
  destruct (negb _); [now apply keeps_ret|].
  destruct (_ || _); [now apply keeps_ret|].
  eapply keeps_bind; [apply keeps_get_ctx|]. intros c Hc.
  pose proof keeps_build. pose proof keeps_hardlinks.
  pose proof keeps_retry_create_pass.
  pose proof (keeps_report_file_created P E E_plain).
  eapply keeps_bind with (psi := fun _ => True).
  - destruct (WIMLIB_EXTRACT_FLAG_UNIX_DATA _) eqn:Hud.
    + assert (Hmk : forall p m r, E (Mknod p m r))
        by (apply E_mknod; now exists c).
      assert (forall path ud,
                keeps P E (retry (mknod_pass path ud)
                                 (Some WIMLIB_ERR_MKNOD)) (fun _ => True)).
      { intros. apply keeps_retry; [|exact I].
        eapply keeps_weaken; [now apply keeps_mknod_pass | now intros []]. }
      keeps_auto.
    + keeps_auto.
  - intros [[early r] path] _. keeps_auto.
Qed.

Lemma keeps_create_dirs_and_empty_files dentry_list :
  keeps P E
    (unix_create_dirs_and_empty_files HAVE_FUTIMENS HAVE_UTIMENSAT d_inode
       dentry_list)
    (fun _ => True).
Proof.
  unfold unix_create_dirs_and_empty_files.
  eapply keeps_bind.
  - apply keeps_for_each_entry. intros d.
    apply keeps_create_if_directory; auto using common_keeps_pathbufs, common_keeps_which.
  - intros r _. destruct (is_error r); [now apply keeps_ret|].
    apply keeps_for_each_entry. apply keeps_extract_if_empty_file.
Qed.

Lemma keeps_cleanup_open_fds offset :
  keeps P E (unix_cleanup_open_fds offset) (fun _ => True).
Proof.
  unfold unix_cleanup_open_fds.
  pose proof (keeps_close_each P E E_plain).
  keeps_auto.
Qed.

Lemma keeps_begin_extract_stream_instance stream inode :
  keeps P E
    (unix_begin_extract_stream_instance REPARSE_DATA_MAX_SIZE
       ENABLE_ASSERTIONS MAX_OPEN_STREAMS stream inode)
    (fun _ => True).
Proof.
  unfold unix_begin_extract_stream_instance.
  pose proof keeps_build. pose proof keeps_hardlinks.
  pose proof keeps_retry_create_pass.
  keeps_auto.
Qed.

Lemma keeps_begin_extract_stream stream :
  keeps P E
    (unix_begin_extract_stream REPARSE_DATA_MAX_SIZE ENABLE_ASSERTIONS
       MAX_OPEN_STREAMS stream)
    (fun _ => True).
Proof.
  unfold unix_begin_extract_stream.
  pose proof keeps_cleanup_open_fds.
  induction (stream_owners stream) as [|inode rest IH]; cbn;
    [now apply keeps_ret|].
  eapply keeps_bind; [apply keeps_begin_extract_stream_instance|].
  intros o _. keeps_auto.
Qed.

Lemma keeps_write_to_each indices chunk :
  keeps P E (write_to_each indices chunk) (fun _ => True).
Proof.
  induction indices as [|i l IH]; cbn; [now apply keeps_ret|].
  keeps_auto.
Qed.

Lemma keeps_extract_chunk chunk size :
  keeps P E (unix_extract_chunk chunk size) (fun _ => True).
Proof.
  unfold unix_extract_chunk.
  pose proof keeps_write_to_each.
  keeps_auto.
Qed.

Lemma keeps_end_extract_loop stream owners j :
  keeps P E
    (end_extract_loop HAVE_FUTIMENS HAVE_UTIMENSAT REPARSE_DATA_MAX_SIZE
       stream owners j)
    (fun _ => True).
Proof.
  pose proof keeps_build.
  pose proof (keeps_filedes_close P E E_plain).
  pose proof (keeps_create_symlink REPARSE_DATA_MAX_SIZE P E E_plain).
  revert j. induction owners as [|inode rest IH]; intros j; cbn;
    [now apply keeps_ret|].
  unfold unix_build_inode_extraction_path.
  keeps_auto.
Qed.

Lemma keeps_end_extract_stream stream status :
  keeps P E
    (unix_end_extract_stream HAVE_FUTIMENS HAVE_UTIMENSAT
       REPARSE_DATA_MAX_SIZE stream status)
    (fun _ => True).
Proof.
  unfold unix_end_extract_stream.
  pose proof keeps_cleanup_open_fds. pose proof keeps_end_extract_loop.
  keeps_auto.
Qed.

Lemma keeps_set_dir_metadata dentry_list :
  keeps P E
    (unix_set_dir_metadata HAVE_FUTIMENS HAVE_UTIMENSAT d_inode dentry_list)
    (fun _ => True).
Proof.
  unfold unix_set_dir_metadata.
  pose proof (keeps_report_file_metadata_applied P E E_plain).
  induction (rev dentry_list) as [|d l IH]; cbn; [now apply keeps_ret|].
  keeps_auto.
Qed.

Lemma keeps_alloc_pathbufs path_max indices :
  keeps P E (alloc_pathbufs path_max indices) (fun _ => True).
Proof.
  induction indices as [|i l IH]; cbn; [now apply keeps_ret|].
  keeps_auto.
Qed.

Lemma keeps_extract dentry_list :
  keeps P E
    (unix_extract HAVE_FUTIMENS HAVE_UTIMENSAT d_inode extract_stream_list
       dentry_list)
    (fun _ => True).
Proof.
  unfold unix_extract, unix_extract_body, reset_file_progress.
  pose proof keeps_alloc_pathbufs.
  pose proof keeps_create_dirs_and_empty_files.
  pose proof keeps_set_dir_metadata.
  keeps_auto.
Qed.

End CommonFrames.

(* ===================================================================== *)
(** ** Properties of the extraction as a whole                            *)
(* ===================================================================== *)

Section ExtractionFlow.
Import Types Wimlib UnixApply UnixApplySpec UnixApplyMore.
Variables HAVE_FUTIMENS HAVE_UTIMENSAT : bool.
Variable REPARSE_DATA_MAX_SIZE : Z.
Variable ENABLE_ASSERTIONS : bool.
Variable MAX_OPEN_STREAMS : Z.
Variable d_inode : wim_dentry -> wim_inode.

Lemma has_flags_common flags c c' :
  common c' = common c -> has_flags flags c -> has_flags flags c'.
Proof. unfold has_flags. now intros ->. Qed.

Lemma plain_without_unix_data e : plain_event e -> without_unix_data e.
Proof. now destruct e. Qed.

Lemma mknod_needs_unix_data flags :
  WIMLIB_EXTRACT_FLAG_UNIX_DATA flags = false ->
  (exists c, has_flags flags c /\
     WIMLIB_EXTRACT_FLAG_UNIX_DATA (extract_flags (common c)) = true) ->
  forall path mode rdev, without_unix_data (Mknod path mode rdev).
Proof. intros Hf (c & Hc & Hu). rewrite Hc in Hu. congruence. Qed.

Lemma set_metadata_without_unix_data flags fd inode path :
  WIMLIB_EXTRACT_FLAG_UNIX_DATA flags = false ->
  keeps (has_flags flags) without_unix_data
    (unix_set_metadata HAVE_FUTIMENS HAVE_UTIMENSAT fd inode path)
    (fun _ => True).
Proof.
  intros Hf.
  eapply keeps_mono with (E := metadata_event flags inode).
  - intros e [H | [H | (Hu & _)]]; [now destruct e | now destruct e|].
    congruence.
  - eapply keeps_weaken;
      [ apply set_metadata_keeps;
          [apply has_flags_pathbufs | apply has_flags_which | auto]
      | auto ].
Qed.

(** X17. Without [WIMLIB_EXTRACT_FLAG_UNIX_DATA] the three stream
    callbacks, [unix_begin_extract_stream], [unix_extract_chunk] and
    [unix_end_extract_stream], never call [mknod], [chown], [fchown],
    [lchown], [chmod] or [fchmod], whatever the inodes carry and whatever
    the system calls answer; and they leave the extraction flags alone. *)
Theorem stream_callbacks_without_unix_data stream chunk size status s :
  WIMLIB_EXTRACT_FLAG_UNIX_DATA (extract_flags (common (ctx s))) = false ->
  applies_no_unix_data s
    (unix_begin_extract_stream REPARSE_DATA_MAX_SIZE ENABLE_ASSERTIONS
       MAX_OPEN_STREAMS stream s).2 /\
  applies_no_unix_data s (unix_extract_chunk chunk size s).2 /\
  applies_no_unix_data s
    (unix_end_extract_stream HAVE_FUTIMENS HAVE_UTIMENSAT
       REPARSE_DATA_MAX_SIZE stream status s).2.
Proof.
  intros Hf. unfold applies_no_unix_data.
  set (flags := extract_flags (common (ctx s))) in *.
  pose proof (has_flags_common flags) as Hc.
  pose proof plain_without_unix_data as Hp.
  pose proof (fun fd inode path =>
                set_metadata_without_unix_data flags fd inode path Hf) as Hm.
  split; [|split].
  - destruct (keeps_begin_extract_stream REPARSE_DATA_MAX_SIZE
                ENABLE_ASSERTIONS MAX_OPEN_STREAMS (has_flags flags)
                without_unix_data Hc Hp stream s eq_refl) as ((H & _) & Ht).
    now split.
  - destruct (keeps_extract_chunk (has_flags flags) without_unix_data
                Hc Hp chunk size s eq_refl) as ((H & _) & Ht).
    now split.
  - destruct (keeps_end_extract_stream HAVE_FUTIMENS HAVE_UTIMENSAT
                REPARSE_DATA_MAX_SIZE (has_flags flags) without_unix_data
                Hc Hp Hm stream status s eq_refl) as ((H & _) & Ht).
    now split.
Qed.

(** X18. Without [WIMLIB_EXTRACT_FLAG_UNIX_DATA] a whole [unix_extract]
    never calls [mknod] or one of the [chown] and [chmod] functions, and
    leaves the extraction flags alone, provided the stream pass it
    delegates to ([extract_stream_list], which drives the callbacks) does
    not do so itself. *)
Theorem extract_without_unix_data
    (extract_stream_list : M wimlib_error_code) dentry_list s :
  WIMLIB_EXTRACT_FLAG_UNIX_DATA (extract_flags (common (ctx s))) = false ->
  (forall s0,
     extract_flags (common (ctx s0)) = extract_flags (common (ctx s)) ->
     applies_no_unix_data s0 (extract_stream_list s0).2) ->
  applies_no_unix_data s
    (unix_extract HAVE_FUTIMENS HAVE_UTIMENSAT d_inode
       extract_stream_list dentry_list s).2.
Proof.
  intros Hf Hesl. unfold applies_no_unix_data in *.
  set (flags := extract_flags (common (ctx s))) in *.
  assert (He : keeps (has_flags flags) without_unix_data extract_stream_list
                 (fun _ => True)).
  { intros s0 H0. destruct (Hesl s0 H0) as [H1 H2].
    split; [split; [|exact I] | exact H2].
    unfold has_flags in *. congruence. }
  destruct (keeps_extract HAVE_FUTIMENS HAVE_UTIMENSAT d_inode
              extract_stream_list (has_flags flags) without_unix_data
              (has_flags_common flags) plain_without_unix_data
              (fun _ _ => I) (fun _ => I)
              (mknod_needs_unix_data flags Hf)
              (fun fd inode path =>
                 set_metadata_without_unix_data flags fd inode path Hf)
              He dentry_list s eq_refl) as ((H & _) & Ht).
  now split.
Qed.

Lemma directory_pass_events dentry :
  keeps (fun _ => True) directory_event
    (unix_create_if_directory d_inode dentry) (fun _ => True).
Proof.
  unfold unix_create_if_directory, report_file_created.
  pose proof (keeps_build_extraction_path (fun _ => True) directory_event
                (fun _ _ _ => I) (fun _ _ _ => I)).
  keeps_auto.
Qed.

Lemma file_pass_events dentry :
  keeps (fun _ => True) not_mkdir
    (unix_extract_if_empty_file HAVE_FUTIMENS HAVE_UTIMENSAT d_inode dentry)
    (fun _ => True).
Proof.
  apply keeps_extract_if_empty_file.
  - auto.
  - now intros [].
  - intros _ ? ? ?. exact I.
  - intros fd inode path.
    apply keeps_set_metadata_any; auto; now intros [].
Qed.

(** X19. [unix_create_dirs_and_empty_files] creates every directory
    before it creates any file: what it does splits into a first part that
    only calls [mkdir] and [lstat] (and so never unlinks or replaces
    something that is in the way of a directory), and a second part in
    which no [mkdir] happens. *)
Theorem directories_are_created_first dentry_list s :
  let s' := (unix_create_dirs_and_empty_files HAVE_FUTIMENS HAVE_UTIMENSAT
               d_inode dentry_list s).2 in
  exists t1 t2,
    trace s' = trace s ++ t1 ++ t2 /\
    Forall directory_event t1 /\ Forall not_mkdir t2.
Proof.
  cbv zeta. unfold unix_create_dirs_and_empty_files, bind.
  destruct (keeps_for_each_entry (fun _ => True) directory_event
              (unix_create_if_directory d_inode) dentry_list
              directory_pass_events s I) as (_ & t1 & Ht1 & H1).
  destruct (for_each_entry (unix_create_if_directory d_inode) dentry_list s)
    as [r s1]. cbn [snd] in Ht1.
  destruct (is_error r).
  - exists t1, []. cbn. rewrite app_nil_r. auto.
  - destruct (keeps_for_each_entry (fun _ => True) not_mkdir
                (unix_extract_if_empty_file HAVE_FUTIMENS HAVE_UTIMENSAT
                   d_inode) dentry_list file_pass_events s1 I)
      as (_ & t2 & Ht2 & H2).
    exists t1, t2. rewrite Ht2, Ht1, <- app_assoc. auto.
Qed.

(** X20. Given a descriptor, [unix_set_metadata] works on the descriptor
    alone: every call it makes is [fchown], [fchmod], [futimens] or
    [futimes] on that descriptor; a path shows up in its warnings and error
    messages only. *)
Theorem set_metadata_uses_descriptor fd inode path s :
  0 <= fd ->
  let s' := (unix_set_metadata HAVE_FUTIMENS HAVE_UTIMENSAT fd inode path
               s).2 in
  adds (on_descriptor fd) s s'.
Proof.
  intros Hfd. cbv zeta.
  assert (Hge : (0 <=? fd) = true) by lia.
  assert (Hlt : (fd <? 0) = false) by lia.
  assert (Hbuild : forall d,
            keeps (fun _ => True) (on_descriptor fd)
              (unix_build_extraction_path d) (fun _ => True))
    by (intros; now apply keeps_build_extraction_path).
  assert (Hfail : forall strict text r i p,
            keeps (fun _ => True) (on_descriptor fd)
              (metadata_failure strict text r i p) (fun _ => True)).
  { intros. eapply keeps_weaken;
      [apply keeps_metadata_failure; auto; now intros [] | auto]. }
  enough (keeps (fun _ => True) (on_descriptor fd)
            (unix_set_metadata HAVE_FUTIMENS HAVE_UTIMENSAT fd inode path)
            (fun _ => True)) as H
    by (destruct (H s I) as (_ & Ht); exact Ht).
  unfold unix_set_metadata, unix_set_owner_and_group, unix_set_mode,
    unix_set_timestamps, unix_build_inode_extraction_path.
  rewrite Hge, Hlt, !andb_true_r, !andb_false_r. cbn [andb].
  keeps_auto.
Qed.

End ExtractionFlow.

Section StreamCallbacks.
Import Types Wimlib UnixApply UnixApplySpec UnixApplyMore.
Variable REPARSE_DATA_MAX_SIZE : Z.
Variable ENABLE_ASSERTIONS : bool.
Variable MAX_OPEN_STREAMS : Z.








End StreamCallbacks.

Section Chunks.
Import Types Wimlib UnixApply UnixApplySpec UnixApplyMore.

Lemma write_to_each_ctx indices chunk s :
  ctx (write_to_each indices chunk s).2 = ctx s.
Proof.
  revert s. induction indices as [|i l IH]; intros s; [reflexivity|].
  cbn [write_to_each]. unfold bind at 1. cbn [get_ctx].
  unfold bind at 1.
  assert (Hx : forall e, ctx (extern e s).2 = ctx s).
  { intros e. unfold extern, bind, emit, next_answer. cbn.
    now destruct (oracle s). }
  specialize (Hx (Full_write (default (-1) (open_fds (ctx s) !! i)) chunk)).
  destruct (extern _ s) as [a s1]. cbn [snd] in Hx.
  destruct (is_error (a_status a)).
  - unfold error, bind, path_at, emit. cbn. exact Hx.
  - now rewrite IH.
Qed.

Lemma extract_chunk_ctx chunk size s :
  let '(r, s') := unix_extract_chunk chunk size s in
  is_error r = false ->
  ctx s' =
    match reparse_ptr (ctx s) with
    | Some off =>
        set_reparse_ptr (Some (off + size))
          (set_reparse_data
             (take (Z.to_nat off) (reparse_data (ctx s)) ++
              take (Z.to_nat size) chunk ++
              drop (Z.to_nat (off + size)) (reparse_data (ctx s)))
             (ctx s))
    | None => ctx s
    end.
Proof.
  unfold unix_extract_chunk. unfold bind at 1. cbn [get_ctx].
  unfold bind at 1.
  pose proof (write_to_each_ctx (seq 0 (Z.to_nat (num_open_fds (ctx s))))
                (take (Z.to_nat size) chunk) s) as Hw.
  destruct (write_to_each _ _ s) as [r s1]. cbn [snd] in Hw.
  destruct (is_error r) eqn:Hr.
  - cbn. congruence.
  - destruct (reparse_ptr (ctx s)); cbn; intros _; now rewrite Hw.
Qed.

(** X22. Successive chunks land one after the other in the reparse
    buffer. After two successful calls of [unix_extract_chunk] on a stream
    whose reparse pointer is at [off], the buffer holds the two chunks from
    [off] on and is otherwise what it was, it has kept its length, and the
    pointer has moved past both. *)
Theorem extract_chunks_accumulate
    chunk1 size1 chunk2 size2 off (s s1 s2 : state) :
  reparse_ptr (ctx s) = Some off ->
  0 <= off -> 0 <= size1 <= Z.of_nat (length chunk1) ->
  0 <= size2 <= Z.of_nat (length chunk2) ->
  off + size1 + size2 <= Z.of_nat (length (reparse_data (ctx s))) ->
  unix_extract_chunk chunk1 size1 s = (WIMLIB_ERR_SUCCESS, s1) ->
  unix_extract_chunk chunk2 size2 s1 = (WIMLIB_ERR_SUCCESS, s2) ->
  reparse_data (ctx s2) =
    take (Z.to_nat off) (reparse_data (ctx s)) ++
    take (Z.to_nat size1) chunk1 ++ take (Z.to_nat size2) chunk2 ++
    drop (Z.to_nat (off + size1 + size2)) (reparse_data (ctx s)) /\
  reparse_ptr (ctx s2) = Some (off + size1 + size2) /\
  length (reparse_data (ctx s2)) = length (reparse_data (ctx s)).
Proof.
  intros Hp Hoff Hs1 Hs2 Hfit H1 H2.
  pose proof (extract_chunk_ctx chunk1 size1 s) as C1.
  rewrite H1, Hp in C1. specialize (C1 eq_refl).
  pose proof (extract_chunk_ctx chunk2 size2 s1) as C2.
  rewrite H2, C1 in C2. cbn in C2. specialize (C2 eq_refl).
  rewrite C2. cbn. clear C1 C2 H1 H2.
  set (rd := reparse_data (ctx s)) in *.
  assert (length (take (Z.to_nat off) rd) = Z.to_nat off) as L0
    by (rewrite length_take; lia).
  assert (length (take (Z.to_nat size1) chunk1) = Z.to_nat size1) as L1
    by (rewrite length_take; lia).
  assert (take (Z.to_nat (off + size1))
            (take (Z.to_nat off) rd ++ take (Z.to_nat size1) chunk1 ++
             drop (Z.to_nat (off + size1)) rd) =
          take (Z.to_nat off) rd ++ take (Z.to_nat size1) chunk1) as T.
  { rewrite app_assoc. apply take_app_length'.
    rewrite length_app. lia. }
  assert (drop (Z.to_nat (off + size1 + size2))
            (take (Z.to_nat off) rd ++ take (Z.to_nat size1) chunk1 ++
             drop (Z.to_nat (off + size1)) rd) =
          drop (Z.to_nat (off + size1 + size2)) rd) as D.
  { rewrite app_assoc.
    replace (Z.to_nat (off + size1 + size2))
      with (length (take (Z.to_nat off) rd ++ take (Z.to_nat size1) chunk1)
            + Z.to_nat size2)%nat by (rewrite length_app; lia).
    rewrite drop_app_add, drop_drop. f_equal.
    rewrite length_app. lia. }
  rewrite T, D, <- !app_assoc.
  split; [reflexivity|]. split; [reflexivity|].
  rewrite !length_app, L0, L1, length_take, length_drop. lia.
Qed.

End Chunks.

Section PathBuffers.
Import Types Wimlib UnixApply UnixApplySpec UnixApplyMore.

Lemma substring_all (t : string) : substring 0 (String.length t) t = t.
Proof. induction t as [|a t IH]; [reflexivity|]. cbn. now rewrite IH. Qed.

Lemma extern_spec e s :
  ctx (extern e s).2 = ctx s /\ trace (extern e s).2 = trace s ++ [e].
Proof.
  unfold extern, bind, emit, next_answer. cbn. now destruct (oracle s).
Qed.

Lemma alloc_pathbufs_spec path_max indices s :
  let '(r, s') := alloc_pathbufs path_max indices s in
  let filled :=
    substring 0 (Z.to_nat (target_nchars (common (ctx s))))
              (target (common (ctx s))) in
  (r = WIMLIB_ERR_SUCCESS \/ r = WIMLIB_ERR_NOMEM) /\
  common (ctx s') = common (ctx s) /\
  which_pathbuf (ctx s') = which_pathbuf (ctx s) /\
  (r = WIMLIB_ERR_SUCCESS ->
   pathbufs (ctx s') =
     foldl (fun bufs i => <[i := filled]> bufs) (pathbufs (ctx s)) indices) /\
  adds (fun e => e = Malloc path_max) s s'.
Proof.
  revert s. induction indices as [|i l IH]; intros s.
  - cbn. repeat split; auto. exists []. now rewrite app_nil_r.
  - cbn [alloc_pathbufs]. unfold bind at 1.
    destruct (extern_spec (Malloc path_max) s) as [Hc Ht].
    destruct (extern (Malloc path_max) s) as [a s1]. cbn [snd] in Hc, Ht.
    destruct (is_error (a_status a)).
    + cbn. rewrite Hc. repeat split; auto; [discriminate|].
      exists [Malloc path_max]. split; [exact Ht | now repeat constructor].
    + unfold bind at 1. cbn [get_ctx]. unfold bind at 1. cbn [modify_ctx].
      match goal with
      | |- context [alloc_pathbufs path_max l ?s2] => specialize (IH s2)
      end.
      destruct (alloc_pathbufs path_max l _) as [r s']. cbn zeta in *.
      cbn [ctx common set_pathbufs which_pathbuf pathbufs trace] in IH.
      destruct IH as (Hr & Hcom & Hw & Hbufs & t & Htr & Hall).
      rewrite Hc in *.
      repeat split; auto.
      exists (Malloc path_max :: t). split.
      * rewrite Htr. cbn [trace]. rewrite Ht, <- app_assoc. reflexivity.
      * now constructor.
Qed.

(** X23. The path buffers after the allocation loop of [unix_extract]. If
    [target_nchars] is the length of the target, a successful allocation
    leaves two buffers that each hold the target, which is the state
    [unix_build_extraction_path] relies on; the loop returns success or
    [WIMLIB_ERR_NOMEM], calls nothing but [MALLOC(path_max)], and does not
    move [which_pathbuf]. *)
Theorem alloc_pathbufs_prefills path_max s :
  Z.of_nat (String.length (target (common (ctx s)))) =
    target_nchars (common (ctx s)) ->
  length (pathbufs (ctx s)) = 2%nat ->
  let '(r, s') :=
    alloc_pathbufs path_max (seq 0 (Z.to_nat NUM_PATHBUFS)) s in
  (r = WIMLIB_ERR_SUCCESS \/ r = WIMLIB_ERR_NOMEM) /\
  (r = WIMLIB_ERR_SUCCESS ->
   prefilled (ctx s') /\
   pathbufs (ctx s') =
     [target (common (ctx s)); target (common (ctx s))]) /\
  which_pathbuf (ctx s') = which_pathbuf (ctx s) /\
  adds (fun e => e = Malloc path_max) s s'.
Proof.
  intros Hn Hlen.
  pose proof (alloc_pathbufs_spec path_max (seq 0 (Z.to_nat NUM_PATHBUFS)) s)
    as H.
  destruct (alloc_pathbufs path_max _ s) as [r s']. cbn zeta in H.
  destruct H as (Hr & Hcom & Hw & Hbufs & Ht).
  split; [exact Hr|]. split; [|split; [exact Hw | exact Ht]].
  intros Hs. specialize (Hbufs Hs).
  rewrite <- Hn, Nat2Z.id, substring_all in Hbufs.
  destruct (pathbufs (ctx s)) as [|b0 [|b1 [|]]]; try discriminate.
  cbn in Hbufs.
  split; [|exact Hbufs].
  unfold prefilled. rewrite Hcom, Hbufs. split; [exact Hn|].
  intros j buf Hj.
  destruct j as [|[|j]]; cbn in Hj; try discriminate;
    injection Hj as <-; apply substring_all.
Qed.

End PathBuffers.

Section Symlinks.
Import Types Wimlib UnixApply UnixApplySpec UnixApplyMore.
Variable REPARSE_DATA_MAX_SIZE : Z.

Lemma extern_first_answer e s :
  (extern e s).1 = first_answer s /\
  ctx (extern e s).2 = ctx s /\ errno (extern e s).2 = errno s /\
  trace (extern e s).2 = trace s ++ [e].
Proof.
  unfold extern, bind, emit, next_answer, first_answer, next_answer. cbn.
  now destruct (oracle s).
Qed.

Lemma keeps_symlink_pass_target bufs link_target path :
  keeps (fun c => pathbufs c = bufs)
    (symlink_event link_target (default EmptyString (bufs !! path)))
    (symlink_pass link_target path)
    (fun r => match r with
              | Done a => a = WIMLIB_ERR_SUCCESS \/ a = WIMLIB_ERR_LINK
              | Again => True
              end).
Proof.
  unfold symlink_pass.
  eapply keeps_bind; [apply keeps_path_at|].
  intros p (c & Hc & ->). cbn. rewrite Hc.
  keeps_auto.
Qed.

(** X24. What [unix_create_symlink] does with the target that
    [wim_inode_readlink] returns. A negative answer gives
    [WIMLIB_ERR_READLINK] with [errno] set to its negation. With [rpfix], a
    target that starts with a slash gets the first [apply_dir_nchars]
    characters of the extraction directory put in front, unless that does
    not fit, which gives [WIMLIB_ERR_REPARSE_POINT_FIXUP_FAILED] with
    [ENAMETOOLONG]; any other target is used as it is. Every [symlink] call
    that follows uses this one target and the given path, only that path is
    ever unlinked, and the result is success or [WIMLIB_ERR_LINK]. *)
Theorem create_symlink_target
    inode path rpdata rpdatalen rpfix apply_dir apply_dir_nchars s :
  let a := first_answer s in
  let link_target := substring 0 (Z.to_nat (a_ret a)) (a_text a) in
  let readlink := Wim_inode_readlink (i_addr inode) rpdata rpdatalen in
  let '(r, s') :=
    unix_create_symlink REPARSE_DATA_MAX_SIZE inode path rpdata rpdatalen
      rpfix apply_dir apply_dir_nchars s in
  if a_ret a <? 0 then
    r = WIMLIB_ERR_READLINK /\ errno s' = - a_ret a /\
    trace s' = trace s ++ [readlink]
  else if rpfix && starts_with_slash link_target then
    if REPARSE_DATA_MAX_SIZE - (a_ret a + 1) <? apply_dir_nchars then
      r = WIMLIB_ERR_REPARSE_POINT_FIXUP_FAILED /\
      errno s' = ENAMETOOLONG /\ trace s' = trace s ++ [readlink]
    else
      (r = WIMLIB_ERR_SUCCESS \/ r = WIMLIB_ERR_LINK) /\
      exists t, trace s' = trace s ++ readlink :: t /\
        Forall (symlink_event
                  (String.append
                     (substring 0 (Z.to_nat apply_dir_nchars)
                                (default EmptyString apply_dir))
                     link_target)
                  (default EmptyString (pathbufs (ctx s) !! path))) t
  else
    (r = WIMLIB_ERR_SUCCESS \/ r = WIMLIB_ERR_LINK) /\
    exists t, trace s' = trace s ++ readlink :: t /\
      Forall (symlink_event link_target
                (default EmptyString (pathbufs (ctx s) !! path))) t.
Proof.
  cbv zeta. unfold unix_create_symlink. unfold bind at 1.
  destruct (extern_first_answer
              (Wim_inode_readlink (i_addr inode) rpdata rpdatalen) s)
    as (Ha & Hc & He & Ht).
  destruct (extern _ s) as [a s1]. cbn [fst snd] in Ha, Hc, He, Ht.
  rewrite <- Ha. clear Ha.
  assert (Hloop : forall target,
    let '(r, s') := retry (symlink_pass target path) WIMLIB_ERR_LINK s1 in
    (r = WIMLIB_ERR_SUCCESS \/ r = WIMLIB_ERR_LINK) /\
    exists t,
      trace s' =
        trace s ++ Wim_inode_readlink (i_addr inode) rpdata rpdatalen :: t /\
      Forall (symlink_event target
                (default EmptyString (pathbufs (ctx s) !! path))) t).
  { intros target.
    destruct (keeps_retry _ _ _ WIMLIB_ERR_LINK _
                (keeps_symlink_pass_target (pathbufs (ctx s)) target path)
                (or_intror eq_refl) s1)
      as ((_ & Hr) & t & Htr & Hall); [now rewrite Hc|].
    destruct (retry _ _ s1) as [r s']. cbn [fst snd] in *.
    split; [exact Hr|]. exists t. split; [|exact Hall].
    rewrite Htr, Ht, <- app_assoc. reflexivity. }
  destruct (a_ret a <? 0).
  - cbn. auto.
  - unfold bind at 1.
    destruct (rpfix && starts_with_slash _).
    + destruct (_ <? apply_dir_nchars).
      * cbn. auto.
      * cbn [ret]. apply Hloop.
    + cbn [ret]. apply Hloop.
Qed.

End Symlinks.

Section DirectoryMetadata.
Import Types Wimlib UnixApply UnixApplySpec UnixApplyMore.
Variables HAVE_FUTIMENS HAVE_UTIMENSAT : bool.
Variable d_inode : wim_dentry -> wim_inode.

Lemma set_dir_metadata_loop_app l1 l2 s :
  set_dir_metadata_loop HAVE_FUTIMENS HAVE_UTIMENSAT d_inode (l1 ++ l2) s =
  let '(r, s1) :=
    set_dir_metadata_loop HAVE_FUTIMENS HAVE_UTIMENSAT d_inode l1 s in
  if is_error r then (r, s1)
  else set_dir_metadata_loop HAVE_FUTIMENS HAVE_UTIMENSAT d_inode l2 s1.
Proof.
  revert s. induction l1 as [|d l1 IH]; intros s; [reflexivity|].
  cbn [app set_dir_metadata_loop].
  destruct (dentry_is_directory d_inode d); [|apply IH].
  unfold bind.
  destruct (unix_set_metadata _ _ _ _ _ s) as [r s1].
  destruct (is_error r) eqn:Hr; [cbn; now rewrite Hr|].
  destruct (report_file_metadata_applied s1) as [r2 s2].
  destruct (is_error r2) eqn:Hr2; [cbn; now rewrite Hr2|].
  apply IH.
Qed.

(** X25. [unix_set_dir_metadata] works from the end of the dentry list to
    its start, so that what comes later in the list (the contents of a
    directory) is dealt with before what comes earlier: on [l1 ++ l2] it
    does all of [l2] first, stops there if that fails, and only then
    does [l1]. *)
Theorem set_dir_metadata_goes_backwards l1 l2 s :
  unix_set_dir_metadata HAVE_FUTIMENS HAVE_UTIMENSAT d_inode (l1 ++ l2) s =
  let '(r, s1) :=
    unix_set_dir_metadata HAVE_FUTIMENS HAVE_UTIMENSAT d_inode l2 s in
  if is_error r then (r, s1)
  else unix_set_dir_metadata HAVE_FUTIMENS HAVE_UTIMENSAT d_inode l1 s1.
Proof.
  unfold unix_set_dir_metadata. rewrite rev_app_distr.
  apply set_dir_metadata_loop_app.
Qed.

End DirectoryMetadata.

Section UnixMoreExamples.
Import Types Wimlib UnixApply UnixApplySpec UnixApplyMore Examples
  MoreExamples.

(** The path of the example needs ten bytes, the terminator included. *)
Lemma path_max_bounds_every_path_witness :
  4 + unix_dentry_path_length example_dentry + 1
    <= unix_compute_path_max [example_root; example_dentry]
         (ctx example_quiet_state).
Proof.
  pose proof (path_max_bounds_every_path [example_root; example_dentry]
                example_dentry example_quiet_state
                (or_intror (or_introl eq_refl))) as H.
  cbn zeta in H.
  destruct (unix_build_extraction_path example_dentry example_quiet_state).
  apply H.
  - cbn. lia.
  - intros d [<- | [<- | []]]; vm_compute; reflexivity.
Defined.


(** The file of the examples gets its second name from the first path,
    which is still in its buffer afterwards. *)
Lemma create_hardlinks_keeps_first_path_witness :
  let '(r, s') :=
    unix_create_hardlinks example_linked_inode example_dentry (Some 0%nat)
      example_link_state in
  pathbufs (ctx s') !! 0%nat = Some "/mnt/null" /\
  (r = WIMLIB_ERR_SUCCESS /\ which_pathbuf (ctx s') = 1 \/
   r = WIMLIB_ERR_LINK) /\
  exists t, trace s' = [] ++ t /\ Forall (link_event "/mnt/null") t.
Proof.
  apply (create_hardlinks_keeps_first_path example_linked_inode
           example_dentry 0 "/mnt/null" example_link_state).
  - right. reflexivity.
  - reflexivity.
  - reflexivity.
  - reflexivity.
Defined.

Lemma stream_callbacks_without_unix_data_witness :
  applies_no_unix_data example_plain_state
    (unix_begin_extract_stream 16384 false 2 example_stream
       example_plain_state).2 /\
  applies_no_unix_data example_plain_state
    (unix_extract_chunk [1; 2; 3] 3 example_plain_state).2 /\
  applies_no_unix_data example_plain_state
    (unix_end_extract_stream true true 16384 example_stream
       WIMLIB_ERR_SUCCESS example_plain_state).2.
Proof.
  apply (stream_callbacks_without_unix_data true true 16384 false 2
           example_stream [1; 2; 3] 3 WIMLIB_ERR_SUCCESS
           example_plain_state).
  reflexivity.
Defined.

Lemma example_extract_stream_list_kept :
  keeps (has_flags (extract_flags (common example_plain_ctx)))
    without_unix_data example_extract_stream_list (fun _ => True).
Proof.
  pose proof (has_flags_common (extract_flags (common example_plain_ctx)))
    as Hc.
  pose proof plain_without_unix_data as Hp.
  unfold example_extract_stream_list.
  eapply keeps_bind with (psi := fun _ => True);
    [now apply keeps_begin_extract_stream|].
  intros [r| |] _; [|now apply keeps_ret|now apply keeps_ret].
  destruct (is_error r); [now apply keeps_ret|].
  eapply keeps_bind with (psi := fun _ => True);
    [now apply keeps_extract_chunk|].
  intros r' _. apply keeps_end_extract_stream; auto.
  intros fd inode path. now apply set_metadata_without_unix_data.
Qed.

Lemma extract_without_unix_data_witness :
  applies_no_unix_data example_plain_state
    (unix_extract true true example_d_inode example_extract_stream_list
       [example_root; example_dentry] example_plain_state).2.
Proof.
  apply (extract_without_unix_data true true example_d_inode
           example_extract_stream_list [example_root; example_dentry]
           example_plain_state).
  - reflexivity.
  - intros s0 H0.
    destruct (example_extract_stream_list_kept s0 H0) as ((H & _) & Ht).
    split; [rewrite H0; exact H | exact Ht].
Defined.

Lemma set_metadata_uses_descriptor_witness :
  adds (on_descriptor 3) example_quiet_state
    (unix_set_metadata true true 3 example_inode None
       example_quiet_state).2.
Proof.
  apply (set_metadata_uses_descriptor true true 3 example_inode None
           example_quiet_state).
  lia.
Defined.


Lemma extract_chunks_accumulate_witness :
  let s1 := (unix_extract_chunk [1; 2; 3] 3 example_plain_state).2 in
  let s2 := (unix_extract_chunk [4; 5] 2 s1).2 in
  reparse_data (ctx s2) = [1; 2; 3; 4; 5; 0; 0; 0] /\
  reparse_ptr (ctx s2) = Some 5 /\
  length (reparse_data (ctx s2)) = 8%nat.
Proof.
  cbv zeta.
  apply (extract_chunks_accumulate [1; 2; 3] 3 [4; 5] 2 0
           example_plain_state
           (unix_extract_chunk [1; 2; 3] 3 example_plain_state).2
           (unix_extract_chunk [4; 5] 2
              (unix_extract_chunk [1; 2; 3] 3 example_plain_state).2).2);
    try reflexivity; cbn; lia.
Defined.

Lemma alloc_pathbufs_prefills_witness :
  let '(r, s') :=
    alloc_pathbufs 10 (seq 0 (Z.to_nat NUM_PATHBUFS)) example_plain_state in
  (r = WIMLIB_ERR_SUCCESS \/ r = WIMLIB_ERR_NOMEM) /\
  (r = WIMLIB_ERR_SUCCESS ->
   prefilled (ctx s') /\ pathbufs (ctx s') = ["/mnt"; "/mnt"]) /\
  which_pathbuf (ctx s') = 0 /\
  adds (fun e => e = Malloc 10) example_plain_state s'.
Proof.
  apply (alloc_pathbufs_prefills 10 example_plain_state); reflexivity.
Defined.

End UnixMoreExamples.
